(** * LSM303 motion / orientation algorithms (lsm303algo.c)

    A shallow embedding of the streaming detectors of [src/src/lsm303algo.c];
    the sensor driver [lsm303dlhc.c] follows in a part of its own.

    - C [float] is IEEE 754 binary32, modelled with the executable
      specification of [SpecFloat] at precision 24 and maximal exponent 128;
      the few sub-expressions the C promotion rules evaluate in [double]
      (those that mention the constant [1.0]) are computed at precision 53 and
      rounded back on assignment.
    - [uint8_t] counters are [Z] with the wrap-around of [++] written out.
    - The function-scope [static] variables of each routine are a record that
      is passed in and returned (explicit state passing).
    - [atan2f] and [acosf] come from the C library, not from this repository;
      they are parameters of the development.
    - Expressions are evaluated as written, one rounding per operation (no
      fused multiply-add). The [xDebug] lines only write to the log and are
      left out. *)

From Stdlib Require Import ZArith Bool List Lia.
From Stdlib Require Import Floats.SpecFloat.
Import ListNotations.
Open Scope Z_scope.

(** ** binary32 arithmetic *)

Definition float := spec_float.

Definition prec32 : Z := 24.
Definition emax32 : Z := 128.
Definition prec64 : Z := 53.
Definition emax64 : Z := 1024.

Definition fadd : float -> float -> float := SFadd prec32 emax32.
Definition fsub : float -> float -> float := SFsub prec32 emax32.
Definition fmul : float -> float -> float := SFmul prec32 emax32.
Definition fdiv : float -> float -> float := SFdiv prec32 emax32.
Definition sqrtf : float -> float := SFsqrt prec32 emax32.
Definition fabsf : float -> float := SFabs.
Definition flt : float -> float -> bool := SFltb.
Definition fgt (a b : float) : bool := SFltb b a.
Definition feq : float -> float -> bool := SFeqb.
Definition fle : float -> float -> bool := SFleb.

(** [m * 2^e] rounded to binary32 (exact whenever it is representable). *)
Definition f32 (m e : Z) : float := binary_normalize prec32 emax32 m e false.

(** The decimal literal [n / 10^k] with suffix [F]: both operands are exact, so
    the correctly rounded quotient is the literal's value. *)
Definition dec32 (n : Z) (k : Z) : float := fdiv (f32 n 0) (f32 (10 ^ k) 0).

Definition f0 : float := S754_zero false.          (* 0.0F *)
Definition f1 : float := f32 1 0.                  (* 1.0F *)

(** [RAD2DEG] = 57.295779513082320876798154814105F *)
Definition RAD2DEG : float := S754_finite false 15019745 (-18).

Definition is_nan (x : float) : bool :=
  match x with S754_nan => true | _ => false end.

Definition is_finite (x : float) : bool :=
  match x with S754_zero _ | S754_finite _ _ _ => true | _ => false end.

Definition is_zero (x : float) : bool :=
  match x with S754_zero _ => true | _ => false end.

(** ** the [double] detour of [1.0 - K] *)

(** Conversion float -> double is exact, double -> float rounds to nearest. *)
Definition f2d (x : float) : spec_float :=
  match x with
  | S754_finite s m e => binary_round prec64 emax64 s m e
  | _ => x
  end.

Definition d2f (x : spec_float) : float :=
  match x with
  | S754_finite s m e => binary_round prec32 emax32 s m e
  | _ => x
  end.

Definition d1 : spec_float := binary_normalize prec64 emax64 1 0 false. (* 1.0 *)
Definition dsub : spec_float -> spec_float -> spec_float := SFsub prec64 emax64.
Definition dmul : spec_float -> spec_float -> spec_float := SFmul prec64 emax64.

(** ** [uint8_t] *)

Definition u8 (n : Z) : Z := n mod 256.

(** [#define CNTSETUP 32U] *)
Definition CNTSETUP : Z := 32.

(** ** shared arithmetic of the routines *)

(** [alpha * x + (1.0F - alpha) * f] *)
Definition lowpass (alpha x f : float) : float :=
  fadd (fmul alpha x) (fmul (fsub f1 alpha) f).

(** [sqrtf(dX * dX + dY * dY + dZ * dZ)] *)
Definition norm3 (dX dY dZ : float) : float :=
  sqrtf (fadd (fadd (fmul dX dX) (fmul dY dY)) (fmul dZ dZ)).

(** One axis of the Kalman filter, as each of the blocks
    [e += Q; K = e / (e + R); f += K * (x - f); e *= (1.0 - K);]
    The last statement is evaluated in [double] and rounded on assignment. *)
Definition kalman (Q R x : float) (fe : float * float) : float * float :=
  let '(f, e) := fe in
  let e := fadd e Q in
  let K := fdiv e (fadd e R) in
  let f := fadd f (fmul K (fsub x f)) in
  let e := d2f (dmul (f2d e) (dsub d1 (f2d K))) in
  (f, e).

(** ** motionLP *)

Module MotionLP.
Record state := mk {
  setup : Z; smpl : Z;
  pX : float; pY : float; pZ : float;
  fX : float; fY : float; fZ : float }.
Definition init : state := mk 0 0 f0 f0 f0 f0 f0 f0.
Record args := Args { x : float; y : float; z : float; alpha : float; delta : float; sample : Z }.
End MotionLP.

Definition motionLP (x y z alpha delta : float) (sample : Z)
  (s : MotionLP.state) : MotionLP.state * float :=
  let '(MotionLP.mk setup smpl pX pY pZ fX fY fZ) := s in
  if setup =? 0 then
    (MotionLP.mk (u8 (setup + 1)) smpl pX pY pZ x y z, f0)
  else
    let fX := lowpass alpha x fX in
    let fY := lowpass alpha y fY in
    let fZ := lowpass alpha z fZ in
    if setup <? CNTSETUP then
      (MotionLP.mk (u8 (setup + 1)) smpl fX fY fZ fX fY fZ, f0)
    else
      let smpl0 := smpl in
      let smpl := u8 (smpl + 1) in
      if smpl0 <? sample then
        (MotionLP.mk setup smpl pX pY pZ fX fY fZ, f0)
      else
        let smpl := 0 in
        let dX := fabsf (fsub fX pX) in
        let dY := fabsf (fsub fY pY) in
        let dZ := fabsf (fsub fZ pZ) in
        let m := norm3 dX dY dZ in
        if fgt m delta then
          (MotionLP.mk 0 smpl pX pY pZ fX fY fZ, m)
        else
          (MotionLP.mk setup smpl pX pY pZ fX fY fZ, f0).

(** ** motionK *)

Module MotionK.
Record state := mk {
  setup : Z; smpl : Z;
  fX : float; fY : float; fZ : float;
  eX : float; eY : float; eZ : float;
  pX : float; pY : float; pZ : float }.
Definition init : state := mk 0 0 f0 f0 f0 f0 f0 f0 f0 f0 f0.
Record args := Args { x : float; y : float; z : float; Q : float; R : float; E : float; delta : float; sample : Z }.
End MotionK.

Definition motionK (x y z Q R E delta : float) (sample : Z)
  (s : MotionK.state) : MotionK.state * float :=
  let '(MotionK.mk setup smpl fX fY fZ eX eY eZ pX pY pZ) := s in
  if setup =? 0 then
    (MotionK.mk (u8 (setup + 1)) smpl x y z E E E pX pY pZ, f0)
  else
    let '(fX, eX) := kalman Q R x (fX, eX) in
    let '(fY, eY) := kalman Q R y (fY, eY) in
    let '(fZ, eZ) := kalman Q R z (fZ, eZ) in
    if setup <? CNTSETUP then
      (MotionK.mk (u8 (setup + 1)) smpl fX fY fZ eX eY eZ fX fY fZ, f0)
    else
      let smpl0 := smpl in
      let smpl := u8 (smpl + 1) in
      if smpl0 <? sample then
        (MotionK.mk setup smpl fX fY fZ eX eY eZ pX pY pZ, f0)
      else
        let smpl := 0 in
        let dX := fabsf (fsub fX pX) in
        let dY := fabsf (fsub fY pY) in
        let dZ := fabsf (fsub fZ pZ) in
        let m := norm3 dX dY dZ in
        if fgt m delta && flt m f1 then
          (MotionK.mk 0 smpl fX fY fZ eX eY eZ pX pY pZ, m)
        else
          (MotionK.mk setup smpl fX fY fZ eX eY eZ pX pY pZ, f0).

(** ** distortionHP *)

Module DistortionHP.
Record state := mk {
  setup : Z;
  iX : float; iY : float; iZ : float;
  oX : float; oY : float; oZ : float;
  M : float }.
Definition init : state := mk 0 f0 f0 f0 f0 f0 f0 f0.
Record args := Args { x : float; y : float; z : float; alpha : float; delta : float }.
End DistortionHP.

Definition distortionHP (x y z alpha delta : float)
  (s : DistortionHP.state) : DistortionHP.state * float :=
  let '(DistortionHP.mk setup iX iY iZ oX oY oZ M) := s in
  let oX := fmul alpha (fsub (fadd oX x) iX) in
  let oY := fmul alpha (fsub (fadd oY y) iY) in
  let oZ := fmul alpha (fsub (fadd oZ z) iZ) in
  let iX := x in
  let iY := y in
  let iZ := z in
  let dX := fsub iX oX in
  let dY := fsub iY oY in
  let dZ := fsub iZ oZ in
  let m := norm3 dX dY dZ in
  if setup =? 0 then
    (DistortionHP.mk (u8 (setup + 1)) iX iY iZ oX oY oZ m, f0)
  else if setup <? CNTSETUP then
    (DistortionHP.mk (u8 (setup + 1)) iX iY iZ oX oY oZ (lowpass alpha m M), f0)
  else
    let d := fabsf (fsub M m) in
    if fgt d delta then
      (DistortionHP.mk 0 iX iY iZ oX oY oZ M, d)
    else
      (DistortionHP.mk setup iX iY iZ oX oY oZ M, f0).

(** ** distortionLP *)

Module DistortionLP.
Record state := mk { setup : Z; aX : float; aY : float; aZ : float }.
Definition init : state := mk 0 f0 f0 f0.
Record args := Args { x : float; y : float; z : float; alpha : float; delta : float }.
End DistortionLP.

Definition distortionLP (x y z alpha delta : float)
  (s : DistortionLP.state) : DistortionLP.state * float :=
  let '(DistortionLP.mk setup aX aY aZ) := s in
  if setup =? 0 then
    (DistortionLP.mk (u8 (setup + 1)) x y z, f0)
  else
    let dX := fsub x aX in
    let dY := fsub y aY in
    let dZ := fsub z aZ in
    let aX := lowpass alpha x aX in
    let aY := lowpass alpha y aY in
    let aZ := lowpass alpha z aZ in
    if setup <? CNTSETUP then
      (DistortionLP.mk (u8 (setup + 1)) aX aY aZ, f0)
    else
      let m := norm3 dX dY dZ in
      if fgt m delta then
        (DistortionLP.mk 0 aX aY aZ, m)
      else
        (DistortionLP.mk setup aX aY aZ, f0).

(** ** three-element arrays, indexed by [enum { X, Y, Z }] *)

Module Axis.
Inductive t := X | Y | Z.
End Axis.
Definition axis := Axis.t.

Record vec3 := V3 { vX : float; vY : float; vZ : float }.

Definition get (v : vec3) (i : axis) : float :=
  match i with Axis.X => vX v | Axis.Y => vY v | Axis.Z => vZ v end.

Definition set (v : vec3) (i : axis) (x : float) : vec3 :=
  match i with
  | Axis.X => V3 x (vY v) (vZ v)
  | Axis.Y => V3 (vX v) x (vZ v)
  | Axis.Z => V3 (vX v) (vY v) x
  end.

Definition vzero : vec3 := V3 f0 f0 f0.

(** What a call leaves in [*pitch], [*roll], [*yaw]. *)
Record angles := Angles { pitch : float; roll : float; yaw : float }.

(** ** fall detector *)

Inductive stage_t := STAGE_INIT | STAGE_WEIGHLESSNESS | STAGE_FALL.

Module DetectFall.
Record state := mk { stage : stage_t; smpl : Z }.
Definition init : state := mk STAGE_INIT 0.
Record args := Args { x : float; y : float; z : float; wThs : float; iThs : float }.
End DetectFall.

Definition detectFall (x y z wThs iThs : float)
  (s : DetectFall.state) : DetectFall.state * stage_t :=
  let '(DetectFall.mk stage smpl) := s in
  let M := norm3 x y z in
  let stage :=
    match stage with
    | STAGE_INIT => if flt M wThs then STAGE_WEIGHLESSNESS else stage
    | STAGE_WEIGHLESSNESS => if fgt M iThs then STAGE_FALL else stage
    | STAGE_FALL => if feq (fadd wThs iThs) f0 then STAGE_INIT else stage
    end in
  (DetectFall.mk stage smpl, stage).

(** ** routines that call the C library *)

Module OrientLP.
Record state := mk {
  setup : Z;
  aX : float; aY : float; aZ : float;
  mX : float; mY : float; mZ : float }.
Definition init : state := mk 0 f0 f0 f0 f0 f0 f0.
Record args := Args { a : vec3; m : vec3; alpha : float }.
End OrientLP.

Module OrientK.
Record state := mk {
  setup : Z; fA : vec3; fM : vec3; eA : vec3; eM : vec3 }.
Definition init : state := mk 0 vzero vzero vzero vzero.
Record args := Args { a : vec3; m : vec3; Q : float; R : float; E : float }.
End OrientK.

Module InclineLP.
Record state := mk { setup : Z; aX : float; aY : float; aZ : float }.
Definition init : state := mk 0 f0 f0 f0.
Record args := Args { x : float; y : float; z : float; alpha : float; delta : float }.
End InclineLP.

(** The body of [for (uint8_t i = 0; i < 3; ++i)] in [orientK], run over the
    indices in order. *)
Fixpoint kalman_loop (idx : list axis) (a m : vec3) (Q R : float)
  (st : vec3 * vec3 * vec3 * vec3) : vec3 * vec3 * vec3 * vec3 :=
  match idx with
  | [] => st
  | i :: idx =>
      let '(fA, fM, eA, eM) := st in
      let '(fa, ea) := kalman Q R (get a i) (get fA i, get eA i) in
      let '(fm, em) := kalman Q R (get m i) (get fM i, get eM i) in
      kalman_loop idx a m Q R (set fA i fa, set fM i fm, set eA i ea, set eM i em)
  end.

Section Libm.

Variable atan2f : float -> float -> float.
Variable acosf : float -> float.

Definition orientLP (a m : vec3) (alpha : float)
  (s : OrientLP.state) : OrientLP.state * (Z * option angles) :=
  let '(OrientLP.mk setup aX aY aZ mX mY mZ) := s in
  if setup =? 0 then
    (OrientLP.mk (u8 (setup + 1)) (get a Axis.X) (get a Axis.Y) (get a Axis.Z)
                 (get m Axis.X) (get m Axis.Y) (get m Axis.Z), (1, None))
  else
    let aX := lowpass alpha (get a Axis.X) aX in
    let aY := lowpass alpha (get a Axis.Y) aY in
    let aZ := lowpass alpha (get a Axis.Z) aZ in
    let mX := lowpass alpha (get m Axis.X) mX in
    let mY := lowpass alpha (get m Axis.Y) mY in
    let mZ := lowpass alpha (get m Axis.Z) mZ in
    if setup <? CNTSETUP then
      (OrientLP.mk (u8 (setup + 1)) aX aY aZ mX mY mZ, (1, None))
    else
      let pitch :=
        fmul (atan2f aX (sqrtf (fadd (fmul aY aY) (fmul aZ aZ)))) RAD2DEG in
      let roll :=
        fmul (atan2f aY (sqrtf (fadd (fmul aX aX) (fmul aZ aZ)))) RAD2DEG in
      let N := norm3 aX aY aZ in
      let aX := fdiv aX N in
      let aY := fdiv aY N in
      let aZ := fdiv aZ N in
      let N := norm3 mX mY mZ in
      let mX := fdiv mX N in
      let mY := fdiv mY N in
      let mZ := fdiv mZ N in
      let Mx := fsub (fmul mX aZ) (fmul mZ aX) in
      let My := fsub (fmul mY aZ) (fmul mZ aY) in
      let yaw := fmul (atan2f My Mx) RAD2DEG in
      (OrientLP.mk setup aX aY aZ mX mY mZ, (0, Some (Angles pitch roll yaw))).

Definition orientK (a m : vec3) (Q R E : float)
  (s : OrientK.state) : OrientK.state * (Z * option angles) :=
  let '(OrientK.mk setup fA fM eA eM) := s in
  if setup =? 0 then
    (OrientK.mk (u8 (setup + 1))
                (V3 (get a Axis.X) (get a Axis.Y) (get a Axis.Z))
                (V3 (get m Axis.X) (get m Axis.Y) (get m Axis.Z))
                (V3 E E E) (V3 E E E), (1, None))
  else
    let '(fA, fM, eA, eM) := kalman_loop [Axis.X; Axis.Y; Axis.Z] a m Q R (fA, fM, eA, eM) in
    if setup <? CNTSETUP then
      (OrientK.mk (u8 (setup + 1)) fA fM eA eM, (1, None))
    else
      let pitch :=
        fmul (atan2f (get fA Axis.X)
                (sqrtf (fadd (fmul (get fA Axis.Y) (get fA Axis.Y))
                             (fmul (get fA Axis.Z) (get fA Axis.Z))))) RAD2DEG in
      let roll :=
        fmul (atan2f (get fA Axis.Y)
                (sqrtf (fadd (fmul (get fA Axis.X) (get fA Axis.X))
                             (fmul (get fA Axis.Z) (get fA Axis.Z))))) RAD2DEG in
      let N := norm3 (get fA Axis.X) (get fA Axis.Y) (get fA Axis.Z) in
      let fA := set fA Axis.X (fdiv (get fA Axis.X) N) in
      let fA := set fA Axis.Y (fdiv (get fA Axis.Y) N) in
      let fA := set fA Axis.Z (fdiv (get fA Axis.Z) N) in
      let N := norm3 (get fM Axis.X) (get fM Axis.Y) (get fM Axis.Z) in
      let fM := set fM Axis.X (fdiv (get fM Axis.X) N) in
      let fM := set fM Axis.Y (fdiv (get fM Axis.Y) N) in
      let fM := set fM Axis.Z (fdiv (get fM Axis.Z) N) in
      let Mx := fsub (fmul (get fM Axis.X) (get fA Axis.Z)) (fmul (get fM Axis.Z) (get fA Axis.X)) in
      let My := fsub (fmul (get fM Axis.Y) (get fA Axis.Z)) (fmul (get fM Axis.Z) (get fA Axis.Y)) in
      let yaw := fmul (atan2f My Mx) RAD2DEG in
      (OrientK.mk setup fA fM eA eM, (0, Some (Angles pitch roll yaw))).

Definition inclineLP (x y z alpha delta : float)
  (s : InclineLP.state) : InclineLP.state * float :=
  let '(InclineLP.mk setup aX aY aZ) := s in
  if setup =? 0 then
    (InclineLP.mk (u8 (setup + 1)) x y z, f0)
  else
    let aX := lowpass alpha x aX in
    let aY := lowpass alpha y aY in
    let aZ := lowpass alpha z aZ in
    if setup <? CNTSETUP then
      (InclineLP.mk (u8 (setup + 1)) aX aY aZ, f0)
    else
      let theta := fmul (acosf (fdiv aZ (norm3 aX aY aZ))) RAD2DEG in
      if fgt theta (fabsf delta) then
        (InclineLP.mk 0 aX aY aZ, theta)
      else
        (InclineLP.mk setup aX aY aZ, f0).

End Libm.

(** ** detectors as machines: one call per sample *)

(** A routine together with its statics: the zero-initialised statics, the
    call, and the warm-up counter [setup] it keeps. *)
Record detector (Out : Type) := Detector {
  st : Type;
  arg : Type;
  start : st;
  call : arg -> st -> st * Out;
  counter : st -> Z }.

Arguments st {Out} d.
Arguments arg {Out} d.
Arguments start {Out} d.
Arguments call {Out} d _ _.
Arguments counter {Out} d _.

(** The calls of a sampling loop, in order: the final statics and the value
    each call returned. *)
Fixpoint run {Out} (D : detector Out) (l : list (arg D)) (s : st D)
  : st D * list Out :=
  match l with
  | [] => (s, [])
  | a :: l =>
      let '(s1, o) := call D a s in
      let '(s2, os) := run D l s1 in
      (s2, o :: os)
  end.

Definition final {Out} (D : detector Out) (l : list (arg D)) : st D :=
  fst (run D l (start D)).

Definition outputs {Out} (D : detector Out) (l : list (arg D)) : list Out :=
  snd (run D l (start D)).

Definition motionLP_det : detector float :=
  Detector float MotionLP.state MotionLP.args MotionLP.init
    (fun a => motionLP (MotionLP.x a) (MotionLP.y a) (MotionLP.z a)
                (MotionLP.alpha a) (MotionLP.delta a) (MotionLP.sample a))
    MotionLP.setup.

Definition motionK_det : detector float :=
  Detector float MotionK.state MotionK.args MotionK.init
    (fun a => motionK (MotionK.x a) (MotionK.y a) (MotionK.z a)
                (MotionK.Q a) (MotionK.R a) (MotionK.E a)
                (MotionK.delta a) (MotionK.sample a))
    MotionK.setup.

Definition distortionHP_det : detector float :=
  Detector float DistortionHP.state DistortionHP.args DistortionHP.init
    (fun a => distortionHP (DistortionHP.x a) (DistortionHP.y a)
                (DistortionHP.z a) (DistortionHP.alpha a) (DistortionHP.delta a))
    DistortionHP.setup.

Definition distortionLP_det : detector float :=
  Detector float DistortionLP.state DistortionLP.args DistortionLP.init
    (fun a => distortionLP (DistortionLP.x a) (DistortionLP.y a)
                (DistortionLP.z a) (DistortionLP.alpha a) (DistortionLP.delta a))
    DistortionLP.setup.

Definition orientLP_det (atan2f : float -> float -> float)
  : detector (Z * option angles) :=
  Detector _ OrientLP.state OrientLP.args OrientLP.init
    (fun a => orientLP atan2f (OrientLP.a a) (OrientLP.m a) (OrientLP.alpha a))
    OrientLP.setup.

Definition orientK_det (atan2f : float -> float -> float)
  : detector (Z * option angles) :=
  Detector _ OrientK.state OrientK.args OrientK.init
    (fun a => orientK atan2f (OrientK.a a) (OrientK.m a)
                (OrientK.Q a) (OrientK.R a) (OrientK.E a))
    OrientK.setup.

Definition inclineLP_det (acosf : float -> float) : detector float :=
  Detector float InclineLP.state InclineLP.args InclineLP.init
    (fun a => inclineLP acosf (InclineLP.x a) (InclineLP.y a) (InclineLP.z a)
                (InclineLP.alpha a) (InclineLP.delta a))
    InclineLP.setup.

(** ** properties of machines the results below are stated with *)

(** While the counter is below [CNTSETUP] a call returns [q] and counts. *)
Definition warm_step {Out} (D : detector Out) (q : Out) : Prop :=
  forall a s, 0 <= counter D s < CNTSETUP ->
    snd (call D a s) = q /\ counter D (fst (call D a s)) = counter D s + 1.

(** Each of the first [CNTSETUP] calls returns [q], whatever the inputs. *)
Definition silent_warmup {Out} (D : detector Out) (q : Out) : Prop :=
  forall (l : list (arg D)) (n : nat) (o : Out),
    (n < Z.to_nat CNTSETUP)%nat -> nth_error (outputs D l) n = Some o -> o = q.

(** The law of the warm-up counter for one call; [fires a o] reads off the
    arguments and the returned value whether the call fired. *)
Definition counter_step {Out} (D : detector Out)
  (fires : arg D -> Out -> bool) : Prop :=
  forall a s, 0 <= counter D s <= CNTSETUP ->
    (counter D s < CNTSETUP ->
       counter D (fst (call D a s)) = counter D s + 1) /\
    (counter D s = CNTSETUP ->
       counter D (fst (call D a s)) = CNTSETUP \/
       (counter D (fst (call D a s)) = 0 /\ fires a (snd (call D a s)) = true)).

(** The counter is within bounds after any sequence of calls. *)
Definition counter_bounded {Out} (D : detector Out) : Prop :=
  forall l : list (arg D), 0 <= counter D (final D l) <= CNTSETUP.

Definition counter_law {Out} (D : detector Out)
  (fires : arg D -> Out -> bool) : Prop :=
  counter_bounded D /\ counter_step D fires.

(** The law of a decimation counter [smpl] against the [uint8_t] argument
    [sample]: a call leaves it alone, resets it, or adds one without passing
    [sample]. *)
Definition decimation_step {Out} (D : detector Out)
  (smpl : st D -> Z) (sample : arg D -> Z) : Prop :=
  forall a s, 0 <= sample a <= 255 -> 0 <= smpl s <= 255 ->
    let s' := fst (call D a s) in
    0 <= smpl s' <= 255 /\
    (smpl s' = smpl s \/ smpl s' = 0 \/
     (smpl s' = smpl s + 1 /\ smpl s' <= sample a)).

(** ** the distance check of the motion detectors *)

(** The distance [m] a call of [motionLP] computes between the vector it has
    just filtered and the stored snapshot [pX, pY, pZ]. *)
Definition motionLP_m (a : MotionLP.args) (s : MotionLP.state) : float :=
  let fX := lowpass (MotionLP.alpha a) (MotionLP.x a) (MotionLP.fX s) in
  let fY := lowpass (MotionLP.alpha a) (MotionLP.y a) (MotionLP.fY s) in
  let fZ := lowpass (MotionLP.alpha a) (MotionLP.z a) (MotionLP.fZ s) in
  norm3 (fabsf (fsub fX (MotionLP.pX s))) (fabsf (fsub fY (MotionLP.pY s)))
        (fabsf (fsub fZ (MotionLP.pZ s))).

(** The same for [motionK], after its Kalman update. *)
Definition motionK_m (a : MotionK.args) (s : MotionK.state) : float :=
  let fX := fst (kalman (MotionK.Q a) (MotionK.R a) (MotionK.x a)
                   (MotionK.fX s, MotionK.eX s)) in
  let fY := fst (kalman (MotionK.Q a) (MotionK.R a) (MotionK.y a)
                   (MotionK.fY s, MotionK.eY s)) in
  let fZ := fst (kalman (MotionK.Q a) (MotionK.R a) (MotionK.z a)
                   (MotionK.fZ s, MotionK.eZ s)) in
  norm3 (fabsf (fsub fX (MotionK.pX s))) (fabsf (fsub fY (MotionK.pY s)))
        (fabsf (fsub fZ (MotionK.pZ s))).

Definition motionLP_snapshot (s : MotionLP.state) : float * float * float :=
  (MotionLP.pX s, MotionLP.pY s, MotionLP.pZ s).

Definition motionK_snapshot (s : MotionK.state) : float * float * float :=
  (MotionK.pX s, MotionK.pY s, MotionK.pZ s).

(** [m > delta] and [m > delta && m < 1.0] *)
Definition motionLP_trigger (a : MotionLP.args) (m : float) : bool :=
  fgt m (MotionLP.delta a).

Definition motionK_trigger (a : MotionK.args) (m : float) : bool :=
  fgt m (MotionK.delta a) && flt m f1.

(** Decimation as the motion detectors do it, for a machine with decimation
    counter [smpl], argument [sample], snapshot [snap], distance [mag] and
    trigger [trig]:
    - the statics after the 32nd call have [setup = 32] and [smpl = 0];
    - a call with [setup = 32] and [smpl < sample] is skipped: it returns
      [0.0F] whatever the sample, counts, and keeps the snapshot;
    - a call with [setup = 32] and [smpl >= sample] checks the distance;
    - so from [smpl = 0], [n] calls made with [sample = n] are all skipped and
      leave [smpl = n]: the check is made by the call after them. *)
Definition skips_then_checks (D : detector float)
  (smpl : st D -> Z) (sample : arg D -> Z) (snap : st D -> float * float * float)
  (mag : arg D -> st D -> float) (trig : arg D -> float -> bool) : Prop :=
  (forall l, length l = Z.to_nat CNTSETUP ->
     counter D (final D l) = CNTSETUP /\ smpl (final D l) = 0) /\
  (forall a s, counter D s = CNTSETUP -> 0 <= smpl s < sample a -> sample a <= 255 ->
     snd (call D a s) = f0 /\
     counter D (fst (call D a s)) = CNTSETUP /\
     smpl (fst (call D a s)) = smpl s + 1 /\
     snap (fst (call D a s)) = snap s) /\
  (forall a s, counter D s = CNTSETUP -> sample a <= smpl s ->
     smpl (fst (call D a s)) = 0 /\
     snd (call D a s) = (if trig a (mag a s) then mag a s else f0) /\
     counter D (fst (call D a s)) = (if trig a (mag a s) then 0 else CNTSETUP)) /\
  (forall l s n, counter D s = CNTSETUP -> smpl s = 0 -> 0 <= n <= 255 ->
     Z.of_nat (length l) = n -> Forall (fun a => sample a = n) l ->
     Forall (fun o => o = f0) (snd (run D l s)) /\
     counter D (fst (run D l s)) = CNTSETUP /\
     smpl (fst (run D l s)) = n /\
     snap (fst (run D l s)) = snap s).

(** Inputs of the examples: a sensor at rest, then a jump on the X axis. *)
Definition rest_LP (sample : Z) : MotionLP.args :=
  MotionLP.Args f0 f0 f0 (dec32 5 1) (dec32 1 1) sample.
Definition jump_LP (sample : Z) : MotionLP.args :=
  MotionLP.Args (f32 100 0) f0 f0 (dec32 5 1) (dec32 1 1) sample.
Definition rest_K (sample : Z) : MotionK.args :=
  MotionK.Args f0 f0 f0 (dec32 1 1) f1 f1 (dec32 1 1) sample.
Definition jump_K (x : float) (sample : Z) : MotionK.args :=
  MotionK.Args x f0 f0 (dec32 1 1) f1 f1 (dec32 1 1) sample.

(** ** the stage transitions of the fall detector, as the specification lists
    them *)

(** [fall_step M wThs iThs st st']: with magnitude [M] and thresholds [wThs],
    [iThs] the stage [st] is followed by [st']. The first three rules are the
    transitions; the last three say that nothing else moves the stage. *)
Inductive fall_step (M wThs iThs : float) : stage_t -> stage_t -> Prop :=
| Init_to_Weightlessness :
    flt M wThs = true -> fall_step M wThs iThs STAGE_INIT STAGE_WEIGHLESSNESS
| Weightlessness_to_Fall :
    fgt M iThs = true -> fall_step M wThs iThs STAGE_WEIGHLESSNESS STAGE_FALL
| Fall_to_Init :
    feq (fadd wThs iThs) f0 = true -> fall_step M wThs iThs STAGE_FALL STAGE_INIT
| Init_stays :
    flt M wThs = false -> fall_step M wThs iThs STAGE_INIT STAGE_INIT
| Weightlessness_stays :
    fgt M iThs = false ->
    fall_step M wThs iThs STAGE_WEIGHLESSNESS STAGE_WEIGHLESSNESS
| Fall_latched :
    feq (fadd wThs iThs) f0 = false -> fall_step M wThs iThs STAGE_FALL STAGE_FALL.

(** ** the orientation computation, as the specification lists it *)

(** A vector divided by its norm, component by component. *)
Definition normalize (v : vec3) : vec3 :=
  let N := norm3 (vX v) (vY v) (vZ v) in
  V3 (fdiv (vX v) N) (fdiv (vY v) N) (fdiv (vZ v) N).

(** Steps 1 to 5 of the algorithm on filtered vectors [A] and [M]: pitch and
    roll from [A], then both vectors divided by their norms, the projection
    [(Mx, My)] and the yaw. *)
Definition tilt_compass (atan2f : float -> float -> float) (A M : vec3)
  : angles :=
  let pitch :=
    fmul (atan2f (vX A) (sqrtf (fadd (fmul (vY A) (vY A)) (fmul (vZ A) (vZ A)))))
         RAD2DEG in
  let roll :=
    fmul (atan2f (vY A) (sqrtf (fadd (fmul (vX A) (vX A)) (fmul (vZ A) (vZ A)))))
         RAD2DEG in
  let A' := normalize A in
  let M' := normalize M in
  let Mx := fsub (fmul (vX M') (vZ A')) (fmul (vZ M') (vX A')) in
  let My := fsub (fmul (vY M') (vZ A')) (fmul (vZ M') (vY A')) in
  Angles pitch roll (fmul (atan2f My Mx) RAD2DEG).

(** The radii [sqrtf(a_y^2 + a_z^2)] and [sqrtf(a_x^2 + a_z^2)] that pitch and
    roll pass to [atan2f] as second argument. *)
Definition pitch_radius (A : vec3) : float :=
  sqrtf (fadd (fmul (vY A) (vY A)) (fmul (vZ A) (vZ A))).
Definition roll_radius (A : vec3) : float :=
  sqrtf (fadd (fmul (vX A) (vX A)) (fmul (vZ A) (vZ A))).

(** The low-pass filter on each axis. *)
Definition lowpass3 (alpha : float) (v f : vec3) : vec3 :=
  V3 (lowpass alpha (vX v) (vX f)) (lowpass alpha (vY v) (vY f))
     (lowpass alpha (vZ v) (vZ f)).

(** The statics of [orientLP] as two vectors. *)
Definition orientLP_acc (s : OrientLP.state) : vec3 :=
  V3 (OrientLP.aX s) (OrientLP.aY s) (OrientLP.aZ s).
Definition orientLP_mag (s : OrientLP.state) : vec3 :=
  V3 (OrientLP.mX s) (OrientLP.mY s) (OrientLP.mZ s).

(** The filtered accelerometer and magnetometer vectors a call of [orientLP]
    works with (entered with [setup] not 0). *)
Definition orientLP_filtered (a : OrientLP.args) (s : OrientLP.state)
  : vec3 * vec3 :=
  (lowpass3 (OrientLP.alpha a) (OrientLP.a a) (orientLP_acc s),
   lowpass3 (OrientLP.alpha a) (OrientLP.m a) (orientLP_mag s)).

(** The estimates and errors a call of [orientK] works with: the statics after
    the Kalman loop. *)
Definition orientK_filtered (a : OrientK.args) (s : OrientK.state)
  : vec3 * vec3 * vec3 * vec3 :=
  kalman_loop [Axis.X; Axis.Y; Axis.Z] (OrientK.a a) (OrientK.m a)
    (OrientK.Q a) (OrientK.R a)
    (OrientK.fA s, OrientK.fM s, OrientK.eA s, OrientK.eM s).

(** The filtered accelerometer vector of a call of [inclineLP]. *)
Definition inclineLP_filtered (a : InclineLP.args) (s : InclineLP.state) : vec3 :=
  lowpass3 (InclineLP.alpha a)
    (V3 (InclineLP.x a) (InclineLP.y a) (InclineLP.z a))
    (V3 (InclineLP.aX s) (InclineLP.aY s) (InclineLP.aZ s)).

Definition vnan : vec3 := V3 S754_nan S754_nan S754_nan.

(** Inputs of the examples: the all-zero sample, and a sample along the
    diagonal. *)
Definition zeros_LP : OrientLP.args := OrientLP.Args vzero vzero (dec32 5 1).
Definition zeros_K : OrientK.args := OrientK.Args vzero vzero (dec32 1 1) f1 f1.
Definition zeros_incline : InclineLP.args :=
  InclineLP.Args f0 f0 f0 (dec32 5 1) (f32 10 0).
Definition diag_LP : OrientLP.args :=
  OrientLP.Args (V3 f1 f1 f1) (V3 f1 f0 f0) (dec32 5 1).

(** ** the Kalman filter inside motionK and orientK *)

(** What one call of [motionK] does to the estimate and the error of each
    axis: entered with [setup = 0] it initialises them and returns [0.0F];
    entered with any other [setup] it runs the scalar recursion [kalman]. *)
Definition motionK_kalman_law : Prop :=
  forall (a : MotionK.args) (s : MotionK.state),
    let s' := fst (call motionK_det a s) in
    (MotionK.setup s = 0 ->
       (MotionK.fX s', MotionK.eX s') = (MotionK.x a, MotionK.E a) /\
       (MotionK.fY s', MotionK.eY s') = (MotionK.y a, MotionK.E a) /\
       (MotionK.fZ s', MotionK.eZ s') = (MotionK.z a, MotionK.E a) /\
       snd (call motionK_det a s) = f0) /\
    (MotionK.setup s <> 0 ->
       (MotionK.fX s', MotionK.eX s') =
         kalman (MotionK.Q a) (MotionK.R a) (MotionK.x a) (MotionK.fX s, MotionK.eX s) /\
       (MotionK.fY s', MotionK.eY s') =
         kalman (MotionK.Q a) (MotionK.R a) (MotionK.y a) (MotionK.fY s, MotionK.eY s) /\
       (MotionK.fZ s', MotionK.eZ s') =
         kalman (MotionK.Q a) (MotionK.R a) (MotionK.z a) (MotionK.fZ s, MotionK.eZ s)).

(** The same for the six axes of [orientK]. Entered with [setup] not 0, the
    filtered vectors [A], [M] and errors [eA], [eM] the call works with are the
    scalar recursion on each axis; the errors are stored as they are, the
    estimates as they are during warm-up and divided by their norm after it. *)
Definition orientK_kalman_law (atan2f : float -> float -> float) : Prop :=
  forall (a : OrientK.args) (s : OrientK.state) (i : axis),
    let s' := fst (call (orientK_det atan2f) a s) in
    (OrientK.setup s = 0 ->
       get (OrientK.fA s') i = get (OrientK.a a) i /\
       get (OrientK.fM s') i = get (OrientK.m a) i /\
       get (OrientK.eA s') i = OrientK.E a /\
       get (OrientK.eM s') i = OrientK.E a /\
       snd (call (orientK_det atan2f) a s) = (1, None)) /\
    (OrientK.setup s <> 0 ->
       let '(A, M, eA, eM) := orientK_filtered a s in
       (get A i, get eA i) =
         kalman (OrientK.Q a) (OrientK.R a) (get (OrientK.a a) i)
           (get (OrientK.fA s) i, get (OrientK.eA s) i) /\
       (get M i, get eM i) =
         kalman (OrientK.Q a) (OrientK.R a) (get (OrientK.m a) i)
           (get (OrientK.fM s) i, get (OrientK.eM s) i) /\
       OrientK.eA s' = eA /\ OrientK.eM s' = eM /\
       (OrientK.setup s < CNTSETUP ->
          OrientK.fA s' = A /\ OrientK.fM s' = M) /\
       (CNTSETUP <= OrientK.setup s ->
          OrientK.fA s' = normalize A /\ OrientK.fM s' = normalize M)).

(** The ranges of the specification, in degrees: [-90, 90] for pitch and
    roll, (-180, 180] for yaw. *)
Definition tilt_in_range (p : float) : bool :=
  fle (f32 (-90) 0) p && fle p (f32 90 0).
Definition yaw_in_range (y : float) : bool :=
  flt (f32 (-180) 0) y && fle y (f32 180 0).

(** [-180, 180], both ends included. *)
Definition yaw_in_closed_range (y : float) : bool :=
  fle (f32 (-180) 0) y && fle y (f32 180 0).

(** float(pi/2) and float(pi), the binary32 numbers nearest to pi/2 and pi. *)
Definition HALF_PI : float := S754_finite false 13176795 (-23).
Definition PI_F : float := S754_finite false 13176795 (-22).

(** Not NaN and with the sign bit clear: [+0], a positive number or
    [+infinity]. *)
Definition nonneg (x : float) : bool :=
  match x with
  | S754_zero s | S754_infinity s | S754_finite s _ _ => negb s
  | S754_nan => false
  end.

(** What the ranges need of the C library's [atan2f]: on arguments that are
    not NaN the result is a binary32 number of magnitude at most float(pi),
    and at most float(pi/2) when the second argument has its sign bit clear. *)
Definition atan2f_in_range (atan2f : float -> float -> float) : Prop :=
  forall y x, is_nan y = false -> is_nan x = false ->
    valid_binary prec32 emax32 (atan2f y x) = true /\
    fle (fabsf (atan2f y x)) PI_F = true /\
    (nonneg x = true -> fle (fabsf (atan2f y x)) HALF_PI = true).

(** The projection [(Mx, My)] the yaw is taken from. *)
Definition heading_x (A M : vec3) : float :=
  let A' := normalize A in
  let M' := normalize M in
  fsub (fmul (vX M') (vZ A')) (fmul (vZ M') (vX A')).
Definition heading_y (A M : vec3) : float :=
  let A' := normalize A in
  let M' := normalize M in
  fsub (fmul (vY M') (vZ A')) (fmul (vZ M') (vY A')).

(** An arc tangent that is right on the half-axes ([+-0], [+-pi/2], [+-pi]
    as the C standard lists them) and 0 elsewhere, for the examples. *)
Definition atan2f_on_axes (y x : float) : float :=
  match y, x with
  | S754_nan, _ | _, S754_nan => S754_nan
  | S754_zero s, _ => if nonneg x then S754_zero s else S754_finite s 13176795 (-22)
  | S754_infinity s, S754_zero _ | S754_finite s _ _, S754_zero _ =>
      S754_finite s 13176795 (-23)
  | _, _ => f0
  end.

(** Nose up: gravity along X, magnetic field along Z. *)
Definition nose_up_LP : OrientLP.args :=
  OrientLP.Args (V3 f1 f0 f0) (V3 f0 f0 f1) (dec32 5 1).
(** Level, with the magnetic field along -X and [-0.0F] on Y. *)
Definition south_LP : OrientLP.args :=
  OrientLP.Args (V3 f0 f0 f1) (V3 (f32 (-1) 0) (S754_zero true) f0) (dec32 5 1).

(** The exponent of the last bit a binary32 number of the given magnitude
    keeps. *)
Definition fexp32 (z : Z) : Z := Z.max (z - 24) (-149).

(** The norm as the routines compute it. *)
Definition vnorm (v : vec3) : float := norm3 (vX v) (vY v) (vZ v).

(** The sample of the specification's example: gravity along Z, magnetic
    field along X. *)
Definition level_LP : OrientLP.args :=
  OrientLP.Args (V3 f0 f0 f1) (V3 f1 f0 f0) (dec32 5 1).
Definition level_K : OrientK.args :=
  OrientK.Args (V3 f0 f0 f1) (V3 f1 f0 f0) (dec32 1 1) f1 f1.



(** ** when a trigger detector fires *)





(** ** a spike and the return to baseline *)












Arguments fadd : simpl never.
Arguments fsub : simpl never.
Arguments fmul : simpl never.
Arguments fdiv : simpl never.
Arguments sqrtf : simpl never.
Arguments fabsf : simpl never.
Arguments flt : simpl never.
Arguments fgt : simpl never.
Arguments feq : simpl never.
Arguments fle : simpl never.
Arguments lowpass : simpl never.
Arguments norm3 : simpl never.
Arguments kalman : simpl never.
Arguments kalman_loop : simpl never.
Arguments u8 : simpl never.
Arguments normalize : simpl never.
Arguments vnorm : simpl never.
Arguments tilt_compass : simpl never.
Arguments lowpass3 : simpl never.
Arguments f0 : simpl never.
Arguments f1 : simpl never.
Arguments d1 : simpl never.
Arguments RAD2DEG : simpl never.
Arguments f2d : simpl never.
Arguments d2f : simpl never.
Arguments dsub : simpl never.
Arguments dmul : simpl never.

(** * The rest of lsm303algo.c *)

(** ** getAlpha *)

Definition ddiv : spec_float -> spec_float -> spec_float := SFdiv prec64 emax64.
Definition d2 : spec_float := binary_normalize prec64 emax64 2 0 false. (* 2.0 *)

(** The value of [M_PI] in <math.h>, 3.14159265358979323846 as a double. *)
Definition M_PI_double : spec_float := S754_finite false 7074237752028440 (-51).

(** [M_PI] comes from <math.h>, or from the file's own fallback when the
    header has none; either way it is promoted to double in [2.0 * M_PI]. It
    is a parameter here. The first two lines are computed in double and rounded
    on assignment to the float constants [rc] and [dt]. *)
Definition getAlpha (M_PI : spec_float) (rate cutoff : float) : float :=
  let rc := d2f (ddiv d1 (dmul (dmul d2 M_PI) (f2d cutoff))) in
  let dt := d2f (ddiv d1 (f2d rate)) in
  fdiv dt (fadd rc dt).

(** ** samples that are not numbers *)

Definition has_nan (v : vec3) : bool :=
  is_nan (vX v) || is_nan (vY v) || is_nan (vZ v).

Definition motionLP_sample (a : MotionLP.args) : vec3 :=
  V3 (MotionLP.x a) (MotionLP.y a) (MotionLP.z a).
Definition motionK_sample (a : MotionK.args) : vec3 :=
  V3 (MotionK.x a) (MotionK.y a) (MotionK.z a).
Definition distortionHP_sample (a : DistortionHP.args) : vec3 :=
  V3 (DistortionHP.x a) (DistortionHP.y a) (DistortionHP.z a).
Definition distortionLP_sample (a : DistortionLP.args) : vec3 :=
  V3 (DistortionLP.x a) (DistortionLP.y a) (DistortionLP.z a).

(** From the call that gets [a] on (the call number [length l1 + 1]), a
    trigger detector never returns anything but [0.0F]. *)
Definition silenced_by (D : detector float) (bad : arg D -> bool) : Prop :=
  forall (l1 l2 : list (arg D)) (a : arg D),
    bad a = true ->
    Forall (fun o => o = f0) (skipn (length l1) (outputs D (l1 ++ a :: l2))).

(** Some filtered component held in the statics is NaN. *)
Definition orientLP_poisoned (s : OrientLP.state) : bool :=
  has_nan (orientLP_acc s) || has_nan (orientLP_mag s).
Definition orientK_poisoned (s : OrientK.state) : bool :=
  has_nan (OrientK.fA s) || has_nan (OrientK.fM s).

(** What a ready call writes to [*yaw] once a filtered component is NaN. *)
Definition yaw_of_nan (atan2f : float -> float -> float) : float :=
  fmul (atan2f S754_nan S754_nan) RAD2DEG.

(** An output of an orientation estimator that has got a NaN sample: not
    ready, or ready with yaw computed from NaN. *)
Definition yaw_lost (atan2f : float -> float -> float)
  (o : Z * option angles) : Prop :=
  o = (1, None) \/ exists ang, o = (0, Some ang) /\ yaw ang = yaw_of_nan atan2f.

Definition orient_poisoned_by (atan2f : float -> float -> float)
  (D : detector (Z * option angles)) (bad : arg D -> bool) : Prop :=
  forall (l1 l2 : list (arg D)) (a : arg D),
    bad a = true ->
    Forall (yaw_lost atan2f) (skipn (length l1) (outputs D (l1 ++ a :: l2))).

(** The states from which a trigger detector cannot fire any more: the
    counter is not 0 and a filtered component is NaN. *)
Definition motionLP_dead (s : MotionLP.state) : Prop :=
  1 <= MotionLP.setup s <= CNTSETUP /\
  has_nan (V3 (MotionLP.fX s) (MotionLP.fY s) (MotionLP.fZ s)) = true.
Definition motionK_dead (s : MotionK.state) : Prop :=
  1 <= MotionK.setup s <= CNTSETUP /\
  has_nan (V3 (MotionK.fX s) (MotionK.fY s) (MotionK.fZ s)) = true.
Definition distortionLP_dead (s : DistortionLP.state) : Prop :=
  1 <= DistortionLP.setup s <= CNTSETUP /\
  has_nan (V3 (DistortionLP.aX s) (DistortionLP.aY s) (DistortionLP.aZ s)) = true.
Definition distortionHP_dead (s : DistortionHP.state) : Prop :=
  0 <= DistortionHP.setup s <= CNTSETUP /\
  has_nan (V3 (DistortionHP.oX s) (DistortionHP.oY s) (DistortionHP.oZ s)) = true.

(** The states from which an orientation estimator cannot give a yaw any
    more, and the samples that lead there. *)
Definition orientLP_dead (s : OrientLP.state) : Prop :=
  1 <= OrientLP.setup s <= CNTSETUP /\ orientLP_poisoned s = true.
Definition orientK_dead (s : OrientK.state) : Prop :=
  1 <= OrientK.setup s <= CNTSETUP /\ orientK_poisoned s = true.
Definition orientLP_bad (a : OrientLP.args) : bool :=
  has_nan (OrientLP.a a) || has_nan (OrientLP.m a).
Definition orientK_bad (a : OrientK.args) : bool :=
  has_nan (OrientK.a a) || has_nan (OrientK.m a).

Definition inclineLP_sample (a : InclineLP.args) : vec3 :=
  V3 (InclineLP.x a) (InclineLP.y a) (InclineLP.z a).
Definition inclineLP_dead (s : InclineLP.state) : Prop :=
  1 <= InclineLP.setup s <= CNTSETUP /\
  has_nan (V3 (InclineLP.aX s) (InclineLP.aY s) (InclineLP.aZ s)) = true.

(** ** the fall detector over a sequence of calls *)

Fixpoint fall_run (l : list DetectFall.args) (s : DetectFall.state)
  : list stage_t :=
  match l with
  | [] => []
  | a :: l =>
      let '(s1, r) := detectFall (DetectFall.x a) (DetectFall.y a) (DetectFall.z a)
                        (DetectFall.wThs a) (DetectFall.iThs a) s in
      r :: fall_run l s1
  end.

(** ** what a trigger detector returns *)

(** Every returned value is [0.0F] or greater than the threshold [thr] of the
    call. *)
Definition reports_above (D : detector float) (thr : arg D -> float) : Prop :=
  forall a s, snd (call D a s) = f0 \/ fgt (snd (call D a s)) (thr a) = true.

(** ** the order of the stages of the fall detector *)

(** The stages that can follow a stage from one call to the next: the stage
    itself, and the next one on the cycle Init, Weightlessness, Fall. *)
Definition stage_follows (p q : stage_t) : bool :=
  match p, q with
  | STAGE_INIT, STAGE_FALL => false
  | STAGE_WEIGHLESSNESS, STAGE_INIT => false
  | STAGE_FALL, STAGE_WEIGHLESSNESS => false
  | _, _ => true
  end.

Fixpoint stage_chain (p : stage_t) (l : list stage_t) : bool :=
  match l with
  | [] => true
  | q :: l => stage_follows p q && stage_chain q l
  end.

(** The stage returned by a call with both thresholds zero. *)
Definition reset_call_stage (M : float) (st : stage_t) : stage_t :=
  match st with
  | STAGE_INIT => STAGE_INIT
  | STAGE_WEIGHLESSNESS => if fgt M f0 then STAGE_FALL else STAGE_WEIGHLESSNESS
  | STAGE_FALL => STAGE_INIT
  end.

(** Inputs of the examples: a sample whose X reading is NaN. *)
Definition nan_LP : MotionLP.args :=
  MotionLP.Args S754_nan f0 f0 (dec32 5 1) (dec32 1 1) 0.
Definition nan_orientLP : OrientLP.args :=
  OrientLP.Args (V3 S754_nan f0 f1) (V3 f1 f0 f0) (dec32 5 1).

Definition nan_orientK : OrientK.args :=
  OrientK.Args (V3 f0 f0 f1) (V3 f1 S754_nan f0) (dec32 1 1) f1 f1.
Definition level_incline : InclineLP.args :=
  InclineLP.Args f0 f0 f1 (dec32 5 1) (f32 10 0).
Definition nan_incline : InclineLP.args :=
  InclineLP.Args f0 S754_nan f1 (dec32 5 1) (f32 10 0).
(** An arc cosine that only tells numbers from NaN, for the examples. *)
Definition acosf_of_nan (x : float) : float :=
  if is_nan x then S754_nan else f0.

Arguments ddiv : simpl never.
Arguments d2 : simpl never.
Arguments getAlpha : simpl never.

(** * The sensor driver (lsm303dlhc.c)

    - The file-scope variables [lsm303_buf], [lsm303_ashift], [lsm303_alsb],
      [lsm303_mlsb_xy] and [lsm303_mlsb_z] are a record that every routine
      takes and returns.
    - [HAL_I2C_Master_Transmit] and [HAL_I2C_Mem_Read] come from the STM32
      HAL, not from this repository: they are the operations of a class, over
      a state of the bus that the driver cannot see. What a read stores in the
      buffer is what the bus hands back, cut to the size asked for and to
      [uint8_t]. Every call of the HAL is appended to a trace.
    - A [uint8_t] return value is the [HAL_StatusTypeDef] it was given. A
      routine that returns before its last line leaves its out-parameters
      alone: it has no value in the model.
    - Bit-fields are laid out from the least significant bit, in the order of
      their declaration (GCC on little-endian ARM).
    - [uint8_t] arguments are [Z]; the enumerations are inductive types with
      their values. *)

Inductive HAL_StatusTypeDef := HAL_OK | HAL_ERROR | HAL_BUSY | HAL_TIMEOUT.

Definition LSM303_LA_SAD : Z := 50.          (* 0b00110010 *)
Definition LSM303_MF_SAD : Z := 60.          (* 0b00111100 *)

Definition LSM303_CTRL_REG1_A : Z := 32.     (* 0x20 *)
Definition LSM303_CTRL_REG3_A : Z := 34.     (* 0x22 *)
Definition LSM303_CTRL_REG4_A : Z := 35.     (* 0x23 *)
Definition LSM303_STATUS_REG_A : Z := 39.    (* 0x27 *)
Definition LSM303_OUT_X_L_A : Z := 40.       (* 0x28 *)
Definition LSM303_INT1_CFG_A : Z := 48.      (* 0x30 *)
Definition LSM303_INT1_THS_A : Z := 50.      (* 0x32 *)
Definition LSM303_INT1_DURATION_A : Z := 51. (* 0x33 *)
Definition LSM303_CRA_REG_M : Z := 0.
Definition LSM303_CRB_REG_M : Z := 1.
Definition LSM303_MR_REG_M : Z := 2.
Definition LSM303_OUT_X_H_M : Z := 3.
Definition LSM303_SR_REG_M : Z := 9.

Inductive lsm303_la_datarate_t :=
| LSM303_ADATARATE_DOWN | LSM303_ADATARATE_1 | LSM303_ADATARATE_10
| LSM303_ADATARATE_25 | LSM303_ADATARATE_50 | LSM303_ADATARATE_100
| LSM303_ADATARATE_200 | LSM303_ADATARATE_400 | LSM303_ADATARATE_LOW
| LSM303_ADATARATE_SPEC.

Definition la_datarate_value (odr : lsm303_la_datarate_t) : Z :=
  match odr with
  | LSM303_ADATARATE_DOWN => 0 | LSM303_ADATARATE_1 => 1
  | LSM303_ADATARATE_10 => 2 | LSM303_ADATARATE_25 => 3
  | LSM303_ADATARATE_50 => 4 | LSM303_ADATARATE_100 => 5
  | LSM303_ADATARATE_200 => 6 | LSM303_ADATARATE_400 => 7
  | LSM303_ADATARATE_LOW => 8 | LSM303_ADATARATE_SPEC => 9
  end.

Inductive lsm303_la_fs_t :=
| LSM303_AFS_2G | LSM303_AFS_4G | LSM303_AFS_8G | LSM303_AFS_16G.

Definition la_fs_value (fs : lsm303_la_fs_t) : Z :=
  match fs with
  | LSM303_AFS_2G => 0 | LSM303_AFS_4G => 1
  | LSM303_AFS_8G => 2 | LSM303_AFS_16G => 3
  end.

Inductive lsm303_mf_do_t :=
| LSM303_MDATARATE_0_75 | LSM303_MDATARATE_1_5 | LSM303_MDATARATE_3_0
| LSM303_MDATARATE_7_5 | LSM303_MDATARATE_15 | LSM303_MDATARATE_30
| LSM303_MDATARATE_75 | LSM303_MDATARATE_220.

Definition mf_do_value (odr : lsm303_mf_do_t) : Z :=
  match odr with
  | LSM303_MDATARATE_0_75 => 0 | LSM303_MDATARATE_1_5 => 1
  | LSM303_MDATARATE_3_0 => 2 | LSM303_MDATARATE_7_5 => 3
  | LSM303_MDATARATE_15 => 4 | LSM303_MDATARATE_30 => 5
  | LSM303_MDATARATE_75 => 6 | LSM303_MDATARATE_220 => 7
  end.

Inductive lsm303_mf_gain_t :=
| LSM303_MGAIN_1_3 | LSM303_MGAIN_1_9 | LSM303_MGAIN_2_5 | LSM303_MGAIN_4_0
| LSM303_MGAIN_4_7 | LSM303_MGAIN_5_6 | LSM303_MGAIN_8_1.

Definition mf_gain_value (gn : lsm303_mf_gain_t) : Z :=
  match gn with
  | LSM303_MGAIN_1_3 => 1 | LSM303_MGAIN_1_9 => 2 | LSM303_MGAIN_2_5 => 3
  | LSM303_MGAIN_4_0 => 4 | LSM303_MGAIN_4_7 => 5 | LSM303_MGAIN_5_6 => 6
  | LSM303_MGAIN_8_1 => 7
  end.

Inductive lsm303_mf_md_t :=
| LSM303_MMODE_CONTINUOUS | LSM303_MMODE_SINGLE
| LSM303_MMODE_SLEEP0 | LSM303_MMODE_SLEEP1.

Definition mf_md_value (md : lsm303_mf_md_t) : Z :=
  match md with
  | LSM303_MMODE_CONTINUOUS => 0 | LSM303_MMODE_SINGLE => 1
  | LSM303_MMODE_SLEEP0 => 2 | LSM303_MMODE_SLEEP1 => 3
  end.

(** ** register unions *)

(** The byte [reg] of a union whose other member is a packed struct of
    bit-fields: the fields, each with its width, from the first declared. A
    value stored in a field is cut to the width of the field. *)
Fixpoint pack (fields : list (Z * Z)) : Z :=
  match fields with
  | [] => 0
  | (v, w) :: fields =>
      Z.lor (Z.land v (Z.ones w)) (Z.shiftl (pack fields) w)
  end.

Definition lsm303_reg_ctrl_a1_t (x y z lowPower dataRate : Z) : Z :=
  pack [(x, 1); (y, 1); (z, 1); (lowPower, 1); (dataRate, 4)].

Definition lsm303_reg_ctrl_a3_t
  (reserverd overrun wtm drdy2 drdy1 aoi2 aoi1 click : Z) : Z :=
  pack [(reserverd, 1); (overrun, 1); (wtm, 1); (drdy2, 1); (drdy1, 1);
        (aoi2, 1); (aoi1, 1); (click, 1)].

Definition lsm303_reg_ctrl_a4_t (sim reserved hr fs ble bdu : Z) : Z :=
  pack [(sim, 1); (reserved, 2); (hr, 1); (fs, 2); (ble, 1); (bdu, 1)].

Definition lsm303_reg_cra_t (reserved0 dataRate reserved1 temperature : Z) : Z :=
  pack [(reserved0, 2); (dataRate, 3); (reserved1, 2); (temperature, 1)].

Definition lsm303_reg_crb_t (reserverd gain : Z) : Z :=
  pack [(reserverd, 5); (gain, 3)].

Definition lsm303_reg_mr_t (mode reserverd : Z) : Z :=
  pack [(mode, 2); (reserverd, 6)].

(** ** integers and literals of the driver *)

(** The conversion to [int16_t]. *)
Definition s16 (v : Z) : Z :=
  let w := v mod 65536 in if w <? 32768 then w else w - 65536.

(** The conversion [(float)] of an integer. *)
Definition float_of_int (v : Z) : float := f32 v 0.

(** The decimal literal [n / 10^k] without suffix, a [double]. *)
Definition dec64 (n k : Z) : spec_float :=
  SFdiv prec64 emax64 (binary_normalize prec64 emax64 n 0 false)
                      (binary_normalize prec64 emax64 (10 ^ k) 0 false).

(** ** the variables of the driver *)

Record lsm303 := Statics {
  lsm303_buf : list Z;
  lsm303_ashift : Z;
  lsm303_alsb : float;
  lsm303_mlsb_xy : float;
  lsm303_mlsb_z : float }.

Definition lsm303_init : lsm303 := Statics [0; 0; 0; 0; 0; 0] 0 f0 f0 f0.

(** ** the HAL *)

Class HAL := {
  I2C_HandleTypeDef : Type;
  bus : Type;
  HAL_I2C_Master_Transmit :
    I2C_HandleTypeDef -> Z -> list Z -> bus -> HAL_StatusTypeDef * bus;
  HAL_I2C_Mem_Read :
    I2C_HandleTypeDef -> Z -> Z -> nat -> bus -> HAL_StatusTypeDef * list Z * bus }.

(** A call of the HAL: a write of [data] to the device [addr], or a read of
    [size] bytes from register [reg] of the device [addr]. *)
Inductive event :=
| Transmit (addr : Z) (data : list Z)
| MemRead (addr reg : Z) (size : nat).

Record world `{HAL} := World {
  statics : lsm303;
  hw : bus;
  trace : list event }.

(** What a routine has done when it stops: reached its last line with the
    values of its out-parameters, or returned early with a status. *)
Inductive outcome (A : Type) :=
| Done (a : A)
| Return (ret : HAL_StatusTypeDef).
Arguments Done {A} a.
Arguments Return {A} ret.

(** The [uint8_t] a routine returns. *)
Definition status {A} (r : outcome A) : HAL_StatusTypeDef :=
  match r with Done _ => HAL_OK | Return ret => ret end.

(** The values written through the out-parameters, if any. *)
Definition written {A} (r : outcome A) : option A :=
  match r with Done a => Some a | Return _ => None end.

Definition drv `{HAL} (A : Type) : Type := world -> outcome A * world.

Definition ret `{HAL} {A} (a : A) : drv A := fun w => (Done a, w).

Definition early `{HAL} {A} (st : HAL_StatusTypeDef) : drv A :=
  fun w => (Return st, w).

Definition bind `{HAL} {A B} (m : drv A) (k : A -> drv B) : drv B :=
  fun w =>
    match m w with
    | (Done a, w) => k a w
    | (Return st, w) => (Return st, w)
    end.

Declare Scope drv_scope.
Delimit Scope drv_scope with drv.
Notation "x <- m ;; k" := (bind m (fun x => k))
  (at level 61, m at next level, right associativity) : drv_scope.
Notation "m ;; k" := (bind m (fun _ => k))
  (at level 61, right associativity) : drv_scope.

(** [ret = HAL_I2C_Master_Transmit(i2c, addr, &data[0], sizeof(data),
    HAL_MAX_DELAY); if (ret != HAL_OK) return ret;] *)
Definition transmit `{HAL} (i2c : I2C_HandleTypeDef) (addr : Z) (data : list Z)
  : drv unit :=
  fun w =>
    let '(st, b) := HAL_I2C_Master_Transmit i2c addr data (hw w) in
    let w := World _ (statics w) b (trace w ++ [Transmit addr data]) in
    match st with
    | HAL_OK => (Done tt, w)
    | _ => (Return st, w)
    end.

(** The buffer after [data] has been stored from [&lsm303_buf[0]] on. *)
Definition store (data buf : list Z) : list Z :=
  map u8 data ++ skipn (length data) buf.

(** [ret = HAL_I2C_Mem_Read(i2c, addr, reg, I2C_MEMADD_SIZE_8BIT,
    &lsm303_buf[0], size, HAL_MAX_DELAY); if (ret != HAL_OK) return ret;] *)
Definition mem_read `{HAL} (i2c : I2C_HandleTypeDef) (addr reg : Z) (size : nat)
  : drv unit :=
  fun w =>
    let '(st, data, b) := HAL_I2C_Mem_Read i2c addr reg size (hw w) in
    let s := statics w in
    let s := Statics (store (firstn size data) (lsm303_buf s)) (lsm303_ashift s)
               (lsm303_alsb s) (lsm303_mlsb_xy s) (lsm303_mlsb_z s) in
    let w := World _ s b (trace w ++ [MemRead addr reg size]) in
    match st with
    | HAL_OK => (Done tt, w)
    | _ => (Return st, w)
    end.

Definition get_statics `{HAL} : drv lsm303 := fun w => (Done (statics w), w).

Definition set_statics `{HAL} (s : lsm303) : drv unit :=
  fun w => (Done tt, World _ s (hw w) (trace w)).

Definition null_check `{HAL} {A} (i2c : option I2C_HandleTypeDef)
  (body : I2C_HandleTypeDef -> drv A) : drv A :=
  match i2c with
  | None => early HAL_ERROR
  | Some i2c => body i2c
  end.

Open Scope drv_scope.

(** ** accelerometer *)

Definition lsm303_la_setup `{HAL} (i2c : option I2C_HandleTypeDef)
  (odr : lsm303_la_datarate_t) (lpe hr : Z) (fs : lsm303_la_fs_t) : drv unit :=
  null_check i2c (fun i2c =>
    let a1 := lsm303_reg_ctrl_a1_t 1 1 1 (if lpe =? 0 then 0 else 1)
                (la_datarate_value odr) in
    let a4 := lsm303_reg_ctrl_a4_t 0 0 (if hr =? 0 then 0 else 1)
                (la_fs_value fs) 0 0 in
    transmit i2c LSM303_LA_SAD [LSM303_CTRL_REG1_A; a1] ;;
    transmit i2c LSM303_LA_SAD [LSM303_CTRL_REG4_A; a4] ;;
    s <- get_statics ;;
    let ashift := if hr =? 0 then (if lpe =? 0 then 6 else 8) else 4 in
    let alsb :=
      if hr =? 0 then
        match fs with
        | LSM303_AFS_2G => d2f (if lpe =? 0 then dec64 39 4 else dec64 1563 5)
        | LSM303_AFS_4G => d2f (if lpe =? 0 then dec64 782 5 else dec64 3126 5)
        | LSM303_AFS_8G => d2f (if lpe =? 0 then dec64 1563 5 else dec64 6252 5)
        | LSM303_AFS_16G => d2f (if lpe =? 0 then dec64 469 4 else dec64 18758 5)
        end
      else
        match fs with
        | LSM303_AFS_2G => d2f (dec64 98 5)
        | LSM303_AFS_4G => d2f (dec64 195 5)
        | LSM303_AFS_8G => d2f (dec64 39 4)
        | LSM303_AFS_16G => d2f (dec64 1172 5)
        end in
    set_statics (Statics (lsm303_buf s) ashift alsb
                   (lsm303_mlsb_xy s) (lsm303_mlsb_z s))).

Definition lsm303_la_int1 `{HAL} (i2c : option I2C_HandleTypeDef)
  (cfg threshould duration : Z) : drv unit :=
  null_check i2c (fun i2c =>
    let '(threshould, duration, aoi1) :=
      if cfg =? 0 then (0, 0, 0)
      else (if threshould >? 127 then 127 else threshould,
            if duration >? 127 then 127 else duration, 1) in
    let r := lsm303_reg_ctrl_a3_t 0 0 0 0 0 0 aoi1 0 in
    transmit i2c LSM303_LA_SAD [LSM303_INT1_CFG_A; cfg] ;;
    transmit i2c LSM303_LA_SAD [LSM303_INT1_THS_A; threshould] ;;
    transmit i2c LSM303_LA_SAD [LSM303_INT1_DURATION_A; duration] ;;
    transmit i2c LSM303_LA_SAD [LSM303_CTRL_REG3_A; r] ;;
    ret tt).

(** [(int16_t)(lsm303_buf[hi] << 8 | lsm303_buf[lo])] *)
Definition word16 (buf : list Z) (hi lo : nat) : Z :=
  s16 (Z.lor (Z.shiftl (nth hi buf 0) 8) (nth lo buf 0)).

Definition lsm303_la_raw `{HAL} (i2c : option I2C_HandleTypeDef)
  : drv (Z * Z * Z) :=
  null_check i2c (fun i2c =>
    mem_read i2c LSM303_LA_SAD LSM303_STATUS_REG_A 1 ;;
    s <- get_statics ;;
    if Z.land (Z.shiftr (nth 0%nat (lsm303_buf s) 0) 3) 1 =? 0 then early HAL_BUSY
    else
    mem_read i2c LSM303_LA_SAD (Z.lor LSM303_OUT_X_L_A 128) 6 ;;
    s <- get_statics ;;
    let buf := lsm303_buf s in
    ret (s16 (Z.shiftr (word16 buf 1 0) (lsm303_ashift s)),
         s16 (Z.shiftr (word16 buf 3 2) (lsm303_ashift s)),
         s16 (Z.shiftr (word16 buf 5 4) (lsm303_ashift s)))).

Definition lsm303_la_read `{HAL} (i2c : option I2C_HandleTypeDef)
  : drv (float * float * float) :=
  null_check i2c (fun i2c =>
    mem_read i2c LSM303_LA_SAD LSM303_STATUS_REG_A 1 ;;
    s <- get_statics ;;
    if Z.land (Z.shiftr (nth 0%nat (lsm303_buf s) 0) 3) 1 =? 0 then early HAL_BUSY
    else
    mem_read i2c LSM303_LA_SAD (Z.lor LSM303_OUT_X_L_A 128) 6 ;;
    s <- get_statics ;;
    let buf := lsm303_buf s in
    ret (fmul (float_of_int (Z.shiftr (word16 buf 1 0) (lsm303_ashift s)))
              (lsm303_alsb s),
         fmul (float_of_int (Z.shiftr (word16 buf 3 2) (lsm303_ashift s)))
              (lsm303_alsb s),
         fmul (float_of_int (Z.shiftr (word16 buf 5 4) (lsm303_ashift s)))
              (lsm303_alsb s))).

(** ** magnetometer *)

Definition lsm303_mf_setup `{HAL} (i2c : option I2C_HandleTypeDef)
  (ten : Z) (odr : lsm303_mf_do_t) (gn : lsm303_mf_gain_t)
  (md : lsm303_mf_md_t) : drv unit :=
  null_check i2c (fun i2c =>
    let a := lsm303_reg_cra_t 0 (mf_do_value odr) 0 (if ten =? 0 then 0 else 1) in
    let b := lsm303_reg_crb_t 0 (mf_gain_value gn) in
    let r := lsm303_reg_mr_t (mf_md_value md) 0 in
    transmit i2c LSM303_MF_SAD [LSM303_CRA_REG_M; a] ;;
    transmit i2c LSM303_MF_SAD [LSM303_CRB_REG_M; b] ;;
    transmit i2c LSM303_MF_SAD [LSM303_MR_REG_M; r] ;;
    s <- get_statics ;;
    let '(xy, z) :=
      match gn with
      | LSM303_MGAIN_1_3 => (f32 1100 0, f32 980 0)
      | LSM303_MGAIN_1_9 => (f32 855 0, f32 760 0)
      | LSM303_MGAIN_2_5 => (f32 670 0, f32 600 0)
      | LSM303_MGAIN_4_0 => (f32 450 0, f32 400 0)
      | LSM303_MGAIN_4_7 => (f32 400 0, f32 355 0)
      | LSM303_MGAIN_5_6 => (f32 330 0, f32 295 0)
      | LSM303_MGAIN_8_1 => (f32 230 0, f32 205 0)
      end in
    set_statics (Statics (lsm303_buf s) (lsm303_ashift s) (lsm303_alsb s) xy z)).

Definition lsm303_mf_raw `{HAL} (i2c : option I2C_HandleTypeDef)
  : drv (Z * Z * Z) :=
  null_check i2c (fun i2c =>
    mem_read i2c LSM303_MF_SAD LSM303_SR_REG_M 1 ;;
    s <- get_statics ;;
    if Z.land (nth 0%nat (lsm303_buf s) 0) 1 =? 0 then early HAL_BUSY
    else
    mem_read i2c LSM303_MF_SAD LSM303_OUT_X_H_M 6 ;;
    s <- get_statics ;;
    let buf := lsm303_buf s in
    ret (word16 buf 0 1, word16 buf 4 5, word16 buf 2 3)).

Definition lsm303_mf_read `{HAL} (i2c : option I2C_HandleTypeDef)
  : drv (float * float * float) :=
  null_check i2c (fun i2c =>
    mem_read i2c LSM303_MF_SAD LSM303_SR_REG_M 1 ;;
    s <- get_statics ;;
    if Z.land (nth 0%nat (lsm303_buf s) 0) 1 =? 0 then early HAL_BUSY
    else
    mem_read i2c LSM303_MF_SAD LSM303_OUT_X_H_M 6 ;;
    s <- get_statics ;;
    let buf := lsm303_buf s in
    ret (fmul (fdiv (float_of_int (word16 buf 0 1)) (lsm303_mlsb_xy s)) (f32 100 0),
         fmul (fdiv (float_of_int (word16 buf 4 5)) (lsm303_mlsb_xy s)) (f32 100 0),
         fmul (fdiv (float_of_int (word16 buf 2 3)) (lsm303_mlsb_z s)) (f32 100 0))).

Close Scope drv_scope.

(** ** what a routine puts on the bus *)






(** ** what the device puts in its output registers *)

(** A 16-bit word as two bytes, low byte first and high byte first. *)
Definition le16 (v : Z) : list Z := [(v mod 65536) mod 256; (v mod 65536) / 256].
Definition be16 (v : Z) : list Z := [(v mod 65536) / 256; (v mod 65536) mod 256].

(** [OUT_X_L_A] to [OUT_Z_H_A] for the sample [(x, y, z)]: each value
    left-justified in its word, that is shifted left by [ashift], low byte
    first. *)
Definition la_registers (ashift x y z : Z) : list Z :=
  le16 (Z.shiftl x ashift) ++ le16 (Z.shiftl y ashift) ++ le16 (Z.shiftl z ashift).

(** [OUT_X_H_M] to [OUT_Y_L_M] for the sample [(x, y, z)]: high byte first,
    in the order X, Z, Y of the registers. *)
Definition mf_registers (x y z : Z) : list Z := be16 x ++ be16 z ++ be16 y.

(** The values of a signed field of [bits] bits. *)
Definition signed_range (bits v : Z) : Prop := - 2 ^ (bits - 1) <= v < 2 ^ (bits - 1).

Definition all3 {A} (P : A -> Prop) (v : A * A * A) : Prop :=
  let '(x, y, z) := v in P x /\ P y /\ P z.

(** ** what a read leaves alone *)

(** Two values of the variables of the driver with the same scales. *)
Definition same_scale (s s' : lsm303) : Prop :=
  lsm303_ashift s = lsm303_ashift s' /\
  lsm303_alsb s = lsm303_alsb s' /\
  lsm303_mlsb_xy s = lsm303_mlsb_xy s' /\
  lsm303_mlsb_z s = lsm303_mlsb_z s'.

(** The routine [m] makes the calls [frames] of the HAL, in this order, and
    stops at the first one that fails or after the first one when the data
    is not ready; it returns [HAL_OK] only after all of them, and it never
    changes the scales. *)
Definition reads `{HAL} {A} (m : drv A) (frames : list event) : Prop :=
  forall w : world,
    exists n : nat,
      (n <= length frames)%nat /\
      trace (snd (m w)) = trace w ++ firstn n frames /\
      (status (fst (m w)) = HAL_OK -> n = length frames) /\
      same_scale (statics (snd (m w))) (statics w).

Definition la_read_frames : list event := [MemRead 50 39 1; MemRead 50 168 6].
Definition mf_read_frames : list event := [MemRead 60 9 1; MemRead 60 3 6].

(** The same function on the three values of a sample. *)
Definition map3 {A B} (f : A -> B) (v : A * A * A) : B * B * B :=
  let '(x, y, z) := v in (f x, f y, f z).

(** A raw accelerometer value in g, a raw magnetometer value in microtesla. *)
Definition la_scaled (s : lsm303) (v : Z) : float :=
  fmul (float_of_int v) (lsm303_alsb s).
Definition mf_scaled (mlsb : float) (v : Z) : float :=
  fmul (fdiv (float_of_int v) mlsb) (f32 100 0).

(** ** resolution and full scale of the accelerometer *)

(** The integers [lo], [lo + 1], ... ([n] of them). *)
Fixpoint ints (lo : Z) (n : nat) : list Z :=
  match n with
  | O => []
  | S n => lo :: ints (lo + 1) n
  end.

(** Every raw value of [bits] bits, multiplied by [alsb], is at most [bound]
    in absolute value. *)
Definition within (alsb bound : float) (bits : Z) : bool :=
  forallb (fun v => fle (fabsf (fmul (float_of_int v) alsb)) bound)
          (ints (- 2 ^ (bits - 1)) (Z.to_nat (2 ^ bits))).

(** The width of a sample in the three modes: 12 bits in high resolution, 8
    in low power, 10 otherwise. *)
Definition la_bits (lpe hr : Z) : Z :=
  if hr =? 0 then (if lpe =? 0 then 10 else 8) else 12.

(** A bound in g on the readings at each full-scale selection: 2.01, 4.01,
    8.01 and 24.02. *)
Definition la_full_scale (fs : lsm303_la_fs_t) : float :=
  match fs with
  | LSM303_AFS_2G => dec32 201 2
  | LSM303_AFS_4G => dec32 401 2
  | LSM303_AFS_8G => dec32 801 2
  | LSM303_AFS_16G => dec32 2402 2
  end.

(** ** sequences of calls of the driver *)

(** A call of one of the routines of the driver, with its arguments. *)
Inductive api_call `{HAL} :=
| Call_la_setup (i2c : option I2C_HandleTypeDef) (odr : lsm303_la_datarate_t)
    (lpe hr : Z) (fs : lsm303_la_fs_t)
| Call_la_int1 (i2c : option I2C_HandleTypeDef) (cfg threshould duration : Z)
| Call_la_raw (i2c : option I2C_HandleTypeDef)
| Call_la_read (i2c : option I2C_HandleTypeDef)
| Call_mf_setup (i2c : option I2C_HandleTypeDef) (ten : Z) (odr : lsm303_mf_do_t)
    (gn : lsm303_mf_gain_t) (md : lsm303_mf_md_t)
| Call_mf_raw (i2c : option I2C_HandleTypeDef)
| Call_mf_read (i2c : option I2C_HandleTypeDef).

Definition api_step `{HAL} (c : api_call) (w : world) : world :=
  match c with
  | Call_la_setup i2c odr lpe hr fs => snd (lsm303_la_setup i2c odr lpe hr fs w)
  | Call_la_int1 i2c cfg threshould duration =>
      snd (lsm303_la_int1 i2c cfg threshould duration w)
  | Call_la_raw i2c => snd (lsm303_la_raw i2c w)
  | Call_la_read i2c => snd (lsm303_la_read i2c w)
  | Call_mf_setup i2c ten odr gn md => snd (lsm303_mf_setup i2c ten odr gn md w)
  | Call_mf_raw i2c => snd (lsm303_mf_raw i2c w)
  | Call_mf_read i2c => snd (lsm303_mf_read i2c w)
  end.

Definition api_run `{HAL} (l : list api_call) (w : world) : world :=
  fold_left (fun w c => api_step c w) l w.

(** The buffer holds six bytes. *)
Definition buffer_ok (s : lsm303) : Prop :=
  length (lsm303_buf s) = 6%nat /\
  Forall (fun b => 0 <= b <= 255) (lsm303_buf s).

(** The accelerometer scale is the one of start-up, or a shift of 4, 6 or 8
    with a sensitivity that is finite and greater than zero. *)
Definition scale_ok (s : lsm303) : Prop :=
  (lsm303_ashift s = 0 /\ lsm303_alsb s = f0) \/
  (In (lsm303_ashift s) [4; 6; 8] /\
   flt f0 (lsm303_alsb s) = true /\ is_finite (lsm303_alsb s) = true).

(** The magnetometer gains are those of start-up, or both finite and greater
    than zero. *)
Definition gain_ok (s : lsm303) : Prop :=
  (lsm303_mlsb_xy s = f0 /\ lsm303_mlsb_z s = f0) \/
  (flt f0 (lsm303_mlsb_xy s) = true /\ is_finite (lsm303_mlsb_xy s) = true /\
   flt f0 (lsm303_mlsb_z s) = true /\ is_finite (lsm303_mlsb_z s) = true).

Definition statics_ok (s : lsm303) : Prop :=
  buffer_ok s /\ scale_ok s /\ gain_ok s.

(** ** a bus that follows a script *)

(** A bus for the examples: each call of the HAL takes the next answer of a
    list, a status and the bytes read; when the list is used up the call
    times out. *)
Definition script : Type := list (HAL_StatusTypeDef * list Z).

#[export] Instance scripted_HAL : HAL := {|
  I2C_HandleTypeDef := unit;
  bus := script;
  HAL_I2C_Master_Transmit := fun _ _ _ b =>
    match b with
    | [] => (HAL_TIMEOUT, [])
    | (st, _) :: b => (st, b)
    end;
  HAL_I2C_Mem_Read := fun _ _ _ _ b =>
    match b with
    | [] => (HAL_TIMEOUT, [], [])
    | (st, data) :: b => (st, data, b)
    end |}.

Definition power_on (answers : script) : @world scripted_HAL :=
  World scripted_HAL lsm303_init answers [].

(** * Results *)

Lemma u8_small (n : Z) : 0 <= n < 256 -> u8 n = n.
Proof. intros H. unfold u8. now apply Z.mod_small. Qed.

(** ** running a machine *)

Lemma run_cons {Out} (D : detector Out) a l s :
  run D (a :: l) s =
  (fst (run D l (fst (call D a s))), snd (call D a s) :: snd (run D l (fst (call D a s)))).
Proof.
  simpl. destruct (call D a s) as [s1 o]. simpl.
  destruct (run D l s1) as [s2 os]. reflexivity.
Qed.

Lemma run_app {Out} (D : detector Out) l1 l2 s :
  run D (l1 ++ l2) s =
  (fst (run D l2 (fst (run D l1 s))), snd (run D l1 s) ++ snd (run D l2 (fst (run D l1 s)))).
Proof.
  revert s. induction l1 as [|a l1 IH]; intros s.
  - simpl. now destruct (run D l2 s).
  - rewrite <- app_comm_cons, !run_cons, IH. reflexivity.
Qed.

(** From a counter [c], the next [CNTSETUP - c] calls are silent. *)
Lemma warm_run {Out} (D : detector Out) (q : Out) :
  warm_step D q ->
  forall l s n o,
    0 <= counter D s -> Z.of_nat n + counter D s < CNTSETUP ->
    nth_error (snd (run D l s)) n = Some o -> o = q.
Proof.
  intros HW. induction l as [|a l IH]; intros s n o H0 Hn Hnth.
  - destruct n; discriminate.
  - rewrite run_cons in Hnth. destruct (HW a s) as [Hq Hc]; [lia|].
    destruct n as [|n]; simpl in Hnth.
    + congruence.
    + apply (IH (fst (call D a s)) n); [lia | lia | exact Hnth].
Qed.

Lemma warm_silent {Out} (D : detector Out) (q : Out) :
  warm_step D q -> counter D (start D) = 0 -> silent_warmup D q.
Proof.
  intros HW H0 l n o Hn Hnth.
  unfold CNTSETUP in Hn. change (Z.to_nat 32) with 32%nat in Hn.
  apply (warm_run D q HW l (start D) n o);
    [ rewrite H0; lia | rewrite H0; unfold CNTSETUP; lia | exact Hnth ].
Qed.

Lemma run_outputs_length {Out} (D : detector Out) l s :
  length (snd (run D l s)) = length l.
Proof.
  revert s. induction l as [|a l IH]; intros s; [reflexivity|].
  rewrite run_cons. cbn [snd length]. now rewrite IH.
Qed.

Lemma skipn_outputs {Out} (D : detector Out) (l1 l2 : list (arg D)) :
  skipn (length l1) (outputs D (l1 ++ l2)) = snd (run D l2 (final D l1)).
Proof.
  unfold outputs, final. rewrite run_app. cbn [snd].
  rewrite <- (run_outputs_length D l1 (start D)) at 1.
  rewrite skipn_app, skipn_all, Nat.sub_diag. reflexivity.
Qed.

(** ** the warm-up branch of each routine *)

Ltac int_cases :=
  repeat match goal with
  | |- context [?a =? ?b] => destruct (Z.eqb_spec a b)
  | |- context [?a <? ?b] => destruct (Z.ltb_spec a b)
  end.

Ltac warm_branch :=
  unfold CNTSETUP in *; int_cases; cbn; try lia;
  (split; [reflexivity | apply u8_small; lia]).

Lemma motionLP_warm : warm_step motionLP_det f0.
Proof.
  intros a [setup smpl pX pY pZ fX fY fZ] H. cbn in *. unfold motionLP.
  warm_branch.
Qed.

Lemma motionK_warm : warm_step motionK_det f0.
Proof.
  intros a [setup smpl fX fY fZ eX eY eZ pX pY pZ] H. cbn in *. unfold motionK.
  destruct (kalman _ _ _ (fX, eX)), (kalman _ _ _ (fY, eY)), (kalman _ _ _ (fZ, eZ)).
  warm_branch.
Qed.

Lemma distortionHP_warm : warm_step distortionHP_det f0.
Proof.
  intros a [setup iX iY iZ oX oY oZ M] H. cbn in *. unfold distortionHP.
  warm_branch.
Qed.

Lemma distortionLP_warm : warm_step distortionLP_det f0.
Proof.
  intros a [setup aX aY aZ] H. cbn in *. unfold distortionLP.
  warm_branch.
Qed.

Lemma orientLP_warm atan2f : warm_step (orientLP_det atan2f) (1, None).
Proof.
  intros a [setup aX aY aZ mX mY mZ] H. cbn in *. unfold orientLP.
  warm_branch.
Qed.

Lemma orientK_warm atan2f : warm_step (orientK_det atan2f) (1, None).
Proof.
  intros a [setup fA fM eA eM] H. cbn in *. unfold orientK.
  destruct (kalman_loop _ _ _ _ _ _) as [[[fA' fM'] eA'] eM'].
  warm_branch.
Qed.

Lemma inclineLP_warm acosf : warm_step (inclineLP_det acosf) f0.
Proof.
  intros a [setup aX aY aZ] H. cbn in *. unfold inclineLP.
  warm_branch.
Qed.

(** C3. From the zero-initialised statics, each of the first 32 ([CNTSETUP])
    calls of a detector returns the zero trigger magnitude [0.0F] (motionLP,
    motionK, distortionHP, distortionLP, inclineLP) or the not-ready flag [1]
    without writing pitch, roll or yaw (orientLP, orientK), whatever the
    samples and parameters passed on those calls. *)
Theorem warmup_calls_report_nothing :
  silent_warmup motionLP_det f0 /\
  silent_warmup motionK_det f0 /\
  silent_warmup distortionHP_det f0 /\
  silent_warmup distortionLP_det f0 /\
  (forall acosf, silent_warmup (inclineLP_det acosf) f0) /\
  (forall atan2f, silent_warmup (orientLP_det atan2f) (1, None)) /\
  (forall atan2f, silent_warmup (orientK_det atan2f) (1, None)).
Proof.
  split. { apply warm_silent; [apply motionLP_warm | reflexivity]. }
  split. { apply warm_silent; [apply motionK_warm | reflexivity]. }
  split. { apply warm_silent; [apply distortionHP_warm | reflexivity]. }
  split. { apply warm_silent; [apply distortionLP_warm | reflexivity]. }
  split. { intros acosf. apply warm_silent; [apply inclineLP_warm | reflexivity]. }
  split; intros atan2f; apply warm_silent;
    solve [ apply orientLP_warm | apply orientK_warm | reflexivity ].
Qed.

(** 31 calls at rest and a jump on the 32nd call: the 32nd call still returns
    [0.0F]. *)
Lemma warmup_calls_report_nothing_witness :
  nth 31 (outputs motionLP_det (repeat (rest_LP 0) 31 ++ [jump_LP 0; rest_LP 0])) f1
  = f0.
Proof.
  apply (proj1 warmup_calls_report_nothing
           (repeat (rest_LP 0) 31 ++ [jump_LP 0; rest_LP 0]) 31%nat).
  - vm_compute. lia.
  - vm_compute. reflexivity.
Defined.

(** ** the warm-up counter *)

Ltac bool_cases :=
  repeat match goal with
  | |- context [if ?b then _ else _] => destruct b eqn:?
  end.

Ltac counter_branch :=
  unfold CNTSETUP in *; int_cases; try lia; bool_cases; cbn;
  (split; intros; try lia; try (apply u8_small; lia));
  try (left; reflexivity);
  try (right; split; [reflexivity | assumption]).

Lemma motionLP_counter :
  counter_step motionLP_det (fun a o => fgt o (MotionLP.delta a)).
Proof.
  intros a [setup smpl pX pY pZ fX fY fZ] H. cbn in *. unfold motionLP.
  counter_branch.
Qed.

Lemma motionK_counter :
  counter_step motionK_det
    (fun a o => fgt o (MotionK.delta a) && flt o f1).
Proof.
  intros a [setup smpl fX fY fZ eX eY eZ pX pY pZ] H. cbn in *. unfold motionK.
  destruct (kalman _ _ _ (fX, eX)), (kalman _ _ _ (fY, eY)), (kalman _ _ _ (fZ, eZ)).
  counter_branch.
Qed.

Lemma distortionHP_counter :
  counter_step distortionHP_det (fun a o => fgt o (DistortionHP.delta a)).
Proof.
  intros a [setup iX iY iZ oX oY oZ M] H. cbn in *. unfold distortionHP.
  counter_branch.
Qed.

Lemma distortionLP_counter :
  counter_step distortionLP_det (fun a o => fgt o (DistortionLP.delta a)).
Proof.
  intros a [setup aX aY aZ] H. cbn in *. unfold distortionLP.
  counter_branch.
Qed.

Lemma inclineLP_counter acosf :
  counter_step (inclineLP_det acosf)
    (fun a o => fgt o (fabsf (InclineLP.delta a))).
Proof.
  intros a [setup aX aY aZ] H. cbn in *. unfold inclineLP.
  counter_branch.
Qed.

Lemma orientLP_counter atan2f :
  counter_step (orientLP_det atan2f) (fun _ _ => false).
Proof.
  intros a [setup aX aY aZ mX mY mZ] H. cbn in *. unfold orientLP.
  counter_branch.
Qed.

Lemma orientK_counter atan2f :
  counter_step (orientK_det atan2f) (fun _ _ => false).
Proof.
  intros a [setup fA fM eA eM] H. cbn in *. unfold orientK.
  destruct (kalman_loop _ _ _ _ _ _) as [[[fA' fM'] eA'] eM'].
  counter_branch.
Qed.

Lemma counter_step_bounded {Out} (D : detector Out) fires :
  counter_step D fires -> counter D (start D) = 0 -> counter_bounded D.
Proof.
  intros HS H0 l. unfold final.
  assert (G : forall s, 0 <= counter D s <= CNTSETUP ->
                        0 <= counter D (fst (run D l s)) <= CNTSETUP).
  { induction l as [|a l IH]; intros s Hs; [exact Hs|].
    rewrite run_cons. cbn [fst]. apply IH.
    destruct (HS a s Hs) as [Hlt Heq].
    destruct (Z.eq_dec (counter D s) CNTSETUP) as [E|E].
    - destruct (Heq E) as [-> | [-> _]]; unfold CNTSETUP; lia.
    - rewrite Hlt; lia. }
  apply G. rewrite H0. unfold CNTSETUP. lia.
Qed.

Lemma counter_law_intro {Out} (D : detector Out) fires :
  counter_step D fires -> counter D (start D) = 0 -> counter_law D fires.
Proof.
  intros HS H0. split; [eapply counter_step_bounded; eassumption | exact HS].
Qed.

Lemma motionLP_decimation :
  decimation_step motionLP_det MotionLP.smpl MotionLP.sample.
Proof.
  intros a [setup smpl pX pY pZ fX fY fZ] Ha Hs. cbn in *. unfold motionLP.
  int_cases; bool_cases; cbn; try lia;
    rewrite ?u8_small by lia; lia.
Qed.

Lemma motionK_decimation :
  decimation_step motionK_det MotionK.smpl MotionK.sample.
Proof.
  intros a [setup smpl fX fY fZ eX eY eZ pX pY pZ] Ha Hs. cbn in *. unfold motionK.
  destruct (kalman _ _ _ (fX, eX)), (kalman _ _ _ (fY, eY)), (kalman _ _ _ (fZ, eZ)).
  int_cases; bool_cases; cbn; try lia;
    rewrite ?u8_small by lia; lia.
Qed.

Lemma warmup_counter_bounds_motionK :
  counter_law motionK_det (fun a o => fgt o (MotionK.delta a) && flt o f1).
Proof. apply counter_law_intro; [apply motionK_counter | reflexivity]. Qed.

(** C4. For every detector and every call sequence the warm-up counter
    [setup] stays within 0..32 ([CNTSETUP]); a call made with the counter
    below 32 adds exactly one, a call made at 32 leaves it at 32 or puts it
    back to 0, and it goes back to 0 only in a call that fires, i.e. whose
    returned value exceeds the threshold (the orientation estimators never
    fire, so their counter stays at 32). The decimation counter [smpl] of
    motionLP and motionK is left unchanged, reset to 0, or incremented by one
    to at most [sample]: the increment never wraps around. *)
Theorem warmup_counter_saturates :
  counter_law motionLP_det (fun a o => fgt o (MotionLP.delta a)) /\
  counter_law motionK_det (fun a o => fgt o (MotionK.delta a) && flt o f1) /\
  counter_law distortionHP_det (fun a o => fgt o (DistortionHP.delta a)) /\
  counter_law distortionLP_det (fun a o => fgt o (DistortionLP.delta a)) /\
  (forall acosf,
     counter_law (inclineLP_det acosf)
       (fun a o => fgt o (fabsf (InclineLP.delta a)))) /\
  (forall atan2f, counter_law (orientLP_det atan2f) (fun _ _ => false)) /\
  (forall atan2f, counter_law (orientK_det atan2f) (fun _ _ => false)) /\
  decimation_step motionLP_det MotionLP.smpl MotionLP.sample /\
  decimation_step motionK_det MotionK.smpl MotionK.sample.
Proof.
  split. { apply counter_law_intro; [apply motionLP_counter | reflexivity]. }
  split. { exact warmup_counter_bounds_motionK. }
  split. { apply counter_law_intro; [apply distortionHP_counter | reflexivity]. }
  split. { apply counter_law_intro; [apply distortionLP_counter | reflexivity]. }
  split. { intros acosf.
           apply counter_law_intro; [apply inclineLP_counter | reflexivity]. }
  split. { intros atan2f.
           apply counter_law_intro; [apply orientLP_counter | reflexivity]. }
  split. { intros atan2f.
           apply counter_law_intro; [apply orientK_counter | reflexivity]. }
  split; [exact motionLP_decimation | exact motionK_decimation].
Qed.

(** After 32 calls at rest the counter is 32; the jump that follows fires and
    puts it back to 0. *)
Lemma warmup_counter_saturates_witness :
  0 <= counter motionLP_det (final motionLP_det (repeat (rest_LP 0) 32)) <= CNTSETUP /\
  counter motionLP_det
    (fst (call motionLP_det (jump_LP 0) (final motionLP_det (repeat (rest_LP 0) 32)))) = 0 /\
  fgt (snd (call motionLP_det (jump_LP 0) (final motionLP_det (repeat (rest_LP 0) 32))))
      (MotionLP.delta (jump_LP 0)) = true.
Proof.
  destruct (proj1 warmup_counter_saturates) as [Hb Hs].
  pose proof (Hb (repeat (rest_LP 0) 32)) as B.
  split; [exact B |].
  destruct (proj2 (Hs (jump_LP 0) _ B)) as [E | E].
  - vm_compute. reflexivity.
  - vm_compute in E. discriminate E.
  - exact E.
Defined.

(** ** arithmetic on NaN *)

Lemma is_nan_eq (x : float) : is_nan x = true -> x = S754_nan.
Proof. destruct x; try discriminate; reflexivity. Qed.

Lemma fadd_nan_l y : fadd S754_nan y = S754_nan.
Proof. reflexivity. Qed.
Lemma fadd_nan_r x : fadd x S754_nan = S754_nan.
Proof. destruct x; reflexivity. Qed.
Lemma fsub_nan_l y : fsub S754_nan y = S754_nan.
Proof. reflexivity. Qed.
Lemma fsub_nan_r x : fsub x S754_nan = S754_nan.
Proof. destruct x; reflexivity. Qed.
Lemma fmul_nan_l y : fmul S754_nan y = S754_nan.
Proof. reflexivity. Qed.
Lemma fmul_nan_r x : fmul x S754_nan = S754_nan.
Proof. destruct x; reflexivity. Qed.
Lemma fdiv_nan_l y : fdiv S754_nan y = S754_nan.
Proof. reflexivity. Qed.
Lemma fdiv_nan_r x : fdiv x S754_nan = S754_nan.
Proof. destruct x; reflexivity. Qed.
Lemma sqrtf_nan : sqrtf S754_nan = S754_nan.
Proof. reflexivity. Qed.
Lemma fabsf_nan : fabsf S754_nan = S754_nan.
Proof. reflexivity. Qed.
Lemma fgt_nan_l d : fgt S754_nan d = false.
Proof. destruct d; reflexivity. Qed.
Lemma flt_nan_l d : flt S754_nan d = false.
Proof. reflexivity. Qed.

Lemma lowpass_nan_sample alpha f : lowpass alpha S754_nan f = S754_nan.
Proof. unfold lowpass. now rewrite fmul_nan_r, fadd_nan_l. Qed.
Lemma lowpass_nan_state alpha x : lowpass alpha x S754_nan = S754_nan.
Proof. unfold lowpass. now rewrite fmul_nan_r, fadd_nan_r. Qed.

Lemma norm3_nan_1 y z : norm3 S754_nan y z = S754_nan.
Proof. unfold norm3. now rewrite fmul_nan_l, !fadd_nan_l, sqrtf_nan. Qed.
Lemma norm3_nan_2 x z : norm3 x S754_nan z = S754_nan.
Proof. unfold norm3. now rewrite fmul_nan_l, fadd_nan_r, fadd_nan_l, sqrtf_nan. Qed.
Lemma norm3_nan_3 x y : norm3 x y S754_nan = S754_nan.
Proof. unfold norm3. now rewrite fmul_nan_l, fadd_nan_r, sqrtf_nan. Qed.

Lemma kalman_nan_sample Q R f e : fst (kalman Q R S754_nan (f, e)) = S754_nan.
Proof. unfold kalman. cbn [fst]. now rewrite fsub_nan_l, fmul_nan_r, fadd_nan_r. Qed.
Lemma kalman_nan_state Q R x e :
  fst (kalman Q R x (@pair float float S754_nan e)) = S754_nan.
Proof. unfold kalman. cbn [fst]. reflexivity. Qed.

Create Rewrite HintDb nan.
#[local] Hint Rewrite fadd_nan_l fadd_nan_r fsub_nan_l fsub_nan_r fmul_nan_l
  fmul_nan_r fdiv_nan_l fdiv_nan_r sqrtf_nan fabsf_nan fgt_nan_l flt_nan_l
  lowpass_nan_sample lowpass_nan_state norm3_nan_1 norm3_nan_2 norm3_nan_3
  : nan.

Lemma has_nan_cases (v : vec3) :
  has_nan v = true ->
  vX v = S754_nan \/ vY v = S754_nan \/ vZ v = S754_nan.
Proof.
  unfold has_nan. rewrite !orb_true_iff.
  intros [[H|H]|H]; apply is_nan_eq in H; auto.
Qed.

(** ** rounding never makes a NaN *)

Lemma shr_1_nonneg (mrs : shr_record) : 0 <= shr_m mrs -> 0 <= shr_m (shr_1 mrs).
Proof.
  destruct mrs as [m r s]. cbn [shr_m].
  destruct m as [|[p|p|]|p]; cbn; lia.
Qed.

Lemma iter_shr_1_nonneg (p : positive) (mrs : shr_record) :
  0 <= shr_m mrs -> 0 <= shr_m (iter_pos shr_1 p mrs).
Proof.
  revert mrs. induction p as [p IH | p IH |]; intros mrs Hm; cbn [iter_pos].
  - apply IH, IH, shr_1_nonneg, Hm.
  - apply IH, IH, Hm.
  - apply shr_1_nonneg, Hm.
Qed.

Lemma shr_fexp_nonneg (m e : Z) (l : location) :
  0 <= m -> 0 <= shr_m (fst (shr_fexp prec32 emax32 m e l)).
Proof.
  intros Hm. unfold shr_fexp, shr.
  assert (H0 : 0 <= shr_m (shr_record_of_loc m l)) by (destruct l as [|[]]; exact Hm).
  destruct (_ - e) as [|p|p]; cbn [fst]; try exact H0.
  apply iter_shr_1_nonneg, H0.
Qed.

Lemma round_nearest_even_nonneg (m : Z) (l : location) :
  0 <= m -> 0 <= round_nearest_even m l.
Proof.
  intros Hm. destruct l as [|[]]; cbn; try lia. destruct (Z.even m); lia.
Qed.

(** Rounding a mantissa that is not negative never gives NaN. *)
Lemma round_not_nan (sx : bool) (mx ex : Z) (lx : location) :
  0 <= mx -> is_nan (binary_round_aux prec32 emax32 sx mx ex lx) = false.
Proof.
  intros Hm. unfold binary_round_aux.
  pose proof (shr_fexp_nonneg mx ex lx Hm) as H1.
  destruct (shr_fexp prec32 emax32 mx ex lx) as [mrs' e']. cbn [fst] in H1.
  pose proof (shr_fexp_nonneg _ e' loc_Exact
                (round_nearest_even_nonneg _ (loc_of_shr_record mrs') H1)) as H2.
  destruct (shr_fexp prec32 emax32 _ e' loc_Exact) as [mrs'' e'']. cbn [fst] in H2.
  destruct (shr_m mrs'') as [|m|m]; [reflexivity | | lia].
  destruct (e'' <=? emax32 - prec32); reflexivity.
Qed.

Lemma float_of_int_not_nan (v : Z) : is_nan (float_of_int v) = false.
Proof.
  unfold float_of_int, f32, binary_normalize.
  destruct v as [|p|p]; [reflexivity | | ]; unfold binary_round;
    destruct (shl_align _ _ _) as [mz ez]; apply round_not_nan; lia.
Qed.

Lemma fdiv_not_nan (x y : float) :
  is_nan x = false -> is_finite y = true -> is_zero y = false ->
  is_nan (fdiv x y) = false.
Proof.
  destruct x as [sx | sx | | sx mx ex], y as [sy | sy | | sy my ey];
    try discriminate; try reflexivity.
  intros _ _ _. unfold fdiv, SFdiv.
  destruct (SFdiv_core_binary prec32 emax32 (Z.pos mx) ex (Z.pos my) ey)
    as [[mz ez] lz] eqn:E.
  apply round_not_nan. unfold SFdiv_core_binary in E.
  revert E. cbv zeta.
  match goal with
  | |- context [Z.div_eucl ?a ?b] =>
      assert (Ha : 0 <= a) by
        (match goal with
         | |- 0 <= match ?s with _ => _ end =>
             destruct s; [lia | apply Z.shiftl_nonneg; lia | lia]
         end);
      pose proof (Z.div_pos a b Ha ltac:(lia)) as Hq;
      unfold Z.div in Hq; destruct (Z.div_eucl a b) as [q r]
  end.
  intros E. injection E as <- _ _. exact Hq.
Qed.

Lemma fmul_not_nan (x y : float) :
  is_nan x = false -> is_finite y = true -> is_zero y = false ->
  is_nan (fmul x y) = false.
Proof.
  destruct x as [sx | sx | | sx mx ex], y as [sy | sy | | sy my ey];
    try discriminate; try reflexivity.
  intros _ _ _. unfold fmul, SFmul. apply round_not_nan. lia.
Qed.

(** ** firing restarts the warm-up *)









(** ** decimation in the motion detectors *)

Lemma warm_run_state {Out} (D : detector Out) (q : Out) (f : st D -> Z) :
  warm_step D q ->
  (forall a s, 0 <= counter D s < CNTSETUP -> f (fst (call D a s)) = f s) ->
  forall l s,
    0 <= counter D s -> counter D s + Z.of_nat (length l) <= CNTSETUP ->
    counter D (fst (run D l s)) = counter D s + Z.of_nat (length l) /\
    f (fst (run D l s)) = f s.
Proof.
  intros HW HF. induction l as [|a l IH]; intros s H0 Hn.
  - cbn. split; [lia | reflexivity].
  - rewrite run_cons. cbn [fst length] in *.
    destruct (HW a s) as [_ Hc]; [lia|].
    destruct (IH (fst (call D a s))) as [IHc IHf]; [lia | lia |].
    rewrite IHc, IHf, Hc, HF by lia. split; [lia | reflexivity].
Qed.

Section Window.

Variable D : detector float.
Variable smpl : st D -> Z.
Variable sample : arg D -> Z.
Variable snap : st D -> float * float * float.

Hypothesis skip_step :
  forall a s, counter D s = CNTSETUP -> 0 <= smpl s < sample a -> sample a <= 255 ->
    snd (call D a s) = f0 /\
    counter D (fst (call D a s)) = CNTSETUP /\
    smpl (fst (call D a s)) = smpl s + 1 /\
    snap (fst (call D a s)) = snap s.

Lemma skip_window :
  forall l s n,
    counter D s = CNTSETUP -> 0 <= smpl s ->
    smpl s + Z.of_nat (length l) <= n <= 255 ->
    Forall (fun a => sample a = n) l ->
    Forall (fun o => o = f0) (snd (run D l s)) /\
    counter D (fst (run D l s)) = CNTSETUP /\
    smpl (fst (run D l s)) = smpl s + Z.of_nat (length l) /\
    snap (fst (run D l s)) = snap s.
Proof.
  induction l as [|a l IH]; intros s n Hc Hs Hn Hall.
  - cbn. repeat split; [constructor | assumption | lia].
  - inversion Hall as [|a' l' Ha Hl]; subst a' l'.
    rewrite run_cons. cbn [fst snd length] in *.
    destruct (skip_step a s Hc) as (Ho & Hc' & Hs' & Hp'); [lia | lia |].
    destruct (IH (fst (call D a s)) n) as (IHo & IHc & IHs & IHp);
      [assumption | lia | lia | assumption |].
    repeat split.
    + constructor; assumption.
    + assumption.
    + lia.
    + congruence.
Qed.

End Window.

Lemma motionLP_keeps_smpl a s :
  0 <= counter motionLP_det s < CNTSETUP ->
  MotionLP.smpl (fst (call motionLP_det a s)) = MotionLP.smpl s.
Proof.
  destruct s as [setup smpl pX pY pZ fX fY fZ]. cbn. unfold motionLP, CNTSETUP.
  intros H. int_cases; try lia; reflexivity.
Qed.

Lemma motionK_keeps_smpl a s :
  0 <= counter motionK_det s < CNTSETUP ->
  MotionK.smpl (fst (call motionK_det a s)) = MotionK.smpl s.
Proof.
  destruct s as [setup smpl fX fY fZ eX eY eZ pX pY pZ]. cbn. unfold motionK, CNTSETUP.
  destruct (kalman _ _ _ (fX, eX)), (kalman _ _ _ (fY, eY)), (kalman _ _ _ (fZ, eZ)).
  intros H. int_cases; try lia; reflexivity.
Qed.

Lemma motionLP_skip a s :
  counter motionLP_det s = CNTSETUP ->
  0 <= MotionLP.smpl s < MotionLP.sample a -> MotionLP.sample a <= 255 ->
  snd (call motionLP_det a s) = f0 /\
  counter motionLP_det (fst (call motionLP_det a s)) = CNTSETUP /\
  MotionLP.smpl (fst (call motionLP_det a s)) = MotionLP.smpl s + 1 /\
  motionLP_snapshot (fst (call motionLP_det a s)) = motionLP_snapshot s.
Proof.
  destruct s as [setup smpl pX pY pZ fX fY fZ]. cbn. unfold motionLP, CNTSETUP.
  intros -> Hs Ha. int_cases; try lia. cbn.
  repeat split. apply u8_small. lia.
Qed.

Lemma motionK_skip a s :
  counter motionK_det s = CNTSETUP ->
  0 <= MotionK.smpl s < MotionK.sample a -> MotionK.sample a <= 255 ->
  snd (call motionK_det a s) = f0 /\
  counter motionK_det (fst (call motionK_det a s)) = CNTSETUP /\
  MotionK.smpl (fst (call motionK_det a s)) = MotionK.smpl s + 1 /\
  motionK_snapshot (fst (call motionK_det a s)) = motionK_snapshot s.
Proof.
  destruct s as [setup smpl fX fY fZ eX eY eZ pX pY pZ]. cbn. unfold motionK, CNTSETUP.
  destruct (kalman _ _ _ (fX, eX)), (kalman _ _ _ (fY, eY)), (kalman _ _ _ (fZ, eZ)).
  intros -> Hs Ha. int_cases; try lia. cbn.
  repeat split. apply u8_small. lia.
Qed.

Lemma motionLP_check a s :
  counter motionLP_det s = CNTSETUP -> MotionLP.sample a <= MotionLP.smpl s ->
  MotionLP.smpl (fst (call motionLP_det a s)) = 0 /\
  snd (call motionLP_det a s) =
    (if motionLP_trigger a (motionLP_m a s) then motionLP_m a s else f0) /\
  counter motionLP_det (fst (call motionLP_det a s)) =
    (if motionLP_trigger a (motionLP_m a s) then 0 else CNTSETUP).
Proof.
  destruct s as [setup smpl pX pY pZ fX fY fZ].
  unfold motionLP_trigger, motionLP_m. cbn. unfold motionLP, CNTSETUP.
  intros -> Hs. int_cases; try lia.
  bool_cases; cbn; repeat split.
Qed.

Lemma motionK_check a s :
  counter motionK_det s = CNTSETUP -> MotionK.sample a <= MotionK.smpl s ->
  MotionK.smpl (fst (call motionK_det a s)) = 0 /\
  snd (call motionK_det a s) =
    (if motionK_trigger a (motionK_m a s) then motionK_m a s else f0) /\
  counter motionK_det (fst (call motionK_det a s)) =
    (if motionK_trigger a (motionK_m a s) then 0 else CNTSETUP).
Proof.
  destruct s as [setup smpl fX fY fZ eX eY eZ pX pY pZ].
  unfold motionK_trigger, motionK_m. cbn. unfold motionK, CNTSETUP.
  destruct (kalman _ _ _ (fX, eX)), (kalman _ _ _ (fY, eY)), (kalman _ _ _ (fZ, eZ)).
  intros -> Hs. int_cases; try lia. cbn [fst].
  bool_cases; cbn; repeat split.
Qed.

Lemma motionLP_skips_then_checks :
  skips_then_checks motionLP_det MotionLP.smpl MotionLP.sample
    motionLP_snapshot motionLP_m motionLP_trigger.
Proof.
  split; [|split; [|split]].
  - intros l Hl. unfold final.
    destruct (warm_run_state motionLP_det f0 MotionLP.smpl motionLP_warm
                motionLP_keeps_smpl l (start motionLP_det)) as [Hc Hs].
    + cbn. lia.
    + rewrite Hl. cbn. unfold CNTSETUP. lia.
    + rewrite Hc, Hs, Hl. split; reflexivity.
  - exact motionLP_skip.
  - exact motionLP_check.
  - intros l s n Hc Hs Hn Hlen Hall.
    destruct (skip_window motionLP_det MotionLP.smpl MotionLP.sample
                motionLP_snapshot motionLP_skip l s n) as (A & B & C & E);
      try assumption; try lia.
    repeat split; try assumption. lia.
Qed.

Lemma motionK_skips_then_checks :
  skips_then_checks motionK_det MotionK.smpl MotionK.sample
    motionK_snapshot motionK_m motionK_trigger.
Proof.
  split; [|split; [|split]].
  - intros l Hl. unfold final.
    destruct (warm_run_state motionK_det f0 MotionK.smpl motionK_warm
                motionK_keeps_smpl l (start motionK_det)) as [Hc Hs].
    + cbn. lia.
    + rewrite Hl. cbn. unfold CNTSETUP. lia.
    + rewrite Hc, Hs, Hl. split; reflexivity.
  - exact motionK_skip.
  - exact motionK_check.
  - intros l s n Hc Hs Hn Hlen Hall.
    destruct (skip_window motionK_det MotionK.smpl MotionK.sample
                motionK_snapshot motionK_skip l s n) as (A & B & C & E);
      try assumption; try lia.
    repeat split; try assumption. lia.
Qed.

(** C5 (amended). Once warm-up is complete (the statics after the 32nd call
    have [setup = 32] and [smpl = 0]), motionLP and motionK skip: each call
    made while the decimation counter is below [sample] returns [0.0F]
    whatever the sample is, advances the counter by one and keeps the stored
    snapshot. The Euclidean-distance check between the vector just filtered and
    the snapshot is made by the call that finds the counter at [sample], that
    is after exactly [sample] skipped calls: once every [sample + 1] calls, not
    every [sample] calls. That call resets the counter to 0 and returns the
    distance when the trigger holds, [0.0F] otherwise. *)
Theorem motion_check_after_sample_skips :
  skips_then_checks motionLP_det MotionLP.smpl MotionLP.sample
    motionLP_snapshot motionLP_m motionLP_trigger /\
  skips_then_checks motionK_det MotionK.smpl MotionK.sample
    motionK_snapshot motionK_m motionK_trigger.
Proof.
  split; [exact motionLP_skips_then_checks | exact motionK_skips_then_checks].
Qed.

(** With [sample = 3]: after warm-up three jumps in a row are skipped, and the
    fourth call makes the check and returns the distance. *)
Lemma motion_check_after_sample_skips_witness :
  let s := final motionLP_det (repeat (rest_LP 3) 32) in
  let l := [jump_LP 3; jump_LP 3; jump_LP 3] in
  Forall (fun o => o = f0) (snd (run motionLP_det l s)) /\
  MotionLP.smpl (fst (run motionLP_det l s)) = 3 /\
  snd (call motionLP_det (jump_LP 3) (fst (run motionLP_det l s))) =
    motionLP_m (jump_LP 3) (fst (run motionLP_det l s)).
Proof.
  intros s l.
  destruct (proj1 motion_check_after_sample_skips) as (H32 & _ & Hcheck & Hwin).
  destruct (H32 (repeat (rest_LP 3) 32) eq_refl) as [Hc Hs].
  destruct (Hwin l s 3 Hc Hs) as (A & B & C & _).
  - lia.
  - reflexivity.
  - repeat constructor.
  - split; [exact A | split; [exact C |]].
    destruct (Hcheck (jump_LP 3) (fst (run motionLP_det l s)) B) as (_ & R & _).
    + rewrite C. cbn. lia.
    + rewrite R. vm_compute. reflexivity.
Defined.

(** C5 as stated fails: with [sample = 1] every tick would be a check tick.
    After 32 calls at rest the 33rd call sees a jump whose distance from the
    snapshot (50) exceeds [delta] (0.1), and still returns [0.0F]; the check is
    only made by the 34th call, which fires. Both motion detectors do this. *)
Lemma motion_check_not_every_sample_ticks :
  (nth_error (outputs motionLP_det (repeat (rest_LP 1) 32 ++ [jump_LP 1; jump_LP 1])) 32
     = Some f0 /\
   motionLP_m (jump_LP 1) (final motionLP_det (repeat (rest_LP 1) 32)) = f32 50 0 /\
   motionLP_trigger (jump_LP 1) (f32 50 0) = true /\
   nth_error (outputs motionLP_det (repeat (rest_LP 1) 32 ++ [jump_LP 1; jump_LP 1])) 33
     = Some (f32 75 0)) /\
  (nth_error (outputs motionK_det (repeat (rest_K 1) 32 ++ [jump_K f1 1; jump_K f1 1])) 32
     = Some f0 /\
   motionK_trigger (jump_K f1 1)
     (motionK_m (jump_K f1 1) (final motionK_det (repeat (rest_K 1) 32))) = true /\
   option_map (fun o => fgt o f0)
     (nth_error (outputs motionK_det (repeat (rest_K 1) 32 ++ [jump_K f1 1; jump_K f1 1])) 33)
     = Some true).
Proof. vm_compute. repeat split. Qed.

(** ** firing, and a spike followed by the baseline *)

(** *** the firing branch of each routine *)






(** *** counting the firings of a run *)



Section Baseline.
Variable D : detector float.
Variable b : arg D.
Variable rest : st D -> Prop.
Hypothesis rest_step :
  forall s, rest s -> fgt (snd (call D b s)) f0 = false /\ rest (fst (call D b s)).
Hypothesis rest_after_firing :
  forall a s, fgt (snd (call D a s)) f0 = true -> rest (fst (call D a s)).




End Baseline.

(** *** a detector that follows its baseline *)




















(** ** the sanity ceiling of motionK *)

Lemma SFcompare_antisym (a b : spec_float) :
  SFcompare b a = option_map CompOpp (SFcompare a b).
Proof.
  destruct a as [sa|sa| |sa ma ea], b as [sb|sb| |sb mb eb]; cbn;
    try destruct sa; try destruct sb; cbn; try reflexivity.
  - rewrite (Z.compare_antisym ea eb). destruct (ea ?= eb) eqn:E; cbn; try reflexivity.
    rewrite CompOpp_involutive. f_equal.
    exact (Pos.compare_cont_antisym mb ma Eq).
  - rewrite (Z.compare_antisym ea eb). destruct (ea ?= eb) eqn:E; cbn; try reflexivity.
    f_equal. symmetry. exact (Pos.compare_cont_antisym ma mb Eq).
Qed.

(** [a <= b] excludes [b < a]. *)
Lemma fle_not_flt (a b : float) : fle a b = true -> flt b a = false.
Proof.
  unfold fle, flt, SFleb, SFltb. rewrite (SFcompare_antisym a b).
  destruct (SFcompare a b) as [[]|]; cbn; congruence.
Qed.

(** C9. motionK fires, i.e. returns the distance [m] and puts its warm-up
    counter back to 0, only when [m > delta] and [m < 1.0] both hold; on a
    check tick ([setup = 32], decimation counter not below [sample]) where both
    hold it does fire; and whenever the distance is 1.0 or greater the call
    returns [0.0F] and does not reset the counter. *)
Theorem motionK_fires_below_ceiling (a : MotionK.args) (s : MotionK.state) :
  0 <= MotionK.setup s <= CNTSETUP ->
  let m := motionK_m a s in
  let s' := fst (call motionK_det a s) in
  let r := snd (call motionK_det a s) in
  (MotionK.setup s' = 0 ->
     fgt m (MotionK.delta a) = true /\ flt m f1 = true /\ r = m) /\
  (MotionK.setup s = CNTSETUP -> MotionK.sample a <= MotionK.smpl s ->
   fgt m (MotionK.delta a) = true -> flt m f1 = true ->
     r = m /\ MotionK.setup s' = 0) /\
  (fle f1 m = true -> r = f0 /\ MotionK.setup s' <> 0).
Proof.
  destruct s as [setup smpl fX fY fZ eX eY eZ pX pY pZ].
  unfold motionK_m. cbn. unfold motionK, CNTSETUP. intros H.
  destruct (kalman _ _ _ (fX, eX)) as [fX' eX'], (kalman _ _ _ (fY, eY)) as [fY' eY'],
           (kalman _ _ _ (fZ, eZ)) as [fZ' eZ']. cbn [fst].
  set (m := norm3 _ _ _).
  split; [|split].
  - int_cases; cbn; rewrite ?u8_small by lia; try lia.
    destruct (fgt m (MotionK.delta a)) eqn:Hd, (flt m f1) eqn:Hc; cbn; intros; try lia.
    repeat split.
  - intros -> Hs Hd Hc. int_cases; try lia. rewrite Hd, Hc. cbn. split; reflexivity.
  - intros Hge. apply fle_not_flt in Hge.
    int_cases; cbn; rewrite ?u8_small by lia; try (split; [reflexivity | lia]).
    rewrite Hge, andb_false_r. cbn. split; [reflexivity | lia].
Qed.

(** At rest for 32 calls, then a jump to 100: the distance is 27.0, above
    [delta] and above the ceiling, and the call returns [0.0F] with the counter
    still at 32. *)
Lemma motionK_fires_below_ceiling_witness :
  let a := jump_K (f32 100 0) 0 in
  let s := final motionK_det (repeat (rest_K 0) 32) in
  fgt (motionK_m a s) (MotionK.delta a) = true /\
  fle f1 (motionK_m a s) = true /\
  snd (call motionK_det a s) = f0 /\
  MotionK.setup (fst (call motionK_det a s)) <> 0.
Proof.
  intros a s.
  assert (Hs : 0 <= MotionK.setup s <= CNTSETUP) by (vm_compute; split; discriminate).
  assert (Hm : fle f1 (motionK_m a s) = true) by (vm_compute; reflexivity).
  split; [vm_compute; reflexivity | split; [exact Hm |]].
  exact (proj2 (proj2 (motionK_fires_below_ceiling a s Hs)) Hm).
Defined.

(** ** the fall detector *)

(** C2. detectFall implements exactly the listed stage transitions over
    [M = sqrtf(x*x + y*y + z*z)]: Init to Weightlessness when [M < wThs],
    Weightlessness to Fall when [M > iThs], Fall to Init only when
    [wThs + iThs == 0]; on every other input the stage is unchanged, so Fall
    is latched; the value returned is the stage after the transition, which is
    also the stage stored for the next call. *)
Theorem detectFall_transitions (x y z wThs iThs : float) (s : DetectFall.state) :
  (forall st' : stage_t,
     snd (detectFall x y z wThs iThs s) = st' <->
     fall_step (norm3 x y z) wThs iThs (DetectFall.stage s) st') /\
  DetectFall.stage (fst (detectFall x y z wThs iThs s)) =
    snd (detectFall x y z wThs iThs s).
Proof.
  destruct s as [stage smpl]. unfold detectFall. cbn [fst snd DetectFall.stage].
  split; [|reflexivity].
  intros st'. split.
  - intros <-. destruct stage.
    + destruct (flt _ _) eqn:E; constructor; exact E.
    + destruct (fgt _ _) eqn:E; constructor; exact E.
    + destruct (feq _ _) eqn:E; constructor; exact E.
  - intros H. inversion H as [E|E|E|E|E|E]; rewrite E; reflexivity.
Qed.

(** The sequence of the specification: 0.05 g is below [wThs] = 0.3 g, 2.5 g
    is above [iThs] = 2.0 g; further calls stay in Fall; a call with both
    thresholds 0 goes back to Init. *)
Example detectFall_sequence :
  let w := dec32 3 1 in
  let i := f32 2 0 in
  let '(s1, r1) := detectFall (dec32 5 2) f0 f0 w i DetectFall.init in
  let '(s2, r2) := detectFall (dec32 25 1) f0 f0 w i s1 in
  let '(s3, r3) := detectFall f0 f0 f1 w i s2 in
  let '(s4, r4) := detectFall (dec32 25 1) f0 f0 w i s3 in
  let '(s5, r5) := detectFall f0 f0 f1 f0 f0 s4 in
  [r1; r2; r3; r4; r5] =
  [STAGE_WEIGHLESSNESS; STAGE_FALL; STAGE_FALL; STAGE_FALL; STAGE_INIT].
Proof. vm_compute. reflexivity. Qed.

(** ** the Kalman recursion *)

Lemma kalman_loop_axes (a m : vec3) (Q R : float) (fA fM eA eM : vec3) :
  let '(fA', fM', eA', eM') :=
    kalman_loop [Axis.X; Axis.Y; Axis.Z] a m Q R (fA, fM, eA, eM) in
  forall i : axis,
    (get fA' i, get eA' i) = kalman Q R (get a i) (get fA i, get eA i) /\
    (get fM' i, get eM' i) = kalman Q R (get m i) (get fM i, get eM i).
Proof.
  destruct fA as [fAx fAy fAz], fM as [fMx fMy fMz],
           eA as [eAx eAy eAz], eM as [eMx eMy eMz],
           a as [ax ay az], m as [mx my mz].
  cbv [kalman_loop get set vX vY vZ].
  destruct (kalman Q R ax (fAx, eAx)) as [ax' ex'] eqn:E1.
  destruct (kalman Q R mx (fMx, eMx)) as [mx' nx'] eqn:E2.
  destruct (kalman Q R ay (fAy, eAy)) as [ay' ey'] eqn:E3.
  destruct (kalman Q R my (fMy, eMy)) as [my' ny'] eqn:E4.
  destruct (kalman Q R az (fAz, eAz)) as [az' ez'] eqn:E5.
  destruct (kalman Q R mz (fMz, eMz)) as [mz' nz'] eqn:E6.
  intros [| |]; split; congruence.
Qed.

Lemma motionK_kalman : motionK_kalman_law.
Proof.
  intros a [setup smpl fX fY fZ eX eY eZ pX pY pZ]. cbn. unfold motionK. split.
  - intros ->. cbn. repeat split.
  - intros Hn.
    destruct (kalman _ _ _ (fX, eX)) as [fX' eX'], (kalman _ _ _ (fY, eY)) as [fY' eY'],
             (kalman _ _ _ (fZ, eZ)) as [fZ' eZ'].
    int_cases; try contradiction; bool_cases; cbn; repeat split.
Qed.

Lemma orientK_kalman atan2f : orientK_kalman_law atan2f.
Proof.
  intros a [setup fA fM eA eM] i. unfold orientK_filtered.
  cbn [call orientK_det OrientK.setup OrientK.fA OrientK.fM OrientK.eA OrientK.eM].
  unfold orientK. split.
  - intros ->. cbn. destruct i; repeat split.
  - intros Hn.
    pose proof (kalman_loop_axes (OrientK.a a) (OrientK.m a) (OrientK.Q a)
                  (OrientK.R a) fA fM eA eM) as HL.
    destruct (kalman_loop _ _ _ _ _ _) as [[[A M] eA'] eM'].
    destruct (HL i) as [HA HM].
    unfold CNTSETUP. int_cases; try contradiction; cbn; repeat split;
      try assumption; try lia.
Qed.

(** The counter of a detector that never fires is never 0 again after the
    first call. *)
Lemma silent_counter_positive {Out} (D : detector Out) :
  counter_step D (fun _ _ => false) ->
  forall l s, 1 <= counter D s <= CNTSETUP ->
              1 <= counter D (fst (run D l s)) <= CNTSETUP.
Proof.
  intros HS. induction l as [|a l IH]; intros s Hs; [exact Hs|].
  rewrite run_cons. cbn [fst]. apply IH.
  destruct (HS a s) as [Hlt Heq]; [lia|].
  destruct (Z.eq_dec (counter D s) CNTSETUP) as [E|E].
  - destruct (Heq E) as [-> | [_ F]]; [unfold CNTSETUP; lia | discriminate F].
  - rewrite Hlt; lia.
Qed.

Lemma orientK_after_first_call atan2f (l : list OrientK.args) :
  l <> [] -> OrientK.setup (final (orientK_det atan2f) l) <> 0.
Proof.
  destruct l as [|a l]; [congruence|]. intros _. unfold final.
  rewrite run_cons. cbn [fst].
  set (D := orientK_det atan2f).
  assert (P : 1 <= counter D (fst (call D a (start D))) <= CNTSETUP)
    by (vm_compute; split; discriminate).
  pose proof (silent_counter_positive D (orientK_counter atan2f) l _ P) as H.
  change (counter D (fst (run D l (fst (call D a (start D))))) <> 0).
  lia.
Qed.

Lemma motionK_zero_counter_after_firing (l : list MotionK.args) (a : MotionK.args) :
  MotionK.setup (final motionK_det (l ++ [a])) = 0 ->
  motionK_trigger a (snd (call motionK_det a (final motionK_det l))) = true.
Proof.
  unfold final. rewrite run_app. cbn [fst]. rewrite run_cons. cbn [fst run].
  intros H0.
  destruct warmup_counter_bounds_motionK as [Hb Hs].
  destruct (Hs a (fst (run motionK_det l (start motionK_det))) (Hb l)) as [Hlt Heq].
  destruct (Z.eq_dec (counter motionK_det (fst (run motionK_det l (start motionK_det))))
              CNTSETUP) as [E|E].
  - destruct (Heq E) as [F | [_ F]]; [|exact F].
    cbn [counter motionK_det] in F. rewrite F in H0. discriminate H0.
  - pose proof (Hb l) as B. unfold final in B.
    cbn [counter motionK_det] in *. rewrite Hlt in H0 by lia. lia.
Qed.

(** C8 (amended). In motionK and orientK a call entered with the warm-up
    counter different from 0 updates each of the independent axes by the
    scalar Kalman recursion: error += Q; K = error / (error + R);
    estimate += K * (measurement - estimate); error *= (1 - K). A call entered
    with the counter at 0 instead initialises estimate = measurement and
    error = E on every axis and returns without an event ([0.0F], or flag 1
    with no angles written). The first call is such a call. In orientK no
    later call is; in motionK a later call is one exactly when the call before
    it fired, so the call after each firing initialises again. After warm-up
    orientK stores the estimates divided by their norm. *)
Theorem kalman_recursion_per_axis :
  motionK_kalman_law /\
  (forall atan2f, orientK_kalman_law atan2f) /\
  MotionK.setup (start motionK_det) = 0 /\
  (forall atan2f, OrientK.setup (start (orientK_det atan2f)) = 0) /\
  (forall atan2f l, l <> [] -> OrientK.setup (final (orientK_det atan2f) l) <> 0) /\
  (forall l a,
     MotionK.setup (final motionK_det (l ++ [a])) = 0 ->
     motionK_trigger a (snd (call motionK_det a (final motionK_det l))) = true) /\
  (forall a s,
     MotionK.setup s = CNTSETUP -> MotionK.sample a <= MotionK.smpl s ->
     motionK_trigger a (motionK_m a s) = true ->
     MotionK.setup (fst (call motionK_det a s)) = 0).
Proof.
  split; [exact motionK_kalman |].
  split; [exact orientK_kalman |].
  split; [reflexivity |].
  split; [reflexivity |].
  split; [exact orientK_after_first_call |].
  split; [exact motionK_zero_counter_after_firing |].
  intros a s Hs Hn Ht.
  destruct (motionK_check a s Hs Hn) as (_ & _ & Hc).
  rewrite Ht in Hc. exact Hc.
Qed.

(** The sixth call of motionK, five calls at rest behind it: the X estimate
    and error are the recursion applied to the stored ones. *)
Lemma kalman_recursion_per_axis_witness :
  let s := final motionK_det (repeat (rest_K 0) 5) in
  let a := jump_K f1 0 in
  (MotionK.fX (fst (call motionK_det a s)), MotionK.eX (fst (call motionK_det a s)))
  = kalman (MotionK.Q a) (MotionK.R a) (MotionK.x a) (MotionK.fX s, MotionK.eX s).
Proof.
  intros s a.
  apply (proj2 (proj1 kalman_recursion_per_axis a s)).
  vm_compute. discriminate.
Defined.

(** C8 as stated fails for motionK: not every call after the first runs the
    recursion. After 32 calls at rest the 33rd call (a jump to 1.0) fires; the
    34th call, with measurement 0.5, then stores estimate = 0.5 and error = E
    = 1.0, which is not what the recursion gives from the stored estimate and
    error. *)
Lemma motionK_call_after_firing_initializes :
  let l := repeat (rest_K 0) 32 ++ [jump_K f1 0] in
  let a := jump_K (dec32 5 1) 0 in
  let s := final motionK_det l in
  let s' := fst (call motionK_det a s) in
  option_map (fun o => fgt o f0) (nth_error (outputs motionK_det l) 32) = Some true /\
  (MotionK.fX s', MotionK.eX s') = (dec32 5 1, f1) /\
  (MotionK.fX s', MotionK.eX s') <>
    kalman (MotionK.Q a) (MotionK.R a) (MotionK.x a) (MotionK.fX s, MotionK.eX s).
Proof.
  vm_compute. repeat split. discriminate.
Qed.

(** ** division by the norm *)

Lemma fdiv_zero_not_finite (x N : float) :
  is_zero N = true -> is_finite (fdiv x N) = false.
Proof.
  destruct N as [s|s| |s m e]; try discriminate. intros _.
  destruct x as [sx|sx| |sx mx ex]; reflexivity.
Qed.

Lemma normalize_zero_norm (v : vec3) :
  is_zero (vnorm v) = true ->
  forall i : axis, is_finite (get (normalize v) i) = false.
Proof.
  intros H i. unfold normalize. fold (vnorm v).
  destruct i; cbn [get vX vY vZ]; apply fdiv_zero_not_finite; exact H.
Qed.

Lemma round_not_negative (mx ex : Z) (lx : location) :
  flt (binary_round_aux prec32 emax32 false mx ex lx) f0 = false.
Proof.
  unfold binary_round_aux.
  destruct (shr_fexp prec32 emax32 mx ex lx) as [mrs' e'].
  destruct (shr_fexp prec32 emax32 _ e' loc_Exact) as [mrs'' e''].
  destruct (shr_m mrs'') as [|m|m]; try reflexivity.
  destruct (e'' <=? emax32 - prec32); reflexivity.
Qed.

(** [sqrtf] never returns a negative number. *)
Lemma sqrtf_not_negative (x : float) : flt (sqrtf x) f0 = false.
Proof.
  destruct x as [s|[|]| |[|] m e]; try reflexivity.
  unfold sqrtf, SFsqrt.
  destruct (SFsqrt_core_binary prec32 emax32 (Z.pos m) e) as [[mz ez] lz].
  apply round_not_negative.
Qed.

(** ** the counter of the orientation estimators *)

Lemma silent_counter_run {Out} (D : detector Out) :
  counter_step D (fun _ _ => false) ->
  forall l s, 0 <= counter D s <= CNTSETUP ->
    counter D (fst (run D l s)) = Z.min CNTSETUP (counter D s + Z.of_nat (length l)).
Proof.
  intros HS. induction l as [|a l IH]; intros s Hs.
  - cbn. unfold CNTSETUP in *. lia.
  - rewrite run_cons. cbn [fst length].
    destruct (HS a s Hs) as [Hlt Heq].
    destruct (Z.eq_dec (counter D s) CNTSETUP) as [E|E].
    + destruct (Heq E) as [F | [_ F]]; [|discriminate F].
      rewrite IH by (rewrite F; unfold CNTSETUP; lia).
      rewrite F. unfold CNTSETUP in *. lia.
    + rewrite IH by (rewrite Hlt; unfold CNTSETUP in *; lia).
      rewrite Hlt by lia. unfold CNTSETUP in *. lia.
Qed.

Lemma orientLP_warmed_up atan2f (l : list (arg (orientLP_det atan2f))) :
  (Z.to_nat CNTSETUP <= length l)%nat ->
  OrientLP.setup (final (orientLP_det atan2f) l) = CNTSETUP.
Proof.
  intros Hl. unfold final.
  change (counter (orientLP_det atan2f)
            (fst (run (orientLP_det atan2f) l (start (orientLP_det atan2f)))) = CNTSETUP).
  rewrite (silent_counter_run _ (orientLP_counter atan2f)).
  - cbn [counter start orientLP_det OrientLP.init OrientLP.setup].
    unfold CNTSETUP in *. change (Z.to_nat 32) with 32%nat in Hl. lia.
  - cbn. unfold CNTSETUP. lia.
Qed.

Lemma orientK_warmed_up atan2f (l : list (arg (orientK_det atan2f))) :
  (Z.to_nat CNTSETUP <= length l)%nat ->
  OrientK.setup (final (orientK_det atan2f) l) = CNTSETUP.
Proof.
  intros Hl. unfold final.
  change (counter (orientK_det atan2f)
            (fst (run (orientK_det atan2f) l (start (orientK_det atan2f)))) = CNTSETUP).
  rewrite (silent_counter_run _ (orientK_counter atan2f)).
  - cbn [counter start orientK_det OrientK.init OrientK.setup].
    unfold CNTSETUP in *. change (Z.to_nat 32) with 32%nat in Hl. lia.
  - cbn. unfold CNTSETUP. lia.
Qed.

(** ** the ready branch of the orientation estimators *)

Lemma orientLP_ready atan2f (a : OrientLP.args) (s : OrientLP.state) :
  fst (snd (call (orientLP_det atan2f) a s)) = 0 ->
  call (orientLP_det atan2f) a s =
  (let '(A, M) := orientLP_filtered a s in
   (OrientLP.mk (OrientLP.setup s)
      (vX (normalize A)) (vY (normalize A)) (vZ (normalize A))
      (vX (normalize M)) (vY (normalize M)) (vZ (normalize M)),
    (0, Some (tilt_compass atan2f A M)))).
Proof.
  destruct s as [setup aX aY aZ mX mY mZ].
  cbn [call orientLP_det OrientLP.setup]. unfold orientLP.
  int_cases; cbn [fst snd]; intros Hret; try discriminate Hret.
  reflexivity.
Qed.

Lemma orientLP_ready_at atan2f (a : OrientLP.args) (s : OrientLP.state) :
  OrientLP.setup s = CNTSETUP ->
  fst (snd (call (orientLP_det atan2f) a s)) = 0.
Proof.
  destruct s as [setup aX aY aZ mX mY mZ]. cbn [OrientLP.setup]. intros ->.
  reflexivity.
Qed.

Lemma orientK_ready atan2f (a : OrientK.args) (s : OrientK.state) :
  fst (snd (call (orientK_det atan2f) a s)) = 0 ->
  call (orientK_det atan2f) a s =
  (let '(A, M, eA, eM) := orientK_filtered a s in
   (OrientK.mk (OrientK.setup s) (normalize A) (normalize M) eA eM,
    (0, Some (tilt_compass atan2f A M)))).
Proof.
  destruct s as [setup fA fM eA eM].
  unfold orientK_filtered. cbn [call orientK_det]. unfold orientK.
  cbn [OrientK.fA OrientK.fM OrientK.eA OrientK.eM OrientK.setup].
  destruct (kalman_loop _ _ _ _ _ _) as [[[A M] eA'] eM'].
  int_cases; cbn [fst snd]; intros Hret; try discriminate Hret.
  reflexivity.
Qed.

Lemma orientK_ready_at atan2f (a : OrientK.args) (s : OrientK.state) :
  OrientK.setup s = CNTSETUP ->
  fst (snd (call (orientK_det atan2f) a s)) = 0.
Proof.
  destruct s as [setup fA fM eA eM]. cbn [OrientK.setup]. intros ->.
  cbn [call orientK_det]. unfold orientK.
  destruct (kalman_loop _ _ _ _ _ _) as [[[A M] eA'] eM'].
  reflexivity.
Qed.

(** ** how far rounding can move a product *)

Lemma shr_1_half (mrs : shr_record) :
  0 <= shr_m mrs -> shr_m (shr_1 mrs) = shr_m mrs / 2.
Proof.
  destruct mrs as [m r s]. cbn [shr_m]. intros Hm.
  rewrite <- Z.div2_div.
  destruct m as [|[p|p|]|p]; try reflexivity. lia.
Qed.

Lemma iter_shr_1_div (p : positive) (mrs : shr_record) :
  0 <= shr_m mrs -> shr_m (iter_pos shr_1 p mrs) = shr_m mrs / 2 ^ Z.pos p.
Proof.
  revert mrs. induction p as [p IH | p IH |]; intros mrs Hm; cbn [iter_pos].
  - rewrite IH by (apply iter_shr_1_nonneg, shr_1_nonneg, Hm).
    rewrite IH by (apply shr_1_nonneg, Hm).
    rewrite shr_1_half by exact Hm.
    rewrite !Z.div_div by lia.
    f_equal. rewrite Pos2Z.inj_xI.
    replace (2 * Z.pos p + 1) with (1 + Z.pos p + Z.pos p) by lia.
    rewrite !Z.pow_add_r by lia. change (2 ^ 1) with 2. lia.
  - rewrite IH by (apply iter_shr_1_nonneg, Hm).
    rewrite IH by exact Hm.
    rewrite !Z.div_div by lia.
    f_equal. rewrite <- Z.pow_add_r by lia. f_equal. lia.
  - rewrite shr_1_half by exact Hm. reflexivity.
Qed.

Lemma digits2_pos_bounds (p : positive) :
  2 ^ (Z.pos (digits2_pos p) - 1) <= Z.pos p < 2 ^ Z.pos (digits2_pos p).
Proof.
  induction p as [p IH | p IH |]; cbn [digits2_pos].
  - rewrite Pos2Z.inj_succ.
    replace (Z.succ (Z.pos (digits2_pos p)) - 1) with (Z.succ (Z.pos (digits2_pos p) - 1)) by lia.
    rewrite !Z.pow_succ_r by lia. lia.
  - rewrite Pos2Z.inj_succ.
    replace (Z.succ (Z.pos (digits2_pos p)) - 1) with (Z.succ (Z.pos (digits2_pos p) - 1)) by lia.
    rewrite !Z.pow_succ_r by lia. lia.
  - cbn. lia.
Qed.

Lemma round_nearest_even_bounds (m : Z) (l : location) :
  m <= round_nearest_even m l <= m + 1.
Proof.
  destruct l as [|[]]; cbn; try lia. destruct (Z.even m); lia.
Qed.

Lemma shr_m_of_loc (m : Z) (l : location) : shr_m (shr_record_of_loc m l) = m.
Proof. destruct l as [|[]]; reflexivity. Qed.

Lemma fexp32_eq z : fexp prec32 emax32 z = fexp32 z.
Proof. reflexivity. Qed.

(** The truncation at the start of a rounding: the mantissa loses
    [fexp32 (digits + e) - e] bits when that is positive, none otherwise. *)
Lemma shr_fexp_spec (m e : Z) (l : location) :
  0 <= m ->
  let n := fexp32 (Zdigits2 m + e) - e in
  shr_m (fst (shr_fexp prec32 emax32 m e l)) = (if 0 <? n then m / 2 ^ n else m) /\
  snd (shr_fexp prec32 emax32 m e l) = (if 0 <? n then e + n else e).
Proof.
  intros Hm n. unfold shr_fexp, shr. rewrite fexp32_eq. fold n.
  destruct n as [|p|p]; cbn [fst snd]; rewrite ?shr_m_of_loc.
  - split; reflexivity.
  - rewrite iter_shr_1_div by (rewrite shr_m_of_loc; exact Hm).
    rewrite shr_m_of_loc. split; reflexivity.
  - split; reflexivity.
Qed.

Lemma digits2_pos_le (p : positive) (n : Z) :
  Z.pos p < 2 ^ n -> Z.pos (digits2_pos p) <= n.
Proof.
  intros H. pose proof (digits2_pos_bounds p) as [Hl _].
  destruct (Z_le_gt_dec (Z.pos (digits2_pos p)) n) as [|Hgt]; [assumption | exfalso].
  assert (0 <= n) by (destruct n; [lia | lia | cbn in H; lia]).
  pose proof (Z.pow_le_mono_r 2 n (Z.pos (digits2_pos p) - 1) ltac:(lia) ltac:(lia)).
  lia.
Qed.

(** Comparing the magnitude of a finite number with a positive bound. *)
Lemma finite_abs_le (sx : bool) (m : positive) (e : Z) (B : positive) (K : Z) :
  e < K \/ (e = K /\ Z.pos m <= Z.pos B) ->
  fle (fabsf (S754_finite sx m e)) (S754_finite false B K) = true.
Proof.
  unfold fle, fabsf, SFleb, SFabs, SFcompare.
  intros [H | [-> H]].
  - rewrite (proj2 (Z.compare_lt_iff e K) H). reflexivity.
  - rewrite Z.compare_refl.
    change (Pos.compare_cont Eq m B) with (Pos.compare m B).
    destruct (Pos.compare_spec m B); try reflexivity. lia.
Qed.

Lemma finite_abs_le_inv (sx : bool) (m : positive) (e : Z) (B : positive) (K : Z) :
  fle (fabsf (S754_finite sx m e)) (S754_finite false B K) = true ->
  e < K \/ (e = K /\ Z.pos m <= Z.pos B).
Proof.
  unfold fle, fabsf, SFleb, SFabs, SFcompare.
  destruct (Z.compare_spec e K) as [-> | H | H]; try discriminate; try (left; assumption).
  change (Pos.compare_cont Eq m B) with (Pos.compare m B).
  destruct (Pos.compare_spec m B); try discriminate; right; split; lia.
Qed.

(** The last step of a rounding, against a bound. *)
Lemma rounded_abs_le (sx : bool) (m e : Z) (B : positive) (K : Z) :
  K <= emax32 - prec32 -> 0 <= m ->
  m = 0 \/ e < K \/ (e = K /\ m <= Z.pos B) ->
  fle (fabsf match m with
             | 0 => S754_zero sx
             | Z.pos p => if e <=? emax32 - prec32 then S754_finite sx p e
                          else S754_infinity sx
             | Z.neg _ => S754_nan
             end) (S754_finite false B K) = true.
Proof.
  intros HK Hm H. destruct m as [|p|p]; [reflexivity | | lia].
  destruct H as [H | H]; [discriminate |].
  replace (e <=? emax32 - prec32) with true by (symmetry; apply Z.leb_le; lia).
  apply finite_abs_le. exact H.
Qed.

(** Rounding [P * 2^ex] stays below [B * 2^K], for a bound [B] of 24 bits,
    when the exponent left by the first truncation is below [K], or is [K]
    with a truncated mantissa below [B]. *)
Lemma round_abs_le (sx : bool) (P : positive) (ex : Z) (B : positive) (K : Z) :
  K <= emax32 - prec32 -> 2 ^ 23 <= Z.pos B < 2 ^ 24 ->
  let E1 := Z.max ex (fexp32 (Z.pos (digits2_pos P) + ex)) in
  E1 < K \/ (E1 = K /\ ex < K /\ Z.pos P < 2 ^ (K - ex) * Z.pos B) ->
  fle (fabsf (binary_round_aux prec32 emax32 sx (Z.pos P) ex loc_Exact))
      (S754_finite false B K) = true.
Proof.
  intros HK HB E1 H. unfold binary_round_aux.
  pose proof (shr_fexp_spec (Z.pos P) ex loc_Exact ltac:(lia)) as [Hq He].
  pose proof (shr_fexp_nonneg (Z.pos P) ex loc_Exact ltac:(lia)) as Hq0.
  cbn [Zdigits2] in Hq, He.
  destruct (shr_fexp prec32 emax32 (Z.pos P) ex loc_Exact) as [mrs' e'].
  cbn [fst snd] in Hq, He, Hq0.
  set (n1 := fexp32 (Z.pos (digits2_pos P) + ex) - ex) in *.
  pose proof (digits2_pos_bounds P) as [_ HP].
  assert (He' : e' = E1) by (rewrite He; unfold E1; destruct (Z.ltb_spec 0 n1) as [Hn | Hn];
        unfold n1 in *; lia).
  assert (HE1 : -149 <= E1) by (unfold E1, fexp32; lia).
  assert (Hq' : (E1 < K /\ shr_m mrs' < 2 ^ 24) \/ (E1 = K /\ shr_m mrs' < Z.pos B)).
  { destruct H as [H | (H1 & H2 & H3)]; [left; split; [exact H |] | right; split; [exact H1 |]].
    - rewrite Hq. destruct (Z.ltb_spec 0 n1) as [Hn | Hn].
      + apply Z.div_lt_upper_bound; [lia |].
        rewrite <- Z.pow_add_r by lia.
        eapply Z.lt_le_trans; [exact HP |].
        apply Z.pow_le_mono_r; [lia |]. unfold n1, fexp32. lia.
      + eapply Z.lt_le_trans; [exact HP |].
        apply Z.pow_le_mono_r; [lia |]. unfold n1, fexp32 in Hn. lia.
    - rewrite Hq. assert (Hn : n1 = K - ex) by (unfold n1; unfold E1 in H1; lia).
      destruct (Z.ltb_spec 0 n1) as [Hn' | Hn']; [| lia].
      apply Z.div_lt_upper_bound; [lia |]. rewrite Hn. exact H3. }
  pose proof (round_nearest_even_bounds (shr_m mrs') (loc_of_shr_record mrs')) as HR.
  set (mx' := round_nearest_even (shr_m mrs') (loc_of_shr_record mrs')) in *.
  assert (Hm0 : 0 <= mx') by lia.
  pose proof (shr_fexp_spec mx' e' loc_Exact Hm0) as [Hq2 He2].
  pose proof (shr_fexp_nonneg mx' e' loc_Exact Hm0) as Hq20.
  destruct (shr_fexp prec32 emax32 mx' e' loc_Exact) as [mrs'' e''].
  cbn [fst snd] in Hq2, He2, Hq20.
  apply rounded_abs_le; [exact HK | exact Hq20 |].
  set (n2 := fexp32 (Zdigits2 mx' + e') - e') in *.
  destruct mx' as [|M|M] eqn:EM; [left | right | lia].
  { rewrite Hq2. destruct (0 <? n2); reflexivity. }
  cbn [Zdigits2] in n2.
  destruct Hq' as [[HE Hlt] | [HE Hlt]].
  - assert (Hd : Z.pos (digits2_pos M) <= 25)
      by (apply digits2_pos_le; change (2 ^ 25) with (2 * 2 ^ 24); lia).
    rewrite Hq2, He2. destruct (Z.ltb_spec 0 n2) as [Hn | Hn]; [| left; lia].
    assert (He3 : e' + n2 <= K) by (unfold n2, fexp32; lia).
    destruct (Z_lt_le_dec (e' + n2) K) as [|Hge]; [left; assumption | right].
    split; [lia |].
    assert (H2 : 2 ^ 1 <= 2 ^ n2) by (apply Z.pow_le_mono_r; lia).
    change (2 ^ 1) with 2 in H2.
    pose proof (Z.div_le_compat_l (Z.pos M) 2 (2 ^ n2) ltac:(lia) ltac:(lia)) as H3.
    assert (Z.pos M / 2 <= 2 ^ 23)
      by (apply Z.div_le_upper_bound; [lia | change (2 * 2 ^ 23) with (2 ^ 24); lia]).
    lia.
  - assert (Hd : Z.pos (digits2_pos M) <= 24) by (apply digits2_pos_le; lia).
    rewrite Hq2, He2.
    destruct (Z.ltb_spec 0 n2) as [Hn | Hn]; [unfold n2, fexp32 in Hn; lia |].
    right. split; lia.
Qed.

(** A binary32 number of magnitude at most float(pi/2) (for [k = -23]) or
    float(pi) (for [k = -22]), multiplied by [RAD2DEG], has magnitude at most
    90 or 180: the product of the two constants rounds to exactly 90 * 2^j. *)
Lemma fmul_RAD2DEG_le (x : float) (k : Z) :
  k = -23 \/ k = -22 ->
  valid_binary prec32 emax32 x = true ->
  fle (fabsf x) (S754_finite false 13176795 k) = true ->
  fle (fabsf (fmul x RAD2DEG)) (S754_finite false 11796480 (k + 6)) = true.
Proof.
  intros Hk Hv Hle.
  destruct x as [s | s | | s m e]; try discriminate.
  - destruct s; reflexivity.
  - apply finite_abs_le_inv in Hle.
    cbn [valid_binary] in Hv. unfold bounded, canonical_mantissa in Hv.
    apply andb_true_iff in Hv. destruct Hv as [Hc _].
    apply Z.eqb_eq in Hc. rewrite fexp32_eq in Hc.
    pose proof (digits2_pos_bounds m) as [_ Hm2].
    assert (Hd : Z.pos (digits2_pos (m * 15019745)) <= Z.pos (digits2_pos m) + 24).
    { apply digits2_pos_le. rewrite Z.pow_add_r by lia.
      rewrite Pos2Z.inj_mul. change (2 ^ 24) with 16777216.
      assert (0 < 2 ^ Z.pos (digits2_pos m)) by lia. nia. }
    assert (HK : k + 6 <= emax32 - prec32) by (destruct Hk; subst k; cbn; lia).
    destruct Hle as [Hlt | [-> Hle]].
    + unfold fmul, SFmul, RAD2DEG.
      apply round_abs_le; [exact HK | cbn; lia |].
      left. unfold fexp32 in *. lia.
    + destruct (Pos.eq_dec m 13176795) as [-> | Hm].
      { destruct Hk as [-> | ->], s; vm_compute; reflexivity. }
      unfold fmul, SFmul, RAD2DEG.
      apply round_abs_le; [exact HK | cbn; lia |].
      unfold fexp32 in *.
      destruct (Z_lt_le_dec
                  (Z.max (k + -18)
                     (Z.max (Z.pos (digits2_pos (m * 15019745)) + (k + -18) - 24) (-149)))
                  (k + 6)) as [Hl | Hg]; [left; exact Hl | right].
      split; [lia |]. split; [lia |].
      replace (k + 6 - (k + -18)) with 24 by lia.
      rewrite Pos2Z.inj_mul. change (2 ^ 24) with 16777216.
      assert (Z.pos m <= 13176794) by (assert (Z.pos m <> 13176795) by congruence; lia).
      nia.
Qed.

(** A magnitude below a positive bound puts the number between the bound and
    its opposite. *)
Lemma abs_le_between (p : float) (B : positive) (K : Z) :
  fle (fabsf p) (S754_finite false B K) = true ->
  fle (S754_finite true B K) p = true /\ fle p (S754_finite false B K) = true.
Proof.
  destruct p as [s | s | | s m e]; try discriminate.
  - intros _. destruct s; split; reflexivity.
  - intros H. destruct s; [| split; [reflexivity | exact H]].
    split; [| reflexivity].
    apply finite_abs_le_inv in H.
    unfold fle, SFleb, SFcompare.
    destruct H as [H | [-> H]].
    + rewrite (proj2 (Z.compare_gt_iff K e) H). reflexivity.
    + rewrite Z.compare_refl.
      change (Pos.compare_cont Eq B m) with (Pos.compare B m).
      destruct (Pos.compare_spec B m); try reflexivity. lia.
Qed.

(** ** the ranges of the angles *)

Lemma round_nonneg (mx ex : Z) (lx : location) :
  0 <= mx -> nonneg (binary_round_aux prec32 emax32 false mx ex lx) = true.
Proof.
  intros Hm. unfold binary_round_aux.
  pose proof (shr_fexp_nonneg mx ex lx Hm) as H1.
  destruct (shr_fexp prec32 emax32 mx ex lx) as [mrs' e']. cbn [fst] in H1.
  pose proof (shr_fexp_nonneg _ e' loc_Exact
                (round_nearest_even_nonneg _ (loc_of_shr_record mrs') H1)) as H2.
  destruct (shr_fexp prec32 emax32 _ e' loc_Exact) as [mrs'' e'']. cbn [fst] in H2.
  destruct (shr_m mrs'') as [|m|m]; [reflexivity | | lia].
  destruct (e'' <=? emax32 - prec32); reflexivity.
Qed.

Lemma nonneg_not_nan (x : float) : nonneg x = true -> is_nan x = false.
Proof. destruct x; [reflexivity | reflexivity | discriminate | reflexivity]. Qed.

Lemma fmul_self_nonneg (x : float) : is_nan x = false -> nonneg (fmul x x) = true.
Proof.
  destruct x as [[] | [] | | s m e]; try reflexivity; try discriminate.
  intros _. unfold fmul, SFmul. rewrite xorb_nilpotent.
  apply round_nonneg. lia.
Qed.

Lemma fadd_nonneg (a b : float) :
  nonneg a = true -> nonneg b = true -> nonneg (fadd a b) = true.
Proof.
  destruct a as [[] | [] | | [] ma ea], b as [[] | [] | | [] mb eb];
    try discriminate; try reflexivity.
  intros _ _. unfold fadd, SFadd. cbv zeta. cbn [cond_Zopp].
  rewrite <- Pos2Z.inj_add. cbn [binary_normalize]. unfold binary_round.
  destruct (shl_align _ _ _) as [mz ez]. apply round_nonneg. lia.
Qed.

Lemma sqrtf_nonneg (a : float) : nonneg a = true -> nonneg (sqrtf a) = true.
Proof.
  destruct a as [[] | [] | | [] m e]; try discriminate; try reflexivity.
  intros _. unfold sqrtf, SFsqrt.
  destruct (SFsqrt_core_binary prec32 emax32 (Z.pos m) e) as [[mz ez] lz] eqn:E.
  apply round_nonneg. unfold SFsqrt_core_binary in E. revert E. cbv zeta.
  match goal with
  | |- context [Z.sqrtrem ?a] =>
      pose proof (Z.sqrtrem_sqrt a) as Hs; pose proof (Z.sqrt_nonneg a) as Hn;
      destruct (Z.sqrtrem a) as [q r]
  end.
  cbn [fst] in Hs. intros E. injection E as <- _ _. lia.
Qed.

Lemma radius_nonneg (x y : float) :
  is_nan x = false -> is_nan y = false ->
  nonneg (sqrtf (fadd (fmul x x) (fmul y y))) = true.
Proof.
  intros Hx Hy. apply sqrtf_nonneg, fadd_nonneg; apply fmul_self_nonneg; assumption.
Qed.

Lemma has_nan_false (v : vec3) :
  has_nan v = false ->
  is_nan (vX v) = false /\ is_nan (vY v) = false /\ is_nan (vZ v) = false.
Proof.
  unfold has_nan. intros H.
  apply orb_false_iff in H. destruct H as [H Hz].
  apply orb_false_iff in H. destruct H as [Hx Hy]. auto.
Qed.

Lemma quarter_turn (atan2f : float -> float -> float) (y x : float) :
  atan2f_in_range atan2f -> is_nan y = false -> nonneg x = true ->
  tilt_in_range (fmul (atan2f y x) RAD2DEG) = true.
Proof.
  intros Hat Hy Hx.
  destruct (Hat y x Hy (nonneg_not_nan x Hx)) as (Hv & _ & Hh).
  pose proof (fmul_RAD2DEG_le _ (-23) (or_introl eq_refl) Hv (Hh Hx)) as H.
  apply abs_le_between in H. destruct H as [H1 H2].
  unfold tilt_in_range. apply andb_true_iff. split; [exact H1 | exact H2].
Qed.

Lemma half_turn (atan2f : float -> float -> float) (y x : float) :
  atan2f_in_range atan2f -> is_nan y = false -> is_nan x = false ->
  yaw_in_closed_range (fmul (atan2f y x) RAD2DEG) = true.
Proof.
  intros Hat Hy Hx.
  destruct (Hat y x Hy Hx) as (Hv & Hp & _).
  pose proof (fmul_RAD2DEG_le _ (-22) (or_intror eq_refl) Hv Hp) as H.
  apply abs_le_between in H. destruct H as [H1 H2].
  unfold yaw_in_closed_range. apply andb_true_iff. split; [exact H1 | exact H2].
Qed.

Lemma tilt_compass_ranges (atan2f : float -> float -> float) (A M : vec3) :
  atan2f_in_range atan2f ->
  (has_nan A = false ->
   tilt_in_range (pitch (tilt_compass atan2f A M)) = true /\
   tilt_in_range (roll (tilt_compass atan2f A M)) = true) /\
  (is_nan (heading_x A M) = false -> is_nan (heading_y A M) = false ->
   yaw_in_closed_range (yaw (tilt_compass atan2f A M)) = true).
Proof.
  intros Hat. split.
  - intros HA. apply has_nan_false in HA. destruct HA as (Hx & Hy & Hz).
    split; cbn [tilt_compass pitch roll]; apply quarter_turn;
      try assumption; apply radius_nonneg; assumption.
  - intros Hx Hy. apply (half_turn atan2f _ _ Hat Hy Hx).
Qed.

Lemma atan2f_on_axes_in_range : atan2f_in_range atan2f_on_axes.
Proof.
  intros y x Hy Hx.
  destruct y as [[] | [] | | [] my ey], x as [[] | [] | | [] mx ex];
    try discriminate; repeat split; intros; try reflexivity; try discriminate.
Qed.

(** ** orientation: the angles *)

Lemma tilt_compass_formulas atan2f (A M : vec3) :
  pitch (tilt_compass atan2f A M) = fmul (atan2f (vX A) (pitch_radius A)) RAD2DEG /\
  roll (tilt_compass atan2f A M) = fmul (atan2f (vY A) (roll_radius A)) RAD2DEG /\
  yaw (tilt_compass atan2f A M) =
    (let A' := normalize A in
     let M' := normalize M in
     let Mx := fsub (fmul (vX M') (vZ A')) (fmul (vZ M') (vX A')) in
     let My := fsub (fmul (vY M') (vZ A')) (fmul (vZ M') (vY A')) in
     fmul (atan2f My Mx) RAD2DEG).
Proof. repeat split. Qed.

Lemma orientLP_ready_call atan2f (a : OrientLP.args) (s : OrientLP.state) :
  OrientLP.setup s = CNTSETUP ->
  let '(A, M) := orientLP_filtered a s in
  snd (call (orientLP_det atan2f) a s) = (0, Some (tilt_compass atan2f A M)) /\
  OrientLP.setup (fst (call (orientLP_det atan2f) a s)) = CNTSETUP.
Proof.
  intros Hs.
  rewrite (orientLP_ready atan2f a s (orientLP_ready_at atan2f a s Hs)).
  destruct (orientLP_filtered a s) as [A M]. cbn [fst snd OrientLP.setup].
  split; [reflexivity | exact Hs].
Qed.

Lemma orientK_ready_call atan2f (a : OrientK.args) (s : OrientK.state) :
  OrientK.setup s = CNTSETUP ->
  let '(A, M, _, _) := orientK_filtered a s in
  snd (call (orientK_det atan2f) a s) = (0, Some (tilt_compass atan2f A M)) /\
  OrientK.setup (fst (call (orientK_det atan2f) a s)) = CNTSETUP.
Proof.
  intros Hs.
  rewrite (orientK_ready atan2f a s (orientK_ready_at atan2f a s Hs)).
  destruct (orientK_filtered a s) as [[[A M] eA] eM]. cbn [fst snd OrientK.setup].
  split; [reflexivity | exact Hs].
Qed.

(** C7 (amended). After warm-up (32 calls or more behind it) every call of
    orientLP and orientK is entered with [setup = 32], returns 0 (ready) and
    leaves [setup] at 32; on the filtered vectors it writes
    pitch = atan2f(a_x, sqrtf(a_y^2 + a_z^2)) * RAD2DEG,
    roll = atan2f(a_y, sqrtf(a_x^2 + a_z^2)) * RAD2DEG, then divides both
    vectors by their norms and writes yaw = atan2f(My, Mx) * RAD2DEG with
    Mx = m_x a_z - m_z a_x and My = m_y a_z - m_z a_y. The radius passed to
    atan2f for pitch and roll is never negative. With an [atan2f] that keeps
    the ranges of the C library (on arguments that are not NaN a binary32
    result of magnitude at most float(pi), and at most float(pi/2) when the
    second argument has its sign bit clear), pitch and roll lie in [-90, 90]
    whenever no component of the filtered accelerometer vector is NaN, and
    yaw lies in [-180, 180], both ends included, whenever Mx and My are not
    NaN. (Nothing is claimed about the length of the divided vectors.) *)
Theorem orientation_ready_formulas :
  (forall atan2f (a : OrientLP.args) (s : OrientLP.state),
     OrientLP.setup s = CNTSETUP ->
     let '(A, M) := orientLP_filtered a s in
     snd (call (orientLP_det atan2f) a s) = (0, Some (tilt_compass atan2f A M)) /\
     OrientLP.setup (fst (call (orientLP_det atan2f) a s)) = CNTSETUP) /\
  (forall atan2f (a : OrientK.args) (s : OrientK.state),
     OrientK.setup s = CNTSETUP ->
     let '(A, M, _, _) := orientK_filtered a s in
     snd (call (orientK_det atan2f) a s) = (0, Some (tilt_compass atan2f A M)) /\
     OrientK.setup (fst (call (orientK_det atan2f) a s)) = CNTSETUP) /\
  (forall atan2f (l : list (arg (orientLP_det atan2f))),
     (Z.to_nat CNTSETUP <= length l)%nat ->
     OrientLP.setup (final (orientLP_det atan2f) l) = CNTSETUP) /\
  (forall atan2f (l : list (arg (orientK_det atan2f))),
     (Z.to_nat CNTSETUP <= length l)%nat ->
     OrientK.setup (final (orientK_det atan2f) l) = CNTSETUP) /\
  (forall atan2f (A M : vec3),
     pitch (tilt_compass atan2f A M) = fmul (atan2f (vX A) (pitch_radius A)) RAD2DEG /\
     roll (tilt_compass atan2f A M) = fmul (atan2f (vY A) (roll_radius A)) RAD2DEG /\
     yaw (tilt_compass atan2f A M) =
       (let A' := normalize A in
        let M' := normalize M in
        let Mx := fsub (fmul (vX M') (vZ A')) (fmul (vZ M') (vX A')) in
        let My := fsub (fmul (vY M') (vZ A')) (fmul (vZ M') (vY A')) in
        fmul (atan2f My Mx) RAD2DEG)) /\
  (forall A : vec3,
     flt (pitch_radius A) f0 = false /\ flt (roll_radius A) f0 = false) /\
  (forall atan2f (A M : vec3), atan2f_in_range atan2f ->
     (has_nan A = false ->
      tilt_in_range (pitch (tilt_compass atan2f A M)) = true /\
      tilt_in_range (roll (tilt_compass atan2f A M)) = true) /\
     (is_nan (heading_x A M) = false -> is_nan (heading_y A M) = false ->
      yaw (tilt_compass atan2f A M) =
        fmul (atan2f (heading_y A M) (heading_x A M)) RAD2DEG /\
      yaw_in_closed_range (yaw (tilt_compass atan2f A M)) = true)).
Proof.
  split; [exact orientLP_ready_call |].
  split; [exact orientK_ready_call |].
  split; [exact orientLP_warmed_up |].
  split; [exact orientK_warmed_up |].
  split; [exact tilt_compass_formulas |].
  split; [intros A; split; apply sqrtf_not_negative |].
  intros atan2f A M Hat.
  destruct (tilt_compass_ranges atan2f A M Hat) as [Ht Hy].
  split; [exact Ht |].
  intros Hx Hy'. split; [reflexivity | exact (Hy Hx Hy')].
Qed.

(** The example of the specification, 33rd call: accelerometer (0, 0, 1 g),
    magnetometer (1, 0, 0). The call is ready and the three angles are
    atan2f(0, 1) * RAD2DEG. With gravity along X and the field along Z the
    33rd call writes pitch 90, roll 0 and yaw 180 under an arc tangent that
    is right on the half-axes: both ranges are reached at their upper end. *)
Lemma orientation_ready_formulas_witness :
  (forall atan2f,
     snd (call (orientLP_det atan2f) level_LP
            (final (orientLP_det atan2f) (repeat level_LP 32))) =
     (0, Some (tilt_compass atan2f (V3 f0 f0 f1) (V3 f1 f0 f0)))) /\
  (forall atan2f,
     tilt_compass atan2f (V3 f0 f0 f1) (V3 f1 f0 f0) =
     Angles (fmul (atan2f f0 f1) RAD2DEG) (fmul (atan2f f0 f1) RAD2DEG)
            (fmul (atan2f f0 f1) RAD2DEG)) /\
  (atan2f_in_range atan2f_on_axes /\
   snd (call (orientLP_det atan2f_on_axes) nose_up_LP
          (final (orientLP_det atan2f_on_axes) (repeat nose_up_LP 32))) =
     (0, Some (Angles (f32 90 0) f0 (f32 180 0))) /\
   tilt_in_range (pitch (tilt_compass atan2f_on_axes (V3 f1 f0 f0) (V3 f0 f0 f1))) = true /\
   tilt_in_range (roll (tilt_compass atan2f_on_axes (V3 f1 f0 f0) (V3 f0 f0 f1))) = true /\
   yaw_in_closed_range
     (yaw (tilt_compass atan2f_on_axes (V3 f1 f0 f0) (V3 f0 f0 f1))) = true).
Proof.
  split; [| split]; [intros atan2f | intros atan2f |].
  - pose proof (proj1 orientation_ready_formulas atan2f level_LP
                  (final (orientLP_det atan2f) (repeat level_LP 32)) eq_refl) as H.
    assert (E : orientLP_filtered level_LP
                  (final (orientLP_det atan2f) (repeat level_LP 32))
                = (V3 f0 f0 f1, V3 f1 f0 f0)) by (vm_compute; reflexivity).
    rewrite E in H. exact (proj1 H).
  - reflexivity.
  - split; [exact atan2f_on_axes_in_range |].
    split.
    + pose proof (proj1 orientation_ready_formulas atan2f_on_axes nose_up_LP
                    (final (orientLP_det atan2f_on_axes) (repeat nose_up_LP 32))
                    eq_refl) as H.
      assert (E : orientLP_filtered nose_up_LP
                    (final (orientLP_det atan2f_on_axes) (repeat nose_up_LP 32))
                  = (V3 f1 f0 f0, V3 f0 f0 f1)) by (vm_compute; reflexivity).
      rewrite E in H. exact (proj1 H).
    + pose proof (proj2 (proj2 (proj2 (proj2 (proj2 (proj2
                    orientation_ready_formulas)))))
                    atan2f_on_axes (V3 f1 f0 f0) (V3 f0 f0 f1)
                    atan2f_on_axes_in_range) as [Ht Hy].
      destruct (Ht eq_refl) as [Hp Hr].
      destruct (Hy eq_refl eq_refl) as [_ Hyaw].
      split; [exact Hp | split; [exact Hr | exact Hyaw]].
Defined.

(** C7 as stated fails in three ways.
    - On the all-zero sample the 33rd call is ready, but the vectors it
      divided are not of unit length (their norm is NaN), and the yaw it
      writes is atan2f(NaN, NaN) * RAD2DEG: with an [atan2f] that returns NaN
      on NaN this is NaN, outside (-180, 180].
    - With a NaN on the X axis of the accelerometer the 33rd call is ready
      and writes pitch = atan2f(NaN, 1) * RAD2DEG, outside [-90, 90] for such
      an [atan2f].
    - With gravity along Z and the magnetic field (-1, -0, 0) the 33rd call
      is ready and writes yaw = atan2f(-0, -1) * RAD2DEG; the C standard has
      atan2f(-0, x) = -pi for x < 0, in binary32 -float(pi), and the product
      is exactly -180, the end the interval (-180, 180] leaves out. *)
Lemma orientation_zero_sample_yaw_out_of_range :
  (forall atan2f,
     snd (call (orientLP_det atan2f) zeros_LP
            (final (orientLP_det atan2f) (repeat zeros_LP 32))) =
       (0, Some (tilt_compass atan2f vzero vzero)) /\
     yaw (tilt_compass atan2f vzero vzero) =
       fmul (atan2f S754_nan S754_nan) RAD2DEG /\
     (is_nan (atan2f S754_nan S754_nan) = true ->
      yaw_in_range (yaw (tilt_compass atan2f vzero vzero)) = false) /\
     feq (vnorm (normalize vzero)) f1 = false) /\
  (forall atan2f,
     snd (call (orientK_det atan2f) zeros_K
            (final (orientK_det atan2f) (repeat zeros_K 32))) =
       (0, Some (tilt_compass atan2f vzero vzero))) /\
  (forall atan2f,
     snd (call (orientLP_det atan2f) nan_orientLP
            (final (orientLP_det atan2f) (repeat nan_orientLP 32))) =
       (0, Some (tilt_compass atan2f (V3 S754_nan f0 f1) (V3 f1 f0 f0))) /\
     pitch (tilt_compass atan2f (V3 S754_nan f0 f1) (V3 f1 f0 f0)) =
       fmul (atan2f S754_nan f1) RAD2DEG /\
     (is_nan (atan2f S754_nan f1) = true ->
      tilt_in_range (pitch (tilt_compass atan2f (V3 S754_nan f0 f1) (V3 f1 f0 f0)))
      = false)) /\
  (forall atan2f,
     snd (call (orientLP_det atan2f) south_LP
            (final (orientLP_det atan2f) (repeat south_LP 32))) =
       (0, Some (tilt_compass atan2f (V3 f0 f0 f1)
                   (V3 (f32 (-1) 0) (S754_zero true) f0))) /\
     yaw (tilt_compass atan2f (V3 f0 f0 f1) (V3 (f32 (-1) 0) (S754_zero true) f0)) =
       fmul (atan2f (S754_zero true) (f32 (-1) 0)) RAD2DEG /\
     (atan2f (S754_zero true) (f32 (-1) 0) = SFopp PI_F ->
      yaw (tilt_compass atan2f (V3 f0 f0 f1) (V3 (f32 (-1) 0) (S754_zero true) f0))
      = f32 (-180) 0)) /\
  atan2f_on_axes (S754_zero true) (f32 (-1) 0) = SFopp PI_F /\
  yaw_in_range (f32 (-180) 0) = false /\
  yaw_in_range
    (yaw (tilt_compass atan2f_on_axes (V3 f0 f0 f1)
            (V3 (f32 (-1) 0) (S754_zero true) f0))) = false.
Proof.
  split; [| split; [| split; [| split]]]; try intros atan2f.
  - split; [|split; [reflexivity | split; [|reflexivity]]].
    + pose proof (orientLP_ready_call atan2f zeros_LP
                    (final (orientLP_det atan2f) (repeat zeros_LP 32)) eq_refl) as H.
      assert (E : orientLP_filtered zeros_LP
                    (final (orientLP_det atan2f) (repeat zeros_LP 32))
                  = (vzero, vzero)) by (vm_compute; reflexivity).
      rewrite E in H. exact (proj1 H).
    + change (yaw (tilt_compass atan2f vzero vzero))
        with (fmul (atan2f S754_nan S754_nan) RAD2DEG).
      destruct (atan2f S754_nan S754_nan); try discriminate. reflexivity.
  - pose proof (orientK_ready_call atan2f zeros_K
                  (final (orientK_det atan2f) (repeat zeros_K 32)) eq_refl) as H.
    assert (E : orientK_filtered zeros_K
                  (final (orientK_det atan2f) (repeat zeros_K 32))
                = (vzero, vzero,
                   snd (fst (orientK_filtered zeros_K
                     (final (orientK_det atan2f) (repeat zeros_K 32)))),
                   snd (orientK_filtered zeros_K
                     (final (orientK_det atan2f) (repeat zeros_K 32)))))
      by (vm_compute; reflexivity).
    rewrite E in H. exact (proj1 H).
  - split; [| split; [reflexivity |]].
    + pose proof (orientLP_ready_call atan2f nan_orientLP
                    (final (orientLP_det atan2f) (repeat nan_orientLP 32)) eq_refl) as H.
      assert (E : orientLP_filtered nan_orientLP
                    (final (orientLP_det atan2f) (repeat nan_orientLP 32))
                  = (V3 S754_nan f0 f1, V3 f1 f0 f0)) by (vm_compute; reflexivity).
      rewrite E in H. exact (proj1 H).
    + change (pitch (tilt_compass atan2f (V3 S754_nan f0 f1) (V3 f1 f0 f0)))
        with (fmul (atan2f S754_nan f1) RAD2DEG).
      destruct (atan2f S754_nan f1); try discriminate. reflexivity.
  - split; [| split; [reflexivity |]].
    + pose proof (orientLP_ready_call atan2f south_LP
                    (final (orientLP_det atan2f) (repeat south_LP 32)) eq_refl) as H.
      assert (E : orientLP_filtered south_LP
                    (final (orientLP_det atan2f) (repeat south_LP 32))
                  = (V3 f0 f0 f1, V3 (f32 (-1) 0) (S754_zero true) f0))
        by (vm_compute; reflexivity).
      rewrite E in H. exact (proj1 H).
    + intros E.
      change (yaw (tilt_compass atan2f (V3 f0 f0 f1)
                     (V3 (f32 (-1) 0) (S754_zero true) f0)))
        with (fmul (atan2f (S754_zero true) (f32 (-1) 0)) RAD2DEG).
      rewrite E. vm_compute. reflexivity.
  - vm_compute. repeat split.
Qed.

(** ** orientation: what is stored *)

Lemma orientLP_stores_quotient atan2f (a : OrientLP.args) (s : OrientLP.state) :
  fst (snd (call (orientLP_det atan2f) a s)) = 0 ->
  let '(A, M) := orientLP_filtered a s in
  let s' := fst (call (orientLP_det atan2f) a s) in
  orientLP_acc s' = normalize A /\
  orientLP_mag s' = normalize M /\
  (forall a' : OrientLP.args,
     orientLP_filtered a' s' =
     (lowpass3 (OrientLP.alpha a') (OrientLP.a a') (normalize A),
      lowpass3 (OrientLP.alpha a') (OrientLP.m a') (normalize M))).
Proof.
  intros H. rewrite (orientLP_ready atan2f a s H).
  destruct (orientLP_filtered a s) as [A M]. cbn [fst].
  assert (EA : orientLP_acc
                 (OrientLP.mk (OrientLP.setup s)
                    (vX (normalize A)) (vY (normalize A)) (vZ (normalize A))
                    (vX (normalize M)) (vY (normalize M)) (vZ (normalize M)))
               = normalize A) by (destruct (normalize A); reflexivity).
  assert (EM : orientLP_mag
                 (OrientLP.mk (OrientLP.setup s)
                    (vX (normalize A)) (vY (normalize A)) (vZ (normalize A))
                    (vX (normalize M)) (vY (normalize M)) (vZ (normalize M)))
               = normalize M) by (destruct (normalize M); reflexivity).
  split; [exact EA | split; [exact EM |]].
  intros a'. unfold orientLP_filtered. rewrite EA, EM. reflexivity.
Qed.

Lemma orientK_stores_quotient atan2f (a : OrientK.args) (s : OrientK.state) :
  fst (snd (call (orientK_det atan2f) a s)) = 0 ->
  let '(A, M, eA, eM) := orientK_filtered a s in
  let s' := fst (call (orientK_det atan2f) a s) in
  OrientK.fA s' = normalize A /\
  OrientK.fM s' = normalize M /\
  (forall a' : OrientK.args,
     orientK_filtered a' s' =
     kalman_loop [Axis.X; Axis.Y; Axis.Z] (OrientK.a a') (OrientK.m a')
       (OrientK.Q a') (OrientK.R a') (normalize A, normalize M, eA, eM)).
Proof.
  intros H. rewrite (orientK_ready atan2f a s H).
  destruct (orientK_filtered a s) as [[[A M] eA] eM]. cbn [fst].
  repeat split.
Qed.

(** C10 (amended). In every call of orientLP or orientK that returns 0
    (ready), the persisted filtered accelerometer and magnetometer vectors are
    overwritten in place by their quotients by the norm, so after the call the
    statics hold the filtered vectors divided by their norms, and the filter
    update of the next call takes these quotients, not the undivided filtered
    values, as its previous state. (That the quotients have norm 1 is not
    claimed.) *)
Theorem orientation_state_divided_in_place :
  (forall atan2f (a : OrientLP.args) (s : OrientLP.state),
     fst (snd (call (orientLP_det atan2f) a s)) = 0 ->
     let '(A, M) := orientLP_filtered a s in
     let s' := fst (call (orientLP_det atan2f) a s) in
     orientLP_acc s' = normalize A /\
     orientLP_mag s' = normalize M /\
     (forall a' : OrientLP.args,
        orientLP_filtered a' s' =
        (lowpass3 (OrientLP.alpha a') (OrientLP.a a') (normalize A),
         lowpass3 (OrientLP.alpha a') (OrientLP.m a') (normalize M)))) /\
  (forall atan2f (a : OrientK.args) (s : OrientK.state),
     fst (snd (call (orientK_det atan2f) a s)) = 0 ->
     let '(A, M, eA, eM) := orientK_filtered a s in
     let s' := fst (call (orientK_det atan2f) a s) in
     OrientK.fA s' = normalize A /\
     OrientK.fM s' = normalize M /\
     (forall a' : OrientK.args,
        orientK_filtered a' s' =
        kalman_loop [Axis.X; Axis.Y; Axis.Z] (OrientK.a a') (OrientK.m a')
          (OrientK.Q a') (OrientK.R a') (normalize A, normalize M, eA, eM))).
Proof.
  split; [exact orientLP_stores_quotient | exact orientK_stores_quotient].
Qed.

(** The 33rd call: on the diagonal sample (1, 1, 1) orientLP stores
    (1, 1, 1) divided by sqrtf(3); on the level sample orientK stores
    (0, 0, 1) divided by its norm. *)
Lemma orientation_state_divided_in_place_witness :
  (forall atan2f,
     orientLP_acc
       (fst (call (orientLP_det atan2f) diag_LP
               (final (orientLP_det atan2f) (repeat diag_LP 32))))
     = normalize (V3 f1 f1 f1)) /\
  (forall atan2f,
     OrientK.fA
       (fst (call (orientK_det atan2f) level_K
               (final (orientK_det atan2f) (repeat level_K 32))))
     = normalize (V3 f0 f0 f1)).
Proof.
  split; intros atan2f.
  - pose proof (proj1 orientation_state_divided_in_place atan2f diag_LP
                  (final (orientLP_det atan2f) (repeat diag_LP 32)) eq_refl) as H.
    assert (E : orientLP_filtered diag_LP
                  (final (orientLP_det atan2f) (repeat diag_LP 32))
                = (V3 f1 f1 f1, V3 f1 f0 f0)) by (vm_compute; reflexivity).
    rewrite E in H. exact (proj1 H).
  - pose proof (proj2 orientation_state_divided_in_place atan2f level_K
                  (final (orientK_det atan2f) (repeat level_K 32)) eq_refl) as H.
    destruct (orientK_filtered level_K _) as [[[A M] eA] eM] eqn:E.
    vm_compute in E. injection E as <- _ _ _. exact (proj1 H).
Defined.

(** C10 as stated fails: the stored vectors need not have unit norm. On the
    all-zero sample the 33rd call stores NaN in every component (0/0), for
    orientLP and orientK alike; on the diagonal sample (1, 1, 1) it stores
    0.57735026 three times, whose norm as the routines compute it is
    0.99999994, not 1. *)
Lemma orientation_state_not_unit_norm :
  (forall atan2f,
     let s' := fst (call (orientLP_det atan2f) zeros_LP
                      (final (orientLP_det atan2f) (repeat zeros_LP 32))) in
     orientLP_acc s' = vnan /\ orientLP_mag s' = vnan /\
     feq (vnorm (orientLP_acc s')) f1 = false) /\
  (forall atan2f,
     let s' := fst (call (orientK_det atan2f) zeros_K
                      (final (orientK_det atan2f) (repeat zeros_K 32))) in
     OrientK.fA s' = vnan /\ OrientK.fM s' = vnan /\
     feq (vnorm (OrientK.fA s')) f1 = false) /\
  (forall atan2f,
     let s' := fst (call (orientLP_det atan2f) diag_LP
                      (final (orientLP_det atan2f) (repeat diag_LP 32))) in
     orientLP_acc s' = V3 (f32 9686330 (-24)) (f32 9686330 (-24)) (f32 9686330 (-24)) /\
     vnorm (orientLP_acc s') = f32 16777215 (-24) /\
     feq (vnorm (orientLP_acc s')) f1 = false).
Proof.
  split; [|split]; intros atan2f; vm_compute; repeat split.
Qed.

(** ** the division by the norm is not guarded *)

Lemma orientLP_unguarded atan2f (a : OrientLP.args) (s : OrientLP.state) :
  OrientLP.setup s = CNTSETUP ->
  let '(A, M) := orientLP_filtered a s in
  let r := call (orientLP_det atan2f) a s in
  fst (snd r) = 0 /\
  orientLP_acc (fst r) = normalize A /\
  orientLP_mag (fst r) = normalize M /\
  (is_zero (vnorm A) = true ->
   forall i : axis, is_finite (get (orientLP_acc (fst r)) i) = false) /\
  (is_zero (vnorm M) = true ->
   forall i : axis, is_finite (get (orientLP_mag (fst r)) i) = false).
Proof.
  intros Hs.
  pose proof (orientLP_ready_at atan2f a s Hs) as Hr.
  pose proof (orientLP_stores_quotient atan2f a s Hr) as Hq.
  destruct (orientLP_filtered a s) as [A M]. cbn zeta in *.
  destruct Hq as (EA & EM & _).
  split; [exact Hr | split; [exact EA | split; [exact EM | split]]].
  - rewrite EA. apply normalize_zero_norm.
  - rewrite EM. apply normalize_zero_norm.
Qed.

Lemma orientK_unguarded atan2f (a : OrientK.args) (s : OrientK.state) :
  OrientK.setup s = CNTSETUP ->
  let '(A, M, _, _) := orientK_filtered a s in
  let r := call (orientK_det atan2f) a s in
  fst (snd r) = 0 /\
  OrientK.fA (fst r) = normalize A /\
  OrientK.fM (fst r) = normalize M /\
  (is_zero (vnorm A) = true ->
   forall i : axis, is_finite (get (OrientK.fA (fst r)) i) = false) /\
  (is_zero (vnorm M) = true ->
   forall i : axis, is_finite (get (OrientK.fM (fst r)) i) = false).
Proof.
  intros Hs.
  pose proof (orientK_ready_at atan2f a s Hs) as Hr.
  pose proof (orientK_stores_quotient atan2f a s Hr) as Hq.
  destruct (orientK_filtered a s) as [[[A M] eA] eM]. cbn zeta in *.
  destruct Hq as (EA & EM & _).
  split; [exact Hr | split; [exact EA | split; [exact EM | split]]].
  - rewrite EA. apply normalize_zero_norm.
  - rewrite EM. apply normalize_zero_norm.
Qed.

Lemma inclineLP_unguarded acosf (a : InclineLP.args) (s : InclineLP.state) :
  InclineLP.setup s = CNTSETUP ->
  let A := inclineLP_filtered a s in
  let q := fdiv (vZ A) (vnorm A) in
  let theta := fmul (acosf q) RAD2DEG in
  snd (call (inclineLP_det acosf) a s) =
    (if fgt theta (fabsf (InclineLP.delta a)) then theta else f0) /\
  (is_zero (vnorm A) = true -> is_finite q = false).
Proof.
  destruct s as [setup aX aY aZ]. cbn [InclineLP.setup]. intros ->.
  cbn zeta. split.
  - cbn [call inclineLP_det]. unfold inclineLP, inclineLP_filtered, lowpass3, vnorm.
    cbn [InclineLP.aX InclineLP.aY InclineLP.aZ vX vY vZ].
    change (CNTSETUP =? 0) with false. change (CNTSETUP <? CNTSETUP) with false.
    cbv iota. bool_cases; reflexivity.
  - apply fdiv_zero_not_finite.
Qed.

(** On the all-zero sample the 33rd call of inclineLP hands NaN to [acosf];
    if [acosf] answers NaN the comparison with [|delta|] fails and the call
    returns [0.0F]. *)
Lemma inclineLP_zero_sample acosf :
  is_nan (acosf S754_nan) = true ->
  snd (call (inclineLP_det acosf) zeros_incline
         (final (inclineLP_det acosf) (repeat zeros_incline 32))) = f0.
Proof.
  intros Hnan.
  destruct (inclineLP_unguarded acosf zeros_incline
              (final (inclineLP_det acosf) (repeat zeros_incline 32)) eq_refl)
    as [H _].
  rewrite H.
  assert (E : fdiv (vZ (inclineLP_filtered zeros_incline
                          (final (inclineLP_det acosf) (repeat zeros_incline 32))))
                   (vnorm (inclineLP_filtered zeros_incline
                          (final (inclineLP_det acosf) (repeat zeros_incline 32))))
              = S754_nan) by (vm_compute; reflexivity).
  rewrite E. destruct (acosf S754_nan); try discriminate Hnan. reflexivity.
Qed.

(** C1 (amended). orientLP, orientK and inclineLP do not guard the division
    by the norm of the filtered vector. Every call of orientLP and orientK
    entered after warm-up returns 0 (ready) and stores the filtered vectors
    divided by their norms, whatever the norms are; when a norm is zero every
    stored component of that vector is NaN or infinite. Every call of inclineLP
    entered after warm-up passes a_z / |a| to acosf, compares the angle with
    |delta| and returns the angle or [0.0F]; when the norm is zero the
    quotient it passes is NaN or infinite. *)
Theorem normalization_is_not_guarded :
  (forall atan2f (a : OrientLP.args) (s : OrientLP.state),
     OrientLP.setup s = CNTSETUP ->
     let '(A, M) := orientLP_filtered a s in
     let r := call (orientLP_det atan2f) a s in
     fst (snd r) = 0 /\
     orientLP_acc (fst r) = normalize A /\
     orientLP_mag (fst r) = normalize M /\
     (is_zero (vnorm A) = true ->
      forall i : axis, is_finite (get (orientLP_acc (fst r)) i) = false) /\
     (is_zero (vnorm M) = true ->
      forall i : axis, is_finite (get (orientLP_mag (fst r)) i) = false)) /\
  (forall atan2f (a : OrientK.args) (s : OrientK.state),
     OrientK.setup s = CNTSETUP ->
     let '(A, M, _, _) := orientK_filtered a s in
     let r := call (orientK_det atan2f) a s in
     fst (snd r) = 0 /\
     OrientK.fA (fst r) = normalize A /\
     OrientK.fM (fst r) = normalize M /\
     (is_zero (vnorm A) = true ->
      forall i : axis, is_finite (get (OrientK.fA (fst r)) i) = false) /\
     (is_zero (vnorm M) = true ->
      forall i : axis, is_finite (get (OrientK.fM (fst r)) i) = false)) /\
  (forall acosf (a : InclineLP.args) (s : InclineLP.state),
     InclineLP.setup s = CNTSETUP ->
     let A := inclineLP_filtered a s in
     let q := fdiv (vZ A) (vnorm A) in
     let theta := fmul (acosf q) RAD2DEG in
     snd (call (inclineLP_det acosf) a s) =
       (if fgt theta (fabsf (InclineLP.delta a)) then theta else f0) /\
     (is_zero (vnorm A) = true -> is_finite q = false)).
Proof.
  split; [exact orientLP_unguarded |].
  split; [exact orientK_unguarded | exact inclineLP_unguarded].
Qed.

(** The 33rd call on the all-zero sample: no stored accelerometer component
    is finite, in orientLP and in orientK. *)
Lemma normalization_is_not_guarded_witness :
  (forall atan2f (i : axis),
     is_finite
       (get (orientLP_acc
               (fst (call (orientLP_det atan2f) zeros_LP
                       (final (orientLP_det atan2f) (repeat zeros_LP 32))))) i)
     = false) /\
  (forall atan2f (i : axis),
     is_finite
       (get (OrientK.fA
               (fst (call (orientK_det atan2f) zeros_K
                       (final (orientK_det atan2f) (repeat zeros_K 32))))) i)
     = false).
Proof.
  split; intros atan2f.
  - pose proof (proj1 normalization_is_not_guarded atan2f zeros_LP
                  (final (orientLP_det atan2f) (repeat zeros_LP 32)) eq_refl) as H.
    assert (E : orientLP_filtered zeros_LP
                  (final (orientLP_det atan2f) (repeat zeros_LP 32))
                = (vzero, vzero)) by (vm_compute; reflexivity).
    rewrite E in H. destruct H as (_ & _ & _ & H & _).
    apply H. reflexivity.
  - pose proof (proj1 (proj2 normalization_is_not_guarded) atan2f zeros_K
                  (final (orientK_det atan2f) (repeat zeros_K 32)) eq_refl) as H.
    destruct (orientK_filtered zeros_K _) as [[[A M] eA] eM] eqn:E.
    vm_compute in E. injection E as <- <- _ _.
    destruct H as (_ & _ & _ & H & _).
    apply H. reflexivity.
Defined.

(** C1 as stated fails: a zero norm is not treated as "no reading". After 32
    calls on the all-zero sample the filtered vectors of the 33rd call have
    norm zero; orientLP and orientK nevertheless return 0 (ready), write
    yaw = atan2f(NaN, NaN) * RAD2DEG, and overwrite the stored vectors with
    NaN. *)
Lemma zero_norm_reported_as_reading :
  (forall atan2f,
     let s := final (orientLP_det atan2f) (repeat zeros_LP 32) in
     let r := call (orientLP_det atan2f) zeros_LP s in
     is_zero (vnorm (fst (orientLP_filtered zeros_LP s))) = true /\
     fst (snd r) = 0 /\
     option_map yaw (snd (snd r)) = Some (fmul (atan2f S754_nan S754_nan) RAD2DEG) /\
     orientLP_acc (fst r) = vnan /\ orientLP_mag (fst r) = vnan) /\
  (forall atan2f,
     let s := final (orientK_det atan2f) (repeat zeros_K 32) in
     let r := call (orientK_det atan2f) zeros_K s in
     is_zero (vnorm (fst (fst (fst (orientK_filtered zeros_K s))))) = true /\
     fst (snd r) = 0 /\
     option_map yaw (snd (snd r)) = Some (fmul (atan2f S754_nan S754_nan) RAD2DEG) /\
     OrientK.fA (fst r) = vnan /\ OrientK.fM (fst r) = vnan).
Proof.
  split; intros atan2f s r.
  - assert (E : orientLP_filtered zeros_LP s = (vzero, vzero))
      by (vm_compute; reflexivity).
    assert (R : r = (OrientLP.mk CNTSETUP S754_nan S754_nan S754_nan
                                 S754_nan S754_nan S754_nan,
                     (0, Some (tilt_compass atan2f vzero vzero)))).
    { unfold r. rewrite (orientLP_ready atan2f zeros_LP s eq_refl), E.
      reflexivity. }
    rewrite E, R. repeat split.
  - assert (E : fst (fst (fst (orientK_filtered zeros_K s))) = vzero)
      by (vm_compute; reflexivity).
    assert (R : fst r = OrientK.mk CNTSETUP vnan vnan
                          (snd (fst (orientK_filtered zeros_K s)))
                          (snd (orientK_filtered zeros_K s))
                /\ snd r = (0, Some (tilt_compass atan2f vzero vzero))).
    { unfold r. rewrite (orientK_ready atan2f zeros_K s eq_refl).
      destruct (orientK_filtered zeros_K s) as [[[A M] eA] eM] eqn:F.
      vm_compute in F. injection F as <- <- <- <-. split; reflexivity. }
    destruct R as [R1 R2]. rewrite E, R1, R2. repeat split.
Qed.

(** * The rest of lsm303algo.c: results *)

(** ** a machine that has gone silent *)

Lemma absorbing_run {Out} (D : detector Out) (dead : st D -> Prop) (P : Out -> Prop) :
  (forall a s, dead s -> P (snd (call D a s)) /\ dead (fst (call D a s))) ->
  forall l s, dead s -> Forall P (snd (run D l s)).
Proof.
  intros Hd. induction l as [|a l IH]; intros s Hs.
  - constructor.
  - rewrite run_cons. cbn [snd]. destruct (Hd a s Hs) as [Ho Hs'].
    constructor; [exact Ho | apply IH; exact Hs'].
Qed.

Lemma absorbed_from {Out} (D : detector Out) (bad : arg D -> bool)
  (dead : st D -> Prop) (P : Out -> Prop) :
  counter_bounded D ->
  (forall a s, 0 <= counter D s <= CNTSETUP -> bad a = true ->
               P (snd (call D a s)) /\ dead (fst (call D a s))) ->
  (forall a s, dead s -> P (snd (call D a s)) /\ dead (fst (call D a s))) ->
  forall (l1 l2 : list (arg D)) (a : arg D),
    bad a = true ->
    Forall P (skipn (length l1) (outputs D (l1 ++ a :: l2))).
Proof.
  intros Hb Hin Hd l1 l2 a Ha.
  rewrite skipn_outputs, run_cons. cbn [snd].
  destruct (Hin a (final D l1) (Hb l1) Ha) as [Ho Hs].
  constructor; [exact Ho | apply (absorbing_run D dead P Hd); exact Hs].
Qed.

(** ** a NaN sample silences the trigger detectors *)

Ltac nan_found :=
  unfold has_nan; cbn [vX vY vZ is_nan orb]; rewrite ?orb_true_r; reflexivity.

Ltac nan_branch :=
  unfold CNTSETUP in *; autorewrite with nan;
  int_cases; try lia; cbn [fst snd]; autorewrite with nan; cbn [fst snd];
  (split; [reflexivity | split; [rewrite ?u8_small by lia; cbn; lia | nan_found]]).

Lemma motionLP_dead_step a s :
  motionLP_dead s ->
  snd (call motionLP_det a s) = f0 /\ motionLP_dead (fst (call motionLP_det a s)).
Proof.
  destruct s as [setup smpl pX pY pZ fX fY fZ]. unfold motionLP_dead.
  cbn. intros [Hs Hn]. apply has_nan_cases in Hn. cbn in Hn. unfold motionLP.
  destruct Hn as [-> | [-> | ->]]; nan_branch.
Qed.

Lemma motionLP_nan_sample a s :
  0 <= counter motionLP_det s <= CNTSETUP -> has_nan (motionLP_sample a) = true ->
  snd (call motionLP_det a s) = f0 /\ motionLP_dead (fst (call motionLP_det a s)).
Proof.
  destruct s as [setup smpl pX pY pZ fX fY fZ], a as [x y z alpha delta sample].
  unfold motionLP_dead, motionLP_sample.
  cbn. intros Hs Hn. apply has_nan_cases in Hn. cbn in Hn. unfold motionLP.
  destruct Hn as [-> | [-> | ->]]; nan_branch.
Qed.

Ltac kalman_split :=
  repeat match goal with
  | K : fst (kalman ?Q ?R ?x ?p) = S754_nan |- _ =>
      revert K; destruct (kalman Q R x p); cbn [fst]; intros K; subst
  | |- context [kalman ?Q ?R ?x ?p] => destruct (kalman Q R x p)
  end.

Lemma motionK_dead_step a s :
  motionK_dead s ->
  snd (call motionK_det a s) = f0 /\ motionK_dead (fst (call motionK_det a s)).
Proof.
  destruct s as [setup smpl fX fY fZ eX eY eZ pX pY pZ]. unfold motionK_dead.
  cbn. intros [Hs Hn]. apply has_nan_cases in Hn. cbn in Hn. unfold motionK.
  destruct Hn as [-> | [-> | ->]].
  - pose proof (kalman_nan_state (MotionK.Q a) (MotionK.R a) (MotionK.x a) eX).
    kalman_split. nan_branch.
  - pose proof (kalman_nan_state (MotionK.Q a) (MotionK.R a) (MotionK.y a) eY).
    kalman_split. nan_branch.
  - pose proof (kalman_nan_state (MotionK.Q a) (MotionK.R a) (MotionK.z a) eZ).
    kalman_split. nan_branch.
Qed.

Lemma motionK_nan_sample a s :
  0 <= counter motionK_det s <= CNTSETUP -> has_nan (motionK_sample a) = true ->
  snd (call motionK_det a s) = f0 /\ motionK_dead (fst (call motionK_det a s)).
Proof.
  destruct s as [setup smpl fX fY fZ eX eY eZ pX pY pZ],
           a as [x y z Q R E delta sample].
  unfold motionK_dead, motionK_sample.
  cbn. intros Hs Hn. apply has_nan_cases in Hn. cbn in Hn. unfold motionK.
  destruct Hn as [-> | [-> | ->]].
  - pose proof (kalman_nan_sample Q R fX eX). kalman_split. nan_branch.
  - pose proof (kalman_nan_sample Q R fY eY). kalman_split. nan_branch.
  - pose proof (kalman_nan_sample Q R fZ eZ). kalman_split. nan_branch.
Qed.

Lemma distortionLP_dead_step a s :
  distortionLP_dead s ->
  snd (call distortionLP_det a s) = f0 /\
  distortionLP_dead (fst (call distortionLP_det a s)).
Proof.
  destruct s as [setup aX aY aZ]. unfold distortionLP_dead.
  cbn. intros [Hs Hn]. apply has_nan_cases in Hn. cbn in Hn. unfold distortionLP.
  destruct Hn as [-> | [-> | ->]]; nan_branch.
Qed.

Lemma distortionLP_nan_sample a s :
  0 <= counter distortionLP_det s <= CNTSETUP ->
  has_nan (distortionLP_sample a) = true ->
  snd (call distortionLP_det a s) = f0 /\
  distortionLP_dead (fst (call distortionLP_det a s)).
Proof.
  destruct s as [setup aX aY aZ], a as [x y z alpha delta].
  unfold distortionLP_dead, distortionLP_sample.
  cbn. intros Hs Hn. apply has_nan_cases in Hn. cbn in Hn. unfold distortionLP.
  destruct Hn as [-> | [-> | ->]]; nan_branch.
Qed.

Lemma distortionHP_dead_step a s :
  distortionHP_dead s ->
  snd (call distortionHP_det a s) = f0 /\
  distortionHP_dead (fst (call distortionHP_det a s)).
Proof.
  destruct s as [setup iX iY iZ oX oY oZ M]. unfold distortionHP_dead.
  cbn. intros [Hs Hn]. apply has_nan_cases in Hn. cbn in Hn. unfold distortionHP.
  destruct Hn as [-> | [-> | ->]]; nan_branch.
Qed.

Lemma distortionHP_nan_sample a s :
  0 <= counter distortionHP_det s <= CNTSETUP ->
  has_nan (distortionHP_sample a) = true ->
  snd (call distortionHP_det a s) = f0 /\
  distortionHP_dead (fst (call distortionHP_det a s)).
Proof.
  destruct s as [setup iX iY iZ oX oY oZ M], a as [x y z alpha delta].
  unfold distortionHP_dead, distortionHP_sample.
  cbn. intros Hs Hn. apply has_nan_cases in Hn. cbn in Hn. unfold distortionHP.
  destruct Hn as [-> | [-> | ->]]; nan_branch.
Qed.

Lemma silenced_intro (D : detector float) (bad : arg D -> bool)
  (dead : st D -> Prop) :
  counter_bounded D ->
  (forall a s, 0 <= counter D s <= CNTSETUP -> bad a = true ->
               snd (call D a s) = f0 /\ dead (fst (call D a s))) ->
  (forall a s, dead s -> snd (call D a s) = f0 /\ dead (fst (call D a s))) ->
  silenced_by D bad.
Proof.
  intros Hb Hin Hd l1 l2 a Ha.
  exact (absorbed_from D bad dead (fun o => o = f0) Hb Hin Hd l1 l2 a Ha).
Qed.

(** The counter of each detector stays within bounds. *)
Lemma motionLP_bounded : counter_bounded motionLP_det.
Proof. eapply counter_step_bounded; [apply motionLP_counter | reflexivity]. Qed.
Lemma motionK_bounded : counter_bounded motionK_det.
Proof. eapply counter_step_bounded; [apply motionK_counter | reflexivity]. Qed.
Lemma distortionHP_bounded : counter_bounded distortionHP_det.
Proof. eapply counter_step_bounded; [apply distortionHP_counter | reflexivity]. Qed.
Lemma distortionLP_bounded : counter_bounded distortionLP_det.
Proof. eapply counter_step_bounded; [apply distortionLP_counter | reflexivity]. Qed.
Lemma orientLP_bounded atan2f : counter_bounded (orientLP_det atan2f).
Proof. eapply counter_step_bounded; [apply orientLP_counter | reflexivity]. Qed.
Lemma orientK_bounded atan2f : counter_bounded (orientK_det atan2f).
Proof. eapply counter_step_bounded; [apply orientK_counter | reflexivity]. Qed.

(** X1. A sample with a NaN component silences motionLP, motionK,
    distortionHP and distortionLP for good: the call that gets it and every
    call after it return [0.0F], whatever the later samples, thresholds and
    coefficients are. (The filtered value stays NaN, every comparison with it
    fails, and the counter is never put back to 0, so the filter is never
    initialised again.) *)
Theorem nan_sample_silences_detectors :
  silenced_by motionLP_det (fun a => has_nan (motionLP_sample a)) /\
  silenced_by motionK_det (fun a => has_nan (motionK_sample a)) /\
  silenced_by distortionHP_det (fun a => has_nan (distortionHP_sample a)) /\
  silenced_by distortionLP_det (fun a => has_nan (distortionLP_sample a)).
Proof.
  split.
  { apply (silenced_intro motionLP_det _ motionLP_dead);
      [ exact motionLP_bounded | exact motionLP_nan_sample | exact motionLP_dead_step ]. }
  split.
  { apply (silenced_intro motionK_det _ motionK_dead);
      [ exact motionK_bounded | exact motionK_nan_sample | exact motionK_dead_step ]. }
  split.
  { apply (silenced_intro distortionHP_det _ distortionHP_dead);
      [ exact distortionHP_bounded | exact distortionHP_nan_sample
      | exact distortionHP_dead_step ]. }
  apply (silenced_intro distortionLP_det _ distortionLP_dead);
    [ exact distortionLP_bounded | exact distortionLP_nan_sample
    | exact distortionLP_dead_step ].
Qed.

(** 40 calls at rest, one NaN reading, then 40 jumps to 100: motionLP
    returns [0.0F] on the NaN call and on every jump after it. *)
Lemma nan_sample_silences_detectors_witness :
  Forall (fun o => o = f0)
    (skipn 40 (outputs motionLP_det
                 (repeat (rest_LP 0) 40 ++ nan_LP :: repeat (jump_LP 0) 40))).
Proof.
  exact (proj1 nan_sample_silences_detectors
           (repeat (rest_LP 0) 40) (repeat (jump_LP 0) 40) nan_LP eq_refl).
Defined.

(** ** a NaN sample and the incline detector *)

Ltac incline_nan_branch Hac :=
  unfold CNTSETUP in *; autorewrite with nan; rewrite ?Hac; autorewrite with nan;
  int_cases; try lia; cbn [fst snd]; autorewrite with nan; cbn [fst snd];
  (split; [reflexivity | split; [rewrite ?u8_small by lia; cbn; lia | nan_found]]).

Lemma inclineLP_dead_step acosf a s :
  acosf S754_nan = S754_nan ->
  inclineLP_dead s ->
  snd (call (inclineLP_det acosf) a s) = f0 /\
  inclineLP_dead (fst (call (inclineLP_det acosf) a s)).
Proof.
  intros Hac. destruct s as [setup aX aY aZ]. unfold inclineLP_dead.
  cbn. intros [Hs Hn]. apply has_nan_cases in Hn. cbn in Hn. unfold inclineLP.
  destruct Hn as [-> | [-> | ->]]; incline_nan_branch Hac.
Qed.

Lemma inclineLP_nan_sample acosf a s :
  acosf S754_nan = S754_nan ->
  0 <= counter (inclineLP_det acosf) s <= CNTSETUP ->
  has_nan (inclineLP_sample a) = true ->
  snd (call (inclineLP_det acosf) a s) = f0 /\
  inclineLP_dead (fst (call (inclineLP_det acosf) a s)).
Proof.
  intros Hac. destruct s as [setup aX aY aZ], a as [x y z alpha delta].
  unfold inclineLP_dead, inclineLP_sample.
  cbn. intros Hs Hn. apply has_nan_cases in Hn. cbn in Hn. unfold inclineLP.
  destruct Hn as [-> | [-> | ->]]; incline_nan_branch Hac.
Qed.

Lemma inclineLP_bounded acosf : counter_bounded (inclineLP_det acosf).
Proof. eapply counter_step_bounded; [apply inclineLP_counter | reflexivity]. Qed.

(** ** a NaN sample and the orientation estimators *)

Lemma normalize_has_nan (v : vec3) : has_nan v = true -> normalize v = vnan.
Proof.
  intros H. apply has_nan_cases in H. destruct v as [x y z]. cbn in H.
  unfold normalize, vnan. cbn [vX vY vZ].
  destruct H as [-> | [-> | ->]]; autorewrite with nan; reflexivity.
Qed.

Lemma tilt_compass_yaw_nan atan2f (A M : vec3) :
  has_nan A || has_nan M = true ->
  yaw (tilt_compass atan2f A M) = yaw_of_nan atan2f.
Proof.
  intros H. unfold tilt_compass, yaw_of_nan. cbn [yaw].
  apply orb_true_iff in H. destruct H as [H | H];
    rewrite (normalize_has_nan _ H); unfold vnan; cbn [vX vY vZ];
    autorewrite with nan; reflexivity.
Qed.

Lemma lowpass3_nan_state alpha v f :
  has_nan f = true -> has_nan (lowpass3 alpha v f) = true.
Proof.
  intros H. apply has_nan_cases in H. destruct f as [x y z]. cbn in H.
  unfold lowpass3. cbn [vX vY vZ].
  destruct H as [-> | [-> | ->]]; autorewrite with nan; nan_found.
Qed.

Lemma lowpass3_nan_sample alpha v f :
  has_nan v = true -> has_nan (lowpass3 alpha v f) = true.
Proof.
  intros H. apply has_nan_cases in H. destruct v as [x y z]. cbn in H.
  unfold lowpass3. cbn [vX vY vZ].
  destruct H as [-> | [-> | ->]]; autorewrite with nan; nan_found.
Qed.

Lemma has_nan_vnan : has_nan vnan = true.
Proof. reflexivity. Qed.

(** The two things a call of [orientLP] entered with a counter in 1..32 can
    do. *)
Lemma orientLP_step_cases atan2f (a : OrientLP.args) (s : OrientLP.state) :
  1 <= OrientLP.setup s <= CNTSETUP ->
  let '(A, M) := orientLP_filtered a s in
  let r := call (orientLP_det atan2f) a s in
  (snd r = (1, None) /\ orientLP_acc (fst r) = A /\ orientLP_mag (fst r) = M /\
   OrientLP.setup (fst r) = OrientLP.setup s + 1 /\ OrientLP.setup s < CNTSETUP) \/
  (snd r = (0, Some (tilt_compass atan2f A M)) /\
   orientLP_acc (fst r) = normalize A /\ orientLP_mag (fst r) = normalize M /\
   OrientLP.setup (fst r) = OrientLP.setup s).
Proof.
  destruct s as [setup aX aY aZ mX mY mZ]. cbn [OrientLP.setup]. intros Hs.
  unfold orientLP_filtered, orientLP_acc, orientLP_mag.
  cbn [call orientLP_det OrientLP.aX OrientLP.aY OrientLP.aZ
       OrientLP.mX OrientLP.mY OrientLP.mZ].
  unfold orientLP, CNTSETUP in *. cbv zeta.
  int_cases; try lia; cbn [fst snd OrientLP.setup OrientLP.aX OrientLP.aY
    OrientLP.aZ OrientLP.mX OrientLP.mY OrientLP.mZ].
  - left. repeat split; try reflexivity; try lia. apply u8_small. lia.
  - right. repeat split; reflexivity.
Qed.

Lemma orientK_step_cases atan2f (a : OrientK.args) (s : OrientK.state) :
  1 <= OrientK.setup s <= CNTSETUP ->
  let '(A, M, _, _) := orientK_filtered a s in
  let r := call (orientK_det atan2f) a s in
  (snd r = (1, None) /\ OrientK.fA (fst r) = A /\ OrientK.fM (fst r) = M /\
   OrientK.setup (fst r) = OrientK.setup s + 1 /\ OrientK.setup s < CNTSETUP) \/
  (snd r = (0, Some (tilt_compass atan2f A M)) /\
   OrientK.fA (fst r) = normalize A /\ OrientK.fM (fst r) = normalize M /\
   OrientK.setup (fst r) = OrientK.setup s).
Proof.
  destruct s as [setup fA fM eA eM]. cbn [OrientK.setup]. intros Hs.
  unfold orientK_filtered.
  cbn [call orientK_det OrientK.fA OrientK.fM OrientK.eA OrientK.eM].
  unfold orientK, CNTSETUP in *.
  destruct (kalman_loop _ _ _ _ _ _) as [[[A M] eA'] eM'].
  int_cases; try lia; cbn [fst snd OrientK.setup OrientK.fA OrientK.fM].
  - left. repeat split; try reflexivity; try lia. apply u8_small. lia.
  - right. repeat split; reflexivity.
Qed.

Lemma kalman_loop_nan (a m : vec3) (Q R : float) (fA fM eA eM : vec3) :
  (has_nan fA || has_nan fM = true) \/ (has_nan a || has_nan m = true) ->
  let '(fA', fM', _, _) :=
    kalman_loop [Axis.X; Axis.Y; Axis.Z] a m Q R (fA, fM, eA, eM) in
  has_nan fA' || has_nan fM' = true.
Proof.
  intros H. pose proof (kalman_loop_axes a m Q R fA fM eA eM) as K.
  destruct (kalman_loop _ _ _ _ _ _) as [[[fA' fM'] eA'] eM'].
  assert (Hget : forall i,
    get fA' i = fst (kalman Q R (get a i) (get fA i, get eA i)) /\
    get fM' i = fst (kalman Q R (get m i) (get fM i, get eM i))).
  { intros i. destruct (K i) as [<- <-]. split; reflexivity. }
  clear K.
  destruct (Hget Axis.X) as [Ax Mx], (Hget Axis.Y) as [Ay My],
           (Hget Axis.Z) as [Az Mz].
  cbn [get] in Ax, Ay, Az, Mx, My, Mz. clear Hget.
  apply orb_true_iff.
  destruct H as [H | H]; apply orb_true_iff in H; destruct H as [H | H];
    apply has_nan_cases in H; [left | right | left | right];
    destruct H as [H | [H | H]]; rewrite H in *;
    rewrite ?kalman_nan_state, ?kalman_nan_sample in *;
    unfold has_nan; rewrite ?Ax, ?Ay, ?Az, ?Mx, ?My, ?Mz;
    cbn [is_nan orb]; rewrite ?orb_true_r; reflexivity.
Qed.

Lemma normalized_poisoned (A M : vec3) :
  has_nan A || has_nan M = true ->
  has_nan (normalize A) || has_nan (normalize M) = true.
Proof.
  intros H. apply orb_true_iff in H. apply orb_true_iff.
  destruct H as [H | H]; [left | right];
    rewrite (normalize_has_nan _ H); reflexivity.
Qed.

Lemma lowpass3_poisoned alpha (a m A M : vec3) :
  (has_nan A || has_nan M = true) \/ (has_nan a || has_nan m = true) ->
  has_nan (lowpass3 alpha a A) || has_nan (lowpass3 alpha m M) = true.
Proof.
  intros H. apply orb_true_iff.
  destruct H as [H | H]; apply orb_true_iff in H; destruct H as [H | H];
    [left | right | left | right];
    auto using lowpass3_nan_state, lowpass3_nan_sample.
Qed.

Lemma yaw_lost_ready atan2f (A M : vec3) :
  has_nan A || has_nan M = true ->
  yaw_lost atan2f (0, Some (tilt_compass atan2f A M)).
Proof.
  intros H. right. exists (tilt_compass atan2f A M).
  split; [reflexivity | apply tilt_compass_yaw_nan; exact H].
Qed.

Lemma orientLP_poisoned_step atan2f a s :
  1 <= OrientLP.setup s <= CNTSETUP ->
  orientLP_poisoned s = true \/ orientLP_bad a = true ->
  yaw_lost atan2f (snd (call (orientLP_det atan2f) a s)) /\
  orientLP_dead (fst (call (orientLP_det atan2f) a s)).
Proof.
  intros Hs H.
  pose proof (orientLP_step_cases atan2f a s Hs) as C.
  pose proof (lowpass3_poisoned (OrientLP.alpha a) (OrientLP.a a) (OrientLP.m a)
                (orientLP_acc s) (orientLP_mag s) H) as N.
  unfold orientLP_filtered in C. cbv zeta in C.
  unfold orientLP_dead, orientLP_poisoned.
  destruct C as [(-> & -> & -> & -> & Hlt) | (-> & -> & -> & ->)].
  - split; [left; reflexivity | split; [lia | exact N]].
  - split; [apply yaw_lost_ready; exact N | split; [exact Hs | ]].
    apply normalized_poisoned; exact N.
Qed.

Lemma orientLP_dead_step atan2f a s :
  orientLP_dead s ->
  yaw_lost atan2f (snd (call (orientLP_det atan2f) a s)) /\
  orientLP_dead (fst (call (orientLP_det atan2f) a s)).
Proof. intros [Hs H]. apply orientLP_poisoned_step; auto. Qed.

Lemma vec3_eta (v : vec3) : V3 (get v Axis.X) (get v Axis.Y) (get v Axis.Z) = v.
Proof. destruct v; reflexivity. Qed.

Lemma orientLP_nan_sample atan2f a s :
  0 <= counter (orientLP_det atan2f) s <= CNTSETUP ->
  orientLP_bad a = true ->
  yaw_lost atan2f (snd (call (orientLP_det atan2f) a s)) /\
  orientLP_dead (fst (call (orientLP_det atan2f) a s)).
Proof.
  cbn [counter orientLP_det]. intros Hs H.
  destruct (Z.eq_dec (OrientLP.setup s) 0) as [E | E].
  - destruct s as [setup aX aY aZ mX mY mZ]. cbn in E. subst setup.
    destruct a as [[ax ay az] [mx my mz] alpha].
    split; [left; reflexivity | split; [cbn; rewrite ?u8_small by lia; unfold CNTSETUP; lia | exact H]].
  - apply orientLP_poisoned_step; [lia | right; exact H].
Qed.

Lemma orientK_poisoned_step atan2f a s :
  1 <= OrientK.setup s <= CNTSETUP ->
  orientK_poisoned s = true \/ orientK_bad a = true ->
  yaw_lost atan2f (snd (call (orientK_det atan2f) a s)) /\
  orientK_dead (fst (call (orientK_det atan2f) a s)).
Proof.
  intros Hs H.
  pose proof (orientK_step_cases atan2f a s Hs) as C.
  pose proof (kalman_loop_nan (OrientK.a a) (OrientK.m a) (OrientK.Q a)
                (OrientK.R a) (OrientK.fA s) (OrientK.fM s) (OrientK.eA s)
                (OrientK.eM s) H) as N.
  unfold orientK_filtered in C.
  destruct (kalman_loop _ _ _ _ _ _) as [[[A M] eA'] eM'].
  unfold orientK_dead, orientK_poisoned.
  destruct C as [(-> & -> & -> & -> & Hlt) | (-> & -> & -> & ->)].
  - split; [left; reflexivity | split; [lia | exact N]].
  - split; [apply yaw_lost_ready; exact N | split; [exact Hs | ]].
    apply normalized_poisoned; exact N.
Qed.

Lemma orientK_dead_step atan2f a s :
  orientK_dead s ->
  yaw_lost atan2f (snd (call (orientK_det atan2f) a s)) /\
  orientK_dead (fst (call (orientK_det atan2f) a s)).
Proof. intros [Hs H]. apply orientK_poisoned_step; auto. Qed.

Lemma orientK_nan_sample atan2f a s :
  0 <= counter (orientK_det atan2f) s <= CNTSETUP ->
  orientK_bad a = true ->
  yaw_lost atan2f (snd (call (orientK_det atan2f) a s)) /\
  orientK_dead (fst (call (orientK_det atan2f) a s)).
Proof.
  cbn [counter orientK_det]. intros Hs H.
  destruct (Z.eq_dec (OrientK.setup s) 0) as [E | E].
  - destruct s as [setup fA fM eA eM]. cbn in E. subst setup.
    destruct a as [[ax ay az] [mx my mz] Q R E].
    split; [left; reflexivity | split; [cbn; rewrite ?u8_small by lia; unfold CNTSETUP; lia | exact H]].
  - apply orientK_poisoned_step; [lia | right; exact H].
Qed.

(** X2. A sample with a NaN component in the accelerometer or the
    magnetometer vector takes the heading away from orientLP and orientK for
    good: from that call on every call is either a warm-up call or a ready
    call whose yaw is [atan2f] of two NaN arguments, times [RAD2DEG],
    whatever the later samples are. *)
Theorem nan_sample_poisons_orientation :
  forall atan2f : float -> float -> float,
    orient_poisoned_by atan2f (orientLP_det atan2f) orientLP_bad /\
    orient_poisoned_by atan2f (orientK_det atan2f) orientK_bad.
Proof.
  intros atan2f. split.
  - intros l1 l2 a Ha.
    exact (absorbed_from (orientLP_det atan2f) orientLP_bad orientLP_dead
             (yaw_lost atan2f) (orientLP_bounded atan2f)
             (orientLP_nan_sample atan2f) (orientLP_dead_step atan2f)
             l1 l2 a Ha).
  - intros l1 l2 a Ha.
    exact (absorbed_from (orientK_det atan2f) orientK_bad orientK_dead
             (yaw_lost atan2f) (orientK_bounded atan2f)
             (orientK_nan_sample atan2f) (orientK_dead_step atan2f)
             l1 l2 a Ha).
Qed.

Lemma nan_sample_poisons_orientation_witness :
  (forall atan2f,
     Forall (yaw_lost atan2f)
       (skipn 40 (outputs (orientLP_det atan2f)
                    (repeat level_LP 40 ++ nan_orientLP :: repeat level_LP 40)))) /\
  (forall atan2f,
     Forall (yaw_lost atan2f)
       (skipn 3 (outputs (orientK_det atan2f)
                   (repeat level_K 3 ++ nan_orientK :: repeat level_K 60)))).
Proof.
  split; intros atan2f.
  - exact (proj1 (nan_sample_poisons_orientation atan2f)
             (repeat level_LP 40) (repeat level_LP 40) nan_orientLP eq_refl).
  - exact (proj2 (nan_sample_poisons_orientation atan2f)
             (repeat level_K 3) (repeat level_K 60) nan_orientK eq_refl).
Defined.

(** X3. With an [acosf] that gives NaN for NaN, a sample with a NaN component
    silences inclineLP for good: that call and every later call return 0. *)
Theorem nan_sample_silences_incline :
  forall acosf : float -> float,
    acosf S754_nan = S754_nan ->
    silenced_by (inclineLP_det acosf) (fun a => has_nan (inclineLP_sample a)).
Proof.
  intros acosf Hac.
  apply (silenced_intro (inclineLP_det acosf) _ inclineLP_dead).
  - apply inclineLP_bounded.
  - intros a s Hs Ha. apply inclineLP_nan_sample; assumption.
  - intros a s Hs. apply inclineLP_dead_step; assumption.
Qed.

Lemma nan_sample_silences_incline_witness :
  acosf_of_nan S754_nan = S754_nan /\
  Forall (fun o => o = f0)
    (skipn 40 (outputs (inclineLP_det acosf_of_nan)
                 (repeat level_incline 40 ++ nan_incline :: repeat zeros_incline 40))).
Proof.
  split; [reflexivity | ].
  exact (nan_sample_silences_incline acosf_of_nan eq_refl
           (repeat level_incline 40) (repeat zeros_incline 40) nan_incline eq_refl).
Defined.

(** ** getAlpha on degenerate arguments *)

Lemma getAlpha_dt_zero_rate (s : bool) :
  d2f (ddiv d1 (f2d (S754_zero s))) = S754_infinity s.
Proof. destruct s; reflexivity. Qed.

Lemma getAlpha_rc_zero_cutoff (M_PI : spec_float) (s : bool) :
  let rc := d2f (ddiv d1 (dmul (dmul d2 M_PI) (f2d (S754_zero s)))) in
  rc = S754_nan \/ exists s', rc = S754_infinity s'.
Proof.
  cbv zeta. change (f2d (S754_zero s)) with (S754_zero s).
  destruct (dmul d2 M_PI) as [s0 | s0 | | s0 m e].
  - right. exists (xorb s0 s). destruct s0, s; reflexivity.
  - left. reflexivity.
  - left. reflexivity.
  - right. exists (xorb s0 s). destruct s0, s; reflexivity.
Qed.

(** X4. getAlpha does not guard its arguments. For a rate of zero the result
    is NaN whatever the cutoff; for a cutoff of zero the result is zero or
    NaN whatever the rate. This holds for every value of the constant
    [M_PI]. *)
Theorem getAlpha_degenerate (M_PI : spec_float) (rate cutoff : float) :
  (is_zero rate = true -> is_nan (getAlpha M_PI rate cutoff) = true) /\
  (is_zero cutoff = true ->
   is_zero (getAlpha M_PI rate cutoff) || is_nan (getAlpha M_PI rate cutoff) = true).
Proof.
  split.
  - destruct rate as [s | | |]; try discriminate. intros _.
    unfold getAlpha. cbv zeta. rewrite getAlpha_dt_zero_rate.
    destruct (d2f _) as [s0 | s0 | | s0 m e]; destruct s; try destruct s0; reflexivity.
  - destruct cutoff as [s | | |]; try discriminate. intros _.
    unfold getAlpha. cbv zeta.
    destruct (getAlpha_rc_zero_cutoff M_PI s) as [-> | [s' ->]].
    + rewrite fadd_nan_l, fdiv_nan_r. reflexivity.
    + destruct (d2f _) as [s0 | s0 | | s0 m e]; destruct s'; try destruct s0; reflexivity.
Qed.

Lemma getAlpha_degenerate_witness :
  is_nan (getAlpha M_PI_double f0 (f32 5 0)) = true /\
  is_zero (getAlpha M_PI_double (f32 100 0) f0)
    || is_nan (getAlpha M_PI_double (f32 100 0) f0) = true.
Proof.
  split.
  - exact (proj1 (getAlpha_degenerate M_PI_double f0 (f32 5 0)) eq_refl).
  - exact (proj2 (getAlpha_degenerate M_PI_double (f32 100 0) f0) eq_refl).
Defined.

(** ** returned magnitudes and thresholds *)

Ltac above_branch :=
  int_cases; bool_cases; cbn [fst snd]; auto.

(** X5. Whatever the statics and the arguments, the value a trigger detector
    returns is [0.0F] or greater than the threshold of the call: [delta] for
    motionLP, motionK, distortionHP and distortionLP, [fabsf(delta)] for
    inclineLP. A returned value is never NaN. *)
Theorem returned_value_exceeds_threshold :
  reports_above motionLP_det MotionLP.delta /\
  reports_above motionK_det MotionK.delta /\
  reports_above distortionHP_det DistortionHP.delta /\
  reports_above distortionLP_det DistortionLP.delta /\
  (forall acosf,
     reports_above (inclineLP_det acosf) (fun a => fabsf (InclineLP.delta a))) /\
  (forall a s, is_nan (snd (call motionLP_det a s)) = false) /\
  (forall a s, is_nan (snd (call motionK_det a s)) = false) /\
  (forall a s, is_nan (snd (call distortionHP_det a s)) = false) /\
  (forall a s, is_nan (snd (call distortionLP_det a s)) = false) /\
  (forall acosf a s, is_nan (snd (call (inclineLP_det acosf) a s)) = false).
Proof.
  assert (HLP : reports_above motionLP_det MotionLP.delta).
  { intros a [setup smpl pX pY pZ fX fY fZ]. cbn. unfold motionLP. above_branch. }
  assert (HK : reports_above motionK_det MotionK.delta).
  { intros a [setup smpl fX fY fZ eX eY eZ pX pY pZ]. cbn. unfold motionK.
    destruct (kalman _ _ _ (fX, eX)), (kalman _ _ _ (fY, eY)),
             (kalman _ _ _ (fZ, eZ)).
    int_cases; cbn [fst snd]; auto.
    destruct (fgt _ _) eqn:E; cbn [andb]; [|auto].
    destruct (flt _ _); cbn [fst snd]; auto. }
  assert (HHP : reports_above distortionHP_det DistortionHP.delta).
  { intros a [setup iX iY iZ oX oY oZ M]. cbn. unfold distortionHP. above_branch. }
  assert (HDLP : reports_above distortionLP_det DistortionLP.delta).
  { intros a [setup aX aY aZ]. cbn. unfold distortionLP. above_branch. }
  assert (HI : forall acosf,
    reports_above (inclineLP_det acosf) (fun a => fabsf (InclineLP.delta a))).
  { intros acosf a [setup aX aY aZ]. cbn. unfold inclineLP. above_branch. }
  assert (Hnan : forall o t : float, o = f0 \/ fgt o t = true -> is_nan o = false).
  { intros o t [-> | H]; [reflexivity | ]. destruct o; try reflexivity.
    rewrite fgt_nan_l in H. discriminate H. }
  repeat split; try assumption; intros.
  - exact (Hnan _ _ (HLP a s)).
  - exact (Hnan _ _ (HK a s)).
  - exact (Hnan _ _ (HHP a s)).
  - exact (Hnan _ _ (HDLP a s)).
  - exact (Hnan _ _ (HI acosf a s)).
Qed.

(** ** the fall detector over a sequence of calls: results *)

Lemma fall_run_cons a l s :
  fall_run (a :: l) s =
    snd (detectFall (DetectFall.x a) (DetectFall.y a) (DetectFall.z a)
           (DetectFall.wThs a) (DetectFall.iThs a) s)
    :: fall_run l (fst (detectFall (DetectFall.x a) (DetectFall.y a)
                          (DetectFall.z a) (DetectFall.wThs a)
                          (DetectFall.iThs a) s)).
Proof.
  cbn [fall_run]. destruct (detectFall _ _ _ _ _ s). reflexivity.
Qed.

Lemma detectFall_follows x y z wThs iThs s :
  stage_follows (DetectFall.stage s) (snd (detectFall x y z wThs iThs s)) = true /\
  DetectFall.stage (fst (detectFall x y z wThs iThs s)) =
    snd (detectFall x y z wThs iThs s).
Proof.
  destruct s as [[] smpl]; unfold detectFall; cbn [fst snd DetectFall.stage];
    (split; [|reflexivity]).
  - destruct (flt _ _); reflexivity.
  - destruct (fgt _ _); reflexivity.
  - destruct (feq _ _); reflexivity.
Qed.

(** X6. Over any sequence of calls, from any statics, the stages detectFall
    returns follow the cycle Init, Weightlessness, Fall: a call returns the
    stage of the call before it or the next stage on the cycle. So Fall is
    never returned right after Init, and from the initial statics the first
    call never returns Fall. *)
Theorem detectFall_stages_in_order :
  (forall l s, stage_chain (DetectFall.stage s) (fall_run l s) = true) /\
  (forall l, hd_error (fall_run l DetectFall.init) <> Some STAGE_FALL).
Proof.
  assert (H : forall l s, stage_chain (DetectFall.stage s) (fall_run l s) = true).
  { induction l as [|a l IH]; intros s; [reflexivity | ].
    rewrite fall_run_cons. cbn [stage_chain].
    destruct (detectFall_follows (DetectFall.x a) (DetectFall.y a)
                (DetectFall.z a) (DetectFall.wThs a) (DetectFall.iThs a) s)
      as [Hf He].
    rewrite Hf, <- He. apply IH. }
  split; [exact H | ].
  intros [|a l]; [discriminate | ].
  rewrite fall_run_cons. cbn [hd_error].
  pose proof (proj1 (detectFall_follows (DetectFall.x a) (DetectFall.y a)
                       (DetectFall.z a) (DetectFall.wThs a) (DetectFall.iThs a)
                       DetectFall.init)) as Hf.
  destruct (snd (detectFall _ _ _ _ _ _)); [discriminate | discriminate | ].
  discriminate Hf.
Qed.

Lemma flt_zero_r (a : float) (s : bool) : flt a (S754_zero s) = flt a f0.
Proof. destruct a as [sa | sa | | sa m e], s; try destruct sa; reflexivity. Qed.

Lemma fgt_zero_r (a : float) (s : bool) : fgt a (S754_zero s) = fgt a f0.
Proof. destruct a as [sa | sa | | sa m e], s; try destruct sa; reflexivity. Qed.

(** X7. A call of detectFall with both thresholds zero resets the detector
    only from Fall. From Init it returns Init whatever the sample; from
    Weightlessness it returns Fall for every sample whose magnitude is
    greater than zero, and Weightlessness otherwise. *)
Theorem detectFall_reset_call (x y z wThs iThs : float) (s : DetectFall.state) :
  is_zero wThs = true -> is_zero iThs = true ->
  snd (detectFall x y z wThs iThs s) =
    reset_call_stage (norm3 x y z) (DetectFall.stage s).
Proof.
  destruct wThs as [sw | | |]; try discriminate.
  destruct iThs as [si | | |]; try discriminate. intros _ _.
  destruct s as [[] smpl]; unfold detectFall, reset_call_stage;
    cbn [snd DetectFall.stage].
  - rewrite flt_zero_r. unfold norm3. rewrite sqrtf_not_negative. reflexivity.
  - rewrite fgt_zero_r. reflexivity.
  - destruct sw, si; reflexivity.
Qed.

Lemma detectFall_reset_call_witness :
  snd (detectFall (f32 1 0) f0 f0 f0 f0 (DetectFall.mk STAGE_WEIGHLESSNESS 0))
    = STAGE_FALL.
Proof.
  exact (detectFall_reset_call (f32 1 0) f0 f0 f0 f0
           (DetectFall.mk STAGE_WEIGHLESSNESS 0) eq_refl eq_refl).
Defined.

(** X8. A sample with a NaN component neither starts nor completes a fall:
    in Init and in Weightlessness the call returns the stage it was entered
    with, whatever the thresholds. *)
Theorem detectFall_nan_sample (x y z wThs iThs : float) (s : DetectFall.state) :
  has_nan (V3 x y z) = true ->
  DetectFall.stage s <> STAGE_FALL ->
  snd (detectFall x y z wThs iThs s) = DetectFall.stage s.
Proof.
  intros Hn Hs. apply has_nan_cases in Hn. cbn [vX vY vZ] in Hn.
  assert (HM : norm3 x y z = S754_nan).
  { destruct Hn as [-> | [-> | ->]];
      [apply norm3_nan_1 | apply norm3_nan_2 | apply norm3_nan_3]. }
  destruct s as [[] smpl]; unfold detectFall; cbn [snd DetectFall.stage] in *;
    rewrite ?HM, ?flt_nan_l, ?fgt_nan_l; try reflexivity.
  now elim Hs.
Qed.

Lemma detectFall_nan_sample_witness :
  snd (detectFall S754_nan f0 f0 (dec32 3 1) (f32 2 0)
         (DetectFall.mk STAGE_WEIGHLESSNESS 0)) = STAGE_WEIGHLESSNESS.
Proof.
  apply (detectFall_nan_sample S754_nan f0 f0 (dec32 3 1) (f32 2 0)
           (DetectFall.mk STAGE_WEIGHLESSNESS 0)).
  - reflexivity.
  - discriminate.
Defined.

(** * The sensor driver: results *)

Section Driver.
Context `{HAL}.

Lemma transmit_spec (i2c : I2C_HandleTypeDef) (addr : Z) (data : list Z) (w : world) :
  statics (snd (transmit i2c addr data w)) = statics w /\
  trace (snd (transmit i2c addr data w)) = trace w ++ [Transmit addr data] /\
  (fst (transmit i2c addr data w) = Done tt \/
   exists st, st <> HAL_OK /\ fst (transmit i2c addr data w) = Return st).
Proof.
  unfold transmit. destruct (HAL_I2C_Master_Transmit _ _ _ _) as [[] b]; cbn;
    repeat split; try (left; reflexivity);
    right; eexists; (split; [|reflexivity]); discriminate.
Qed.

Lemma bind_done {A B} (m : drv A) (k : A -> drv B) (w w' : world) (a : A) :
  m w = (Done a, w') -> bind m k w = k a w'.
Proof. unfold bind. intros ->. reflexivity. Qed.

Lemma bind_return {A B} (m : drv A) (k : A -> drv B) (w w' : world) st :
  m w = (Return st, w') -> bind m k w = (Return st, w').
Proof. unfold bind. intros ->. reflexivity. Qed.












End Driver.


(** ** reading samples *)

Lemma lor_shiftl_add (hi lo : Z) :
  0 <= lo < 256 -> Z.lor (Z.shiftl hi 8) lo = hi * 256 + lo.
Proof.
  intros Hlo.
  assert (Hd : Z.land (Z.shiftl hi 8) lo = 0).
  { apply Z.bits_inj'. intros n Hn. rewrite Z.land_spec, Z.bits_0.
    destruct (Z.ltb_spec n 8) as [Hlt | Hge].
    - rewrite Z.shiftl_spec_low by lia. reflexivity.
    - replace lo with (lo mod 2 ^ 8) by (apply Z.mod_small; lia).
      rewrite Z.mod_pow2_bits_high by lia. apply andb_false_r. }
  pose proof (Z.add_lor_land (Z.shiftl hi 8) lo) as E.
  rewrite Hd in E. rewrite Z.shiftl_mul_pow2 in * by lia.
  change (2 ^ 8) with 256 in *. lia.
Qed.

Lemma s16_small (v : Z) : -32768 <= v < 32768 -> s16 v = v.
Proof.
  intros Hv. unfold s16.
  destruct (Z.ltb_spec v 0) as [Hneg | Hpos].
  - replace (v mod 65536) with (v + 65536)
      by (apply (Z.mod_unique _ _ (-1)); lia).
    destruct (Z.ltb_spec (v + 65536) 32768); lia.
  - rewrite Z.mod_small by lia. destruct (Z.ltb_spec v 32768); lia.
Qed.

Lemma s16_mod (v : Z) : s16 (v mod 65536) = s16 v.
Proof. unfold s16. rewrite Z.mod_mod by lia. reflexivity. Qed.

Lemma s16_range (v : Z) : -32768 <= s16 v < 32768.
Proof.
  unfold s16. pose proof (Z.mod_pos_bound v 65536).
  destruct (Z.ltb_spec (v mod 65536) 32768); lia.
Qed.

Lemma u8_byte (v : Z) : 0 <= v < 256 -> u8 v = v.
Proof. intros Hv. unfold u8. apply Z.mod_small. lia. Qed.

(** The word read back from the two bytes of [v]. *)
Lemma word16_bytes (hi lo v : Z) :
  lo = (v mod 65536) mod 256 -> hi = (v mod 65536) / 256 ->
  s16 (Z.lor (Z.shiftl hi 8) lo) = s16 v.
Proof.
  intros -> ->. pose proof (Z.mod_pos_bound v 65536).
  pose proof (Z.mod_pos_bound (v mod 65536) 256).
  rewrite lor_shiftl_add by lia.
  rewrite <- (s16_mod v). f_equal.
  pose proof (Z.div_mod (v mod 65536) 256). lia.
Qed.

Lemma byte_of_word_lo (v : Z) : 0 <= (v mod 65536) mod 256 < 256.
Proof. apply Z.mod_pos_bound. lia. Qed.

Lemma byte_of_word_hi (v : Z) : 0 <= (v mod 65536) / 256 < 256.
Proof.
  pose proof (Z.mod_pos_bound v 65536).
  split; [apply Z.div_pos; lia | apply Z.div_lt_upper_bound; lia].
Qed.

Lemma shiftl_shiftr_back (v k : Z) : 0 <= k -> Z.shiftr (Z.shiftl v k) k = v.
Proof. intros Hk. rewrite Z.shiftr_shiftl_l by lia. now rewrite Z.sub_diag. Qed.

Lemma left_justified_fits (k v : Z) :
  0 <= k <= 15 -> signed_range (16 - k) v -> -32768 <= Z.shiftl v k < 32768.
Proof.
  unfold signed_range. intros Hk Hv. rewrite Z.shiftl_mul_pow2 by lia.
  replace (16 - k - 1) with (15 - k) in Hv by lia.
  assert (E : 2 ^ (15 - k) * 2 ^ k = 32768).
  { rewrite <- Z.pow_add_r by lia. replace (15 - k + k) with 15 by lia. reflexivity. }
  assert (0 < 2 ^ k) by (apply Z.pow_pos_nonneg; lia).
  nia.
Qed.

Lemma shifted_range (k v : Z) :
  0 <= k <= 15 -> -32768 <= v < 32768 -> signed_range (16 - k) (Z.shiftr v k).
Proof.
  unfold signed_range. intros Hk Hv. rewrite Z.shiftr_div_pow2 by lia.
  replace (16 - k - 1) with (15 - k) by lia.
  assert (E : 2 ^ (15 - k) * 2 ^ k = 32768).
  { rewrite <- Z.pow_add_r by lia. replace (15 - k + k) with 15 by lia. reflexivity. }
  assert (0 < 2 ^ k) by (apply Z.pow_pos_nonneg; lia).
  split.
  - apply Z.div_le_lower_bound; nia.
  - apply Z.div_lt_upper_bound; nia.
Qed.

Lemma signed_range_int16 (k v : Z) :
  0 <= k <= 15 -> signed_range (16 - k) v -> -32768 <= v < 32768.
Proof.
  unfold signed_range. intros Hk Hv.
  replace (16 - k - 1) with (15 - k) in Hv by lia.
  assert (2 ^ (15 - k) <= 2 ^ 15) by (apply Z.pow_le_mono_r; lia).
  change (2 ^ 15) with 32768 in *. lia.
Qed.

Lemma bit_test (b n : Z) :
  0 <= n -> (Z.land (Z.shiftr b n) 1 =? 0) = negb (Z.testbit b n).
Proof.
  intros Hn. change 1 with (Z.ones 1). rewrite Z.land_ones by lia.
  rewrite Z.shiftr_div_pow2 by lia. change (2 ^ 1) with 2.
  destruct (Z.testbit b n) eqn:E.
  - apply Z.testbit_true in E; [|lia]. rewrite E. reflexivity.
  - apply Z.testbit_false in E; [|lia]. rewrite E. reflexivity.
Qed.

Lemma bit0_test (b : Z) : (Z.land b 1 =? 0) = negb (Z.testbit b 0).
Proof. rewrite <- (bit_test b 0) by lia. rewrite Z.shiftr_0_r. reflexivity. Qed.

Lemma la_decode (k x y z : Z) (buf : list Z) :
  let b := store (firstn 6 (la_registers k x y z)) buf in
  word16 b 1 0 = s16 (Z.shiftl x k) /\
  word16 b 3 2 = s16 (Z.shiftl y k) /\
  word16 b 5 4 = s16 (Z.shiftl z k).
Proof.
  unfold la_registers, le16, store, word16.
  cbn [firstn app map length skipn nth].
  rewrite !u8_byte by (apply byte_of_word_lo || apply byte_of_word_hi).
  repeat split; apply word16_bytes; reflexivity.
Qed.

Lemma mf_decode (x y z : Z) (buf : list Z) :
  let b := store (firstn 6 (mf_registers x y z)) buf in
  word16 b 0 1 = s16 x /\ word16 b 4 5 = s16 y /\ word16 b 2 3 = s16 z.
Proof.
  unfold mf_registers, be16, store, word16.
  cbn [firstn app map length skipn nth].
  rewrite !u8_byte by (apply byte_of_word_lo || apply byte_of_word_hi).
  repeat split; apply word16_bytes; reflexivity.
Qed.

Lemma la_sample (k v : Z) :
  0 <= k <= 15 -> signed_range (16 - k) v ->
  s16 (Z.shiftr (s16 (Z.shiftl v k)) k) = v.
Proof.
  intros Hk Hv.
  rewrite (s16_small (Z.shiftl v k)) by (apply left_justified_fits; assumption).
  rewrite shiftl_shiftr_back by lia.
  apply s16_small. apply (signed_range_int16 k); assumption.
Qed.

Lemma status_byte (st : Z) (buf : list Z) :
  0 <= st <= 255 -> nth 0 (store (firstn 1 [st]) buf) 0 = st.
Proof. intros Hst. cbn. apply u8_byte. lia. Qed.

Section DriverReads.
Context `{HAL}.

Lemma mem_read_ok (i2c : I2C_HandleTypeDef) (addr reg : Z) (size : nat)
  (w : world) (data : list Z) (b : bus) :
  HAL_I2C_Mem_Read i2c addr reg size (hw w) = (HAL_OK, data, b) ->
  mem_read i2c addr reg size w =
    (Done tt,
     World _ (Statics (store (firstn size data) (lsm303_buf (statics w)))
                (lsm303_ashift (statics w)) (lsm303_alsb (statics w))
                (lsm303_mlsb_xy (statics w)) (lsm303_mlsb_z (statics w)))
       b (trace w ++ [MemRead addr reg size])).
Proof. unfold mem_read. intros ->. reflexivity. Qed.

(** X11. lsm303_la_raw gives back the sample the device holds. If the status
    register answers with bit 3 (data available) set and the six output
    registers hold [x], [y] and [z] left-justified by [lsm303_ashift], low
    byte first, then the routine returns HAL_OK and writes exactly [x], [y]
    and [z], after these two reads and no other call of the HAL. *)
Theorem la_raw_round_trip (i2c : I2C_HandleTypeDef) (w : world)
  (st : Z) (b1 b2 : bus) (x y z : Z) :
  let k := lsm303_ashift (statics w) in
  HAL_I2C_Mem_Read i2c LSM303_LA_SAD LSM303_STATUS_REG_A 1 (hw w)
    = (HAL_OK, [st], b1) ->
  0 <= st <= 255 -> Z.testbit st 3 = true ->
  HAL_I2C_Mem_Read i2c LSM303_LA_SAD 168 6 b1
    = (HAL_OK, la_registers k x y z, b2) ->
  0 <= k <= 15 -> all3 (signed_range (16 - k)) (x, y, z) ->
  fst (lsm303_la_raw (Some i2c) w) = Done (x, y, z) /\
  hw (snd (lsm303_la_raw (Some i2c) w)) = b2 /\
  trace (snd (lsm303_la_raw (Some i2c) w))
    = trace w ++ la_read_frames.
Proof.
  intros k H1 Hst Hbit H2 Hk (Hx & Hy & Hz).
  assert (E : exists s',
    lsm303_la_raw (Some i2c) w
      = (Done (x, y, z),
         World _ s' b2 (trace w ++ la_read_frames))).
  { unfold lsm303_la_raw, null_check, bind, get_statics, ret.
    rewrite (mem_read_ok _ _ _ _ _ _ _ H1).
    cbn [statics lsm303_buf]. rewrite status_byte by exact Hst.
    rewrite bit_test by lia. rewrite Hbit. cbn [negb].
    erewrite (mem_read_ok _ _ _ _ _ _ b2) by exact H2.
    cbn [statics lsm303_buf lsm303_ashift hw trace]. fold k.
    destruct (la_decode k x y z (store (firstn 1 [st]) (lsm303_buf (statics w))))
      as (-> & -> & ->).
    rewrite !la_sample by assumption.
    rewrite <- app_assoc. eexists. reflexivity. }
  destruct E as [s' ->]. repeat split.
Qed.

(** X12. lsm303_mf_raw gives back the sample the device holds. If the status
    register answers with bit 0 (data ready) set and the six output registers
    hold [x], [z] and [y], in this order of the device, high byte first, then
    the routine returns HAL_OK and writes exactly [x], [y] and [z]. *)
Theorem mf_raw_round_trip (i2c : I2C_HandleTypeDef) (w : world)
  (st : Z) (b1 b2 : bus) (x y z : Z) :
  HAL_I2C_Mem_Read i2c LSM303_MF_SAD LSM303_SR_REG_M 1 (hw w)
    = (HAL_OK, [st], b1) ->
  0 <= st <= 255 -> Z.testbit st 0 = true ->
  HAL_I2C_Mem_Read i2c LSM303_MF_SAD LSM303_OUT_X_H_M 6 b1
    = (HAL_OK, mf_registers x y z, b2) ->
  all3 (signed_range 16) (x, y, z) ->
  fst (lsm303_mf_raw (Some i2c) w) = Done (x, y, z) /\
  hw (snd (lsm303_mf_raw (Some i2c) w)) = b2 /\
  trace (snd (lsm303_mf_raw (Some i2c) w)) = trace w ++ mf_read_frames.
Proof.
  intros H1 Hst Hbit H2 (Hx & Hy & Hz).
  assert (E : exists s',
    lsm303_mf_raw (Some i2c) w
      = (Done (x, y, z), World _ s' b2 (trace w ++ mf_read_frames))).
  { unfold lsm303_mf_raw, null_check, bind, get_statics, ret.
    rewrite (mem_read_ok _ _ _ _ _ _ _ H1).
    cbn [statics lsm303_buf]. rewrite status_byte by exact Hst.
    rewrite bit0_test. rewrite Hbit. cbn [negb].
    erewrite (mem_read_ok _ _ _ _ _ _ b2) by exact H2.
    cbn [statics lsm303_buf hw trace].
    destruct (mf_decode x y z (store (firstn 1 [st]) (lsm303_buf (statics w))))
      as (-> & -> & ->).
    rewrite !s16_small by assumption.
    rewrite <- app_assoc. eexists. reflexivity. }
  destruct E as [s' ->]. repeat split.
Qed.

End DriverReads.

Lemma la_raw_round_trip_witness :
  fst (lsm303_la_raw (Some tt)
         (World scripted_HAL (Statics [0; 0; 0; 0; 0; 0] 4 f0 f0 f0)
            [(HAL_OK, [8]); (HAL_OK, la_registers 4 (-2048) 0 1024)] []))
  = Done (-2048, 0, 1024).
Proof.
  refine (proj1 (@la_raw_round_trip scripted_HAL tt
                   (World scripted_HAL (Statics [0; 0; 0; 0; 0; 0] 4 f0 f0 f0)
                      [(HAL_OK, [8]); (HAL_OK, la_registers 4 (-2048) 0 1024)] [])
                   8 [(HAL_OK, la_registers 4 (-2048) 0 1024)] [] (-2048) 0 1024
                   eq_refl _ eq_refl eq_refl _ _)).
  - lia.
  - cbn. lia.
  - cbn. unfold signed_range. cbn. lia.
Defined.

Lemma mf_raw_round_trip_witness :
  fst (lsm303_mf_raw (Some tt)
         (power_on [(HAL_OK, [1]); (HAL_OK, mf_registers (-300) 25 32767)]))
  = Done (-300, 25, 32767).
Proof.
  refine (proj1 (@mf_raw_round_trip scripted_HAL tt
                   (power_on [(HAL_OK, [1]); (HAL_OK, mf_registers (-300) 25 32767)])
                   1 [(HAL_OK, mf_registers (-300) 25 32767)] [] (-300) 25 32767
                   eq_refl _ eq_refl eq_refl _)).
  - lia.
  - cbn. unfold signed_range. cbn. lia.
Defined.

(** ** the two reads of a sample *)

Lemma same_scale_refl (s : lsm303) : same_scale s s.
Proof. repeat split. Qed.

Lemma same_scale_trans (s1 s2 s3 : lsm303) :
  same_scale s1 s2 -> same_scale s2 s3 -> same_scale s1 s3.
Proof.
  unfold same_scale. intros (A1 & A2 & A3 & A4) (B1 & B2 & B3 & B4).
  repeat split; congruence.
Qed.

Lemma shiftr_int16 (k v : Z) :
  0 <= k -> -32768 <= v < 32768 -> -32768 <= Z.shiftr v k < 32768.
Proof.
  intros Hk Hv. rewrite Z.shiftr_div_pow2 by lia.
  assert (0 < 2 ^ k) by (apply Z.pow_pos_nonneg; lia).
  split.
  - apply Z.div_le_lower_bound; nia.
  - apply Z.div_lt_upper_bound; nia.
Qed.

Lemma word16_range (buf : list Z) (hi lo : nat) : -32768 <= word16 buf hi lo < 32768.
Proof. apply s16_range. Qed.

(** ** readings and the full scale *)

Lemma in_ints (lo v : Z) (n : nat) :
  lo <= v < lo + Z.of_nat n -> In v (ints lo n).
Proof.
  revert lo. induction n as [|n IH]; intros lo Hv; [lia | ].
  cbn [ints]. destruct (Z.eq_dec lo v) as [-> | Hne]; [left; reflexivity | ].
  right. apply IH. lia.
Qed.

Lemma within_spec (alsb bound : float) (bits v : Z) :
  0 < bits -> within alsb bound bits = true -> signed_range bits v ->
  fle (fabsf (fmul (float_of_int v) alsb)) bound = true.
Proof.
  unfold within, signed_range. intros Hb Hw Hv.
  rewrite forallb_forall in Hw. apply Hw. apply in_ints.
  assert (E : 2 ^ bits = 2 * 2 ^ (bits - 1)).
  { rewrite <- Z.pow_succ_r by lia. f_equal. lia. }
  assert (0 < 2 ^ (bits - 1)) by (apply Z.pow_pos_nonneg; lia).
  rewrite Z2Nat.id by lia. lia.
Qed.

Lemma la_bits_shift (lpe hr : Z) :
  0 < la_bits lpe hr /\
  0 <= 16 - la_bits lpe hr <= 15.
Proof. unfold la_bits. destruct (hr =? 0), (lpe =? 0); lia. Qed.


Section Samples.
Context `{HAL}.

Lemma mem_read_spec (i2c : I2C_HandleTypeDef) (addr reg : Z) (size : nat) (w : world) :
  same_scale (statics (snd (mem_read i2c addr reg size w))) (statics w) /\
  trace (snd (mem_read i2c addr reg size w)) = trace w ++ [MemRead addr reg size] /\
  (fst (mem_read i2c addr reg size w) = Done tt \/
   exists st, st <> HAL_OK /\ fst (mem_read i2c addr reg size w) = Return st) /\
  (exists data,
     lsm303_buf (statics (snd (mem_read i2c addr reg size w)))
       = store (firstn size data) (lsm303_buf (statics w))).
Proof.
  unfold mem_read. destruct (HAL_I2C_Mem_Read _ _ _ _ _) as [[[] data] b]; cbn;
    (split; [repeat split | split; [reflexivity | split]]);
    try (left; reflexivity);
    try (right; eexists; (split; [|reflexivity]); discriminate);
    exists data; reflexivity.
Qed.

Lemma reads_null {A} (frames : list event) : reads (@early _ A HAL_ERROR) frames.
Proof.
  intros w. exists 0%nat. cbn. rewrite app_nil_r.
  split; [lia | split; [reflexivity | split; [discriminate | apply same_scale_refl]]].
Qed.

Lemma reads_busy {A} (frames : list event) : reads (@early _ A HAL_BUSY) frames.
Proof.
  intros w. exists 0%nat. cbn. rewrite app_nil_r.
  split; [lia | split; [reflexivity | split; [discriminate | apply same_scale_refl]]].
Qed.

Lemma reads_ret {A} (a : A) : reads (ret a) [].
Proof.
  intros w. exists 0%nat. cbn. rewrite app_nil_r.
  split; [lia | split; [reflexivity | split; [reflexivity | apply same_scale_refl]]].
Qed.

Lemma reads_get_statics {A} (k : lsm303 -> drv A) (frames : list event) :
  (forall s, reads (k s) frames) -> reads (bind get_statics k) frames.
Proof. intros Hk w. exact (Hk (statics w) w). Qed.

Lemma reads_if {A} (c : bool) (m1 m2 : drv A) (frames : list event) :
  reads m1 frames -> reads m2 frames -> reads (if c then m1 else m2) frames.
Proof. destruct c; auto. Qed.

Lemma reads_mem_read {A} (i2c : I2C_HandleTypeDef) (addr reg : Z) (size : nat)
  (k : drv A) (frames : list event) :
  reads k frames ->
  reads (bind (mem_read i2c addr reg size) (fun _ => k))
        (MemRead addr reg size :: frames).
Proof.
  intros Hk w.
  destruct (mem_read_spec i2c addr reg size w) as (Hs & Ht & Hr & _).
  destruct (mem_read i2c addr reg size w) as [r w1] eqn:E. cbn [fst snd] in *.
  destruct Hr as [-> | [st [Hst ->]]].
  - rewrite (bind_done _ _ _ _ _ E).
    destruct (Hk w1) as (n & Hn & Hn1 & Hn2 & Hn3).
    exists (S n). cbn [length firstn]. repeat split.
    + lia.
    + rewrite Hn1, Ht, <- app_assoc. reflexivity.
    + intros Hok. rewrite (Hn2 Hok). reflexivity.
    + apply (same_scale_trans _ _ _ Hn3 Hs).
    + apply (same_scale_trans _ _ _ Hn3 Hs).
    + apply (same_scale_trans _ _ _ Hn3 Hs).
    + apply (same_scale_trans _ _ _ Hn3 Hs).
  - rewrite (bind_return _ _ _ _ _ E). cbn [fst snd status].
    exists 1%nat. cbn [length firstn]. repeat split; try apply Hs.
    + lia.
    + rewrite Ht. destruct frames; reflexivity.
    + intros Hok. elim (Hst Hok).
Qed.

(** A frame left out at the end does not matter to a routine that has already
    stopped. *)
Lemma reads_weaken {A} (m : drv A) (frames more : list event) :
  (forall w, status (fst (m w)) <> HAL_OK) ->
  reads m frames -> reads m (frames ++ more).
Proof.
  intros Hko Hm w. destruct (Hm w) as (n & Hn & Ht & Hok & Hs).
  exists n. rewrite firstn_app, length_app.
  replace (n - length frames)%nat with 0%nat by lia. cbn [firstn].
  rewrite app_nil_r.
  split; [lia | split; [exact Ht | split; [|exact Hs]]].
  intros E. elim (Hko w E).
Qed.

Ltac reads_routine :=
  apply reads_mem_read; apply reads_get_statics; intros s; apply reads_if;
  [ apply (reads_weaken _ [] _); [discriminate | apply reads_busy]
  | apply reads_mem_read; apply reads_get_statics; intros s'; apply reads_ret ].

(** X13. Each of lsm303_la_raw, lsm303_la_read, lsm303_mf_raw and
    lsm303_mf_read reads the status register of its device and then the six
    output registers: the calls of the HAL it makes are these two, in this
    order, or a beginning of them; it returns HAL_OK only after both; it never
    changes the scales ([lsm303_ashift], [lsm303_alsb], [lsm303_mlsb_xy],
    [lsm303_mlsb_z]). With a null handle it returns HAL_ERROR and reads
    nothing. *)
Theorem sample_reads_in_order :
  (forall i2c : option I2C_HandleTypeDef,
     reads (lsm303_la_raw i2c) la_read_frames /\
     reads (lsm303_la_read i2c) la_read_frames /\
     reads (lsm303_mf_raw i2c) mf_read_frames /\
     reads (lsm303_mf_read i2c) mf_read_frames) /\
  (forall w : world,
     lsm303_la_raw None w = (Return HAL_ERROR, w) /\
     lsm303_la_read None w = (Return HAL_ERROR, w) /\
     lsm303_mf_raw None w = (Return HAL_ERROR, w) /\
     lsm303_mf_read None w = (Return HAL_ERROR, w)).
Proof.
  split; [|repeat split].
  intros i2c. destruct i2c as [i2c|]; [|repeat split; apply reads_null].
  unfold lsm303_la_raw, lsm303_la_read, lsm303_mf_raw, lsm303_mf_read,
    null_check, la_read_frames, mf_read_frames.
  repeat split; reads_routine.
Qed.

Ltac read_step i2c a r n w S w1 :=
  destruct (mem_read_spec i2c a r n w) as (S & _ & _ & _);
  destruct (mem_read i2c a r n w) as [[[]|?] w1]; cbn [fst snd] in *.

Ltac two_reads S1 S2 :=
  match goal with
  | |- context [mem_read ?i ?a ?r ?n ?w] =>
      let w1 := fresh "w1" in
      read_step i a r n w S1 w1; [|try (repeat split; discriminate); try easy];
      match goal with
      | |- context [if ?c then _ else _] =>
          destruct c; [try (repeat split; discriminate); try easy|]
      end;
      match goal with
      | |- context [mem_read ?i' ?a' ?r' ?n' w1] =>
          let w2 := fresh "w2" in
          read_step i' a' r' n' w1 S2 w2;
          [|try (repeat split; discriminate); try easy]
      end
  end.

(** X14. lsm303_la_read is lsm303_la_raw followed by the scaling, and
    lsm303_mf_read is lsm303_mf_raw followed by the scaling: on the same
    variables and the same bus the two routines of a pair make the same
    calls, leave the same variables and return the same status, and what the
    float routine writes is the raw value converted to [float] and
    multiplied by [lsm303_alsb], or divided by [lsm303_mlsb_xy] (X, Y) or
    [lsm303_mlsb_z] (Z) and multiplied by 100. *)
Theorem read_is_scaled_raw (i2c : option I2C_HandleTypeDef) (w : world) :
  (0 <= lsm303_ashift (statics w) ->
   snd (lsm303_la_read i2c w) = snd (lsm303_la_raw i2c w) /\
   status (fst (lsm303_la_read i2c w)) = status (fst (lsm303_la_raw i2c w)) /\
   written (fst (lsm303_la_read i2c w))
     = option_map (map3 (la_scaled (statics w)))
         (written (fst (lsm303_la_raw i2c w)))) /\
  (snd (lsm303_mf_read i2c w) = snd (lsm303_mf_raw i2c w) /\
   status (fst (lsm303_mf_read i2c w)) = status (fst (lsm303_mf_raw i2c w)) /\
   written (fst (lsm303_mf_read i2c w))
     = option_map (fun '(x, y, z) =>
                     (mf_scaled (lsm303_mlsb_xy (statics w)) x,
                      mf_scaled (lsm303_mlsb_xy (statics w)) y,
                      mf_scaled (lsm303_mlsb_z (statics w)) z))
         (written (fst (lsm303_mf_raw i2c w)))).
Proof.
  destruct i2c as [i2c|]; [|repeat split]. split.
  - intros Hk.
    unfold lsm303_la_read, lsm303_la_raw, null_check, bind, get_statics, ret.
    two_reads S1 S2.
    cbn [fst snd status written option_map map3]. repeat split.
    destruct S1 as (A1 & B1 & _), S2 as (A2 & B2 & _).
    unfold la_scaled. rewrite B2, B1, A2, A1.
    rewrite !s16_small by (apply shiftr_int16; [exact Hk | apply word16_range]).
    reflexivity.
  - unfold lsm303_mf_read, lsm303_mf_raw, null_check, bind, get_statics, ret.
    two_reads S1 S2.
    cbn [fst snd status written option_map]. repeat split.
    destruct S1 as (_ & _ & C1 & D1), S2 as (_ & _ & C2 & D2).
    unfold mf_scaled. rewrite C2, C1, D2, D1. reflexivity.
Qed.

(** X15. The values lsm303_la_raw writes are those of a signed field of
    [16 - lsm303_ashift] bits (12, 10 or 8 bits for the shifts 4, 6 and 8);
    those lsm303_mf_raw writes are those of [int16_t]. *)
Theorem raw_values_in_range (i2c : option I2C_HandleTypeDef) (w : world)
  (v : Z * Z * Z) :
  (0 <= lsm303_ashift (statics w) <= 15 ->
   written (fst (lsm303_la_raw i2c w)) = Some v ->
   all3 (signed_range (16 - lsm303_ashift (statics w))) v) /\
  (written (fst (lsm303_mf_raw i2c w)) = Some v -> all3 (signed_range 16) v).
Proof.
  destruct i2c as [i2c|]; [|split; intros; discriminate]. split.
  - intros Hk.
    unfold lsm303_la_raw, null_check, bind, get_statics, ret.
    two_reads S1 S2.
    cbn [fst written]. intros E. injection E as <-.
    destruct S1 as (A1 & _), S2 as (A2 & _). rewrite A2, A1.
    rewrite !s16_small by (apply shiftr_int16; [lia | apply word16_range]).
    repeat split; apply shifted_range; try exact Hk; apply word16_range.
  - unfold lsm303_mf_raw, null_check, bind, get_statics, ret.
    two_reads S1 S2.
    cbn [fst written]. intros E. injection E as <-.
    repeat split; apply word16_range.
Qed.

(** X16. When the status register is read and its data bit is clear (bit 3
    for the accelerometer, bit 0 for the magnetometer), the raw and the float
    routine return HAL_BUSY after this one read: the output registers are not
    read and nothing is written through the out-parameters. *)
Theorem data_not_ready (i2c : I2C_HandleTypeDef) (w : world) (st : Z) (b1 : bus) :
  (HAL_I2C_Mem_Read i2c LSM303_LA_SAD LSM303_STATUS_REG_A 1 (hw w)
     = (HAL_OK, [st], b1) ->
   0 <= st <= 255 -> Z.testbit st 3 = false ->
   fst (lsm303_la_raw (Some i2c) w) = Return HAL_BUSY /\
   fst (lsm303_la_read (Some i2c) w) = Return HAL_BUSY /\
   trace (snd (lsm303_la_raw (Some i2c) w)) = trace w ++ [MemRead 50 39 1] /\
   trace (snd (lsm303_la_read (Some i2c) w)) = trace w ++ [MemRead 50 39 1]) /\
  (HAL_I2C_Mem_Read i2c LSM303_MF_SAD LSM303_SR_REG_M 1 (hw w)
     = (HAL_OK, [st], b1) ->
   0 <= st <= 255 -> Z.testbit st 0 = false ->
   fst (lsm303_mf_raw (Some i2c) w) = Return HAL_BUSY /\
   fst (lsm303_mf_read (Some i2c) w) = Return HAL_BUSY /\
   trace (snd (lsm303_mf_raw (Some i2c) w)) = trace w ++ [MemRead 60 9 1] /\
   trace (snd (lsm303_mf_read (Some i2c) w)) = trace w ++ [MemRead 60 9 1]).
Proof.
  split; intros H1 Hst Hbit.
  - unfold lsm303_la_raw, lsm303_la_read, null_check, bind, get_statics.
    rewrite (mem_read_ok _ _ _ _ _ _ _ H1).
    cbn [statics lsm303_buf]. rewrite status_byte by exact Hst.
    rewrite bit_test by lia. rewrite Hbit. repeat split.
  - unfold lsm303_mf_raw, lsm303_mf_read, null_check, bind, get_statics.
    rewrite (mem_read_ok _ _ _ _ _ _ _ H1).
    cbn [statics lsm303_buf]. rewrite status_byte by exact Hst.
    rewrite bit0_test. rewrite Hbit. repeat split.
Qed.

(** What a successful lsm303_la_setup leaves in the scales. *)
Lemma la_setup_scales (i2c : option I2C_HandleTypeDef) (odr : lsm303_la_datarate_t)
  (lpe hr : Z) (fs : lsm303_la_fs_t) (w : world) :
  status (fst (lsm303_la_setup i2c odr lpe hr fs w)) = HAL_OK ->
  let s := statics (snd (lsm303_la_setup i2c odr lpe hr fs w)) in
  lsm303_ashift s = 16 - la_bits lpe hr /\
  within (lsm303_alsb s) (la_full_scale fs) (la_bits lpe hr) = true /\
  flt f0 (lsm303_alsb s) = true /\ is_finite (lsm303_alsb s) = true.
Proof.
  destruct i2c as [i2c|]; [|discriminate].
  unfold lsm303_la_setup, null_check, bind, get_statics, set_statics.
  cbv zeta.
  repeat match goal with
  | |- context [transmit ?i ?a ?d ?w0] =>
      let E := fresh "E" in
      let st := fresh "st" in
      let Hst := fresh "Hst" in
      destruct (transmit_spec i a d w0) as (_ & _ & [E | (st & Hst & E)]);
      destruct (transmit i a d w0) as [? ?]; cbn [fst] in E; subst;
      [|intros Hok; elim (Hst Hok)]
  end.
  intros _. cbn [fst snd statics lsm303_ashift lsm303_alsb]. unfold la_bits.
  destruct (hr =? 0), (lpe =? 0), fs;
    (split; [reflexivity | split; [vm_compute; reflexivity | split; reflexivity]]).
Qed.

Lemma la_read_values (i2c : option I2C_HandleTypeDef) (w : world)
  (v : float * float * float) :
  0 <= lsm303_ashift (statics w) <= 15 ->
  written (fst (lsm303_la_read i2c w)) = Some v ->
  exists r : Z * Z * Z,
    all3 (signed_range (16 - lsm303_ashift (statics w))) r /\
    v = map3 (la_scaled (statics w)) r.
Proof.
  intros Hk. destruct i2c as [i2c|]; [|discriminate].
  unfold lsm303_la_read, null_check, bind, get_statics, ret.
  two_reads S1 S2.
  cbn [fst written]. intros E. injection E as <-.
  destruct S1 as (A1 & B1 & _), S2 as (A2 & B2 & _). rewrite A2, A1, B2, B1.
  eexists (_, _, _). split; [|reflexivity].
  repeat split; apply shifted_range; try exact Hk; apply word16_range.
Qed.

(** X17. For a full-scale argument that is one of the four enumerators of
    [lsm303_la_fs_t] and a data-rate argument that is an enumerator of
    [lsm303_la_datarate_t] (C also accepts other integers there; the enums
    are closed types here, and nothing is said about such calls): after a
    successful lsm303_la_setup, and as long as the scales stay as it left
    them, every reading of lsm303_la_read is within the full scale
    that was selected: at most 2.01 g, 4.01 g and 8.01 g in absolute value
    for the selections 2G, 4G and 8G, and at most 24.02 g for the selection
    16G, in each of the three modes; every value of lsm303_la_raw has the
    width of the mode (12, 10 or 8 bits). *)
Theorem la_read_within_full_scale (i2c i2c' : option I2C_HandleTypeDef)
  (odr : lsm303_la_datarate_t) (lpe hr : Z) (fs : lsm303_la_fs_t) (w w1 : world) :
  status (fst (lsm303_la_setup i2c odr lpe hr fs w)) = HAL_OK ->
  same_scale (statics w1) (statics (snd (lsm303_la_setup i2c odr lpe hr fs w))) ->
  (forall v, written (fst (lsm303_la_read i2c' w1)) = Some v ->
     all3 (fun x => fle (fabsf x) (la_full_scale fs) = true) v) /\
  (forall r, written (fst (lsm303_la_raw i2c' w1)) = Some r ->
     all3 (signed_range (la_bits lpe hr)) r).
Proof.
  intros Hok (Ha & Hl & _).
  destruct (la_setup_scales i2c odr lpe hr fs w Hok) as (Hshift & Hw & _).
  destruct (la_bits_shift lpe hr) as (Hb & Hk).
  rewrite <- Ha in Hshift. rewrite <- Hl in Hw.
  assert (Hbits : 16 - lsm303_ashift (statics w1) = la_bits lpe hr) by lia.
  split.
  - intros v Hv.
    destruct (la_read_values i2c' w1 v) as ([[a b] c] & (Hx & Hy & Hz) & ->);
      [lia | exact Hv | ].
    rewrite Hbits in Hx, Hy, Hz.
    repeat split; apply (within_spec _ _ (la_bits lpe hr)); assumption.
  - intros r. destruct i2c' as [i2c'|]; [|discriminate].
    unfold lsm303_la_raw, null_check, bind, get_statics, ret.
    two_reads S1 S2.
    cbn [fst written]. intros E. injection E as <-.
    destruct S1 as (A1 & _), S2 as (A2 & _). rewrite A2, A1, <- Hbits.
    rewrite !s16_small by (apply shiftr_int16; [lia | apply word16_range]).
    repeat split; apply shifted_range; try lia; apply word16_range.
Qed.

Lemma float_of_int16_finite (v : Z) :
  -32768 <= v < 32768 -> is_finite (float_of_int v) = true.
Proof.
  intros Hv.
  assert (Hall : forallb (fun v => is_finite (float_of_int v))
                   (ints (-32768) (Z.to_nat 65536)) = true) by (vm_compute; reflexivity).
  rewrite forallb_forall in Hall. apply Hall. apply in_ints.
  rewrite Z2Nat.id by lia. lia.
Qed.

Lemma fmul_zero_r (x : float) : is_finite x = true -> is_zero (fmul x f0) = true.
Proof. destruct x; try discriminate; reflexivity. Qed.

Lemma mf_scaled_no_gain (v : Z) : is_finite (mf_scaled f0 v) = false.
Proof.
  unfold mf_scaled. destruct (float_of_int v) as [s | s | | s m e];
    try destruct s; reflexivity.
Qed.

(** X18. While the scales are those of start-up (all zero, as they are until
    a setup succeeds) the float routines give no measurement: every value
    lsm303_la_read writes is zero, whatever the device sends, and every value
    lsm303_mf_read writes is an infinity or NaN. *)
Theorem reads_before_setup (i2c : option I2C_HandleTypeDef) (w : world) :
  same_scale (statics w) lsm303_init ->
  (forall v, written (fst (lsm303_la_read i2c w)) = Some v ->
     all3 (fun x => is_zero x = true) v) /\
  (forall v, written (fst (lsm303_mf_read i2c w)) = Some v ->
     all3 (fun x => is_finite x = false) v).
Proof.
  intros (Ha & Hl & Hxy & Hz). cbn in Ha, Hl, Hxy, Hz. split.
  - intros v Hv.
    destruct (la_read_values i2c w v) as ([[a b] c] & (Hx & Hy & Hc) & ->);
      [lia | exact Hv | ].
    rewrite Ha in Hx, Hy, Hc. unfold signed_range in Hx, Hy, Hc.
    cbn [map3]. unfold la_scaled. rewrite Hl.
    repeat split; apply fmul_zero_r; apply float_of_int16_finite; cbn in *; lia.
  - intros v. destruct i2c as [i2c|]; [|discriminate].
    unfold lsm303_mf_read, null_check, bind, get_statics, ret.
    two_reads S1 S2.
    cbn [fst written]. intros E. injection E as <-.
    destruct S1 as (_ & _ & C1 & D1), S2 as (_ & _ & C2 & D2).
    rewrite C2, C1, D2, D1, Hxy, Hz.
    repeat split; apply mf_scaled_no_gain.
Qed.

(** ** an invariant of the variables of the driver *)

Lemma Forall_skipn {A} (P : A -> Prop) (n : nat) (l : list A) :
  Forall P l -> Forall P (skipn n l).
Proof.
  revert l. induction n as [|n IH]; intros l Hl; [exact Hl | ].
  destruct Hl as [|a l Ha Hl]; [constructor | apply IH; exact Hl].
Qed.

Lemma store_ok (size : nat) (data buf : list Z) :
  (size <= 6)%nat ->
  length buf = 6%nat -> Forall (fun b => 0 <= b <= 255) buf ->
  length (store (firstn size data) buf) = 6%nat /\
  Forall (fun b => 0 <= b <= 255) (store (firstn size data) buf).
Proof.
  intros Hsize Hlen Hall. unfold store. split.
  - rewrite length_app, length_map, length_skipn, length_firstn. lia.
  - apply Forall_app. split.
    + apply Forall_forall. intros b Hb. apply in_map_iff in Hb.
      destruct Hb as (d & <- & _). unfold u8.
      pose proof (Z.mod_pos_bound d 256). lia.
    + apply Forall_skipn. exact Hall.
Qed.

Lemma mem_read_statics (i2c : I2C_HandleTypeDef) (addr reg : Z) (size : nat)
  (w : world) :
  (size <= 6)%nat -> statics_ok (statics w) ->
  statics_ok (statics (snd (mem_read i2c addr reg size w))).
Proof.
  intros Hsize ((Hlen & Hall) & Hscale & Hgain).
  destruct (mem_read_spec i2c addr reg size w) as ((A & B & C & D) & _ & _ & data & E).
  destruct (store_ok size data _ Hsize Hlen Hall) as (Hlen' & Hall').
  unfold statics_ok, buffer_ok, scale_ok, gain_ok.
  rewrite E, A, B, C, D. repeat split; assumption.
Qed.

Ltac reads_keep Hw :=
  unfold null_check, bind, get_statics, ret;
  match goal with
  | |- context [mem_read ?i ?a ?r ?n ?w] =>
      let H1 := fresh "H1" in
      assert (H1 := mem_read_statics i a r n w ltac:(lia) Hw);
      destruct (mem_read i a r n w) as [[[]|?] ?]; cbn [fst snd] in *;
      [|exact H1];
      match goal with
      | |- context [if ?c then _ else _] => destruct c; [exact H1|]
      end;
      match goal with
      | |- context [mem_read ?i' ?a' ?r' ?n' ?w1] =>
          let H2 := fresh "H2" in
          assert (H2 := mem_read_statics i' a' r' n' w1 ltac:(lia) H1);
          destruct (mem_read i' a' r' n' w1) as [[[]|?] ?]; exact H2
      end
  end.

Lemma transmit_statics (i2c : I2C_HandleTypeDef) (addr : Z) (data : list Z)
  (w : world) : statics (snd (transmit i2c addr data w)) = statics w.
Proof. apply transmit_spec. Qed.

Ltac transmit_keep Hw :=
  repeat match goal with
  | |- context [transmit ?i ?a ?d ?w0] =>
      let E := fresh "E" in
      assert (E := transmit_statics i a d w0);
      destruct (transmit i a d w0) as [[[]|?] ?]; cbn [fst snd] in *;
      rewrite <- E in Hw; clear E; [|exact Hw]
  end.

Lemma api_step_statics (c : api_call) (w : world) :
  statics_ok (statics w) -> statics_ok (statics (api_step c w)).
Proof.
  intros Hw. destruct c as [i2c odr lpe hr fs | i2c cfg ths dur | i2c | i2c
                            | i2c ten odr gn md | i2c | i2c];
    cbn [api_step]; (destruct i2c as [i2c|]; [|exact Hw]).
  - unfold lsm303_la_setup, null_check, bind, get_statics, set_statics. cbv zeta.
    transmit_keep Hw.
    destruct Hw as (Hb & _ & Hg). cbn [snd statics].
    split; [exact Hb | split; [|exact Hg]].
    right. cbn [lsm303_ashift lsm303_alsb].
    destruct (hr =? 0), (lpe =? 0), fs;
      (split; [cbn; tauto | split; reflexivity]).
  - unfold lsm303_la_int1, null_check, bind, ret.
    destruct (cfg =? 0); cbv zeta iota beta; transmit_keep Hw; exact Hw.
  - unfold lsm303_la_raw. reads_keep Hw.
  - unfold lsm303_la_read. reads_keep Hw.
  - unfold lsm303_mf_setup, null_check, bind, get_statics, set_statics. cbv zeta.
    transmit_keep Hw.
    destruct Hw as (Hb & Hs & _).
    destruct gn; cbn [snd statics];
      (split; [exact Hb | split; [exact Hs|]]); right; repeat split.
  - unfold lsm303_mf_raw. reads_keep Hw.
  - unfold lsm303_mf_read. reads_keep Hw.
Qed.

(** X19. Whatever the bus does and whatever sequence of routines is called,
    from start-up on, with whatever arguments of the declared types, every
    enum argument being one of the enumerators of its type (C also accepts
    other integers there; the enums are closed types here, and nothing is
    said about such calls): [lsm303_buf] holds six bytes;
    [lsm303_ashift] is 0, 4, 6 or 8, so that the shifts of lsm303_la_raw and
    lsm303_la_read are by less than the width of the operand; [lsm303_alsb]
    is zero (with shift 0) or finite and greater than zero; the two gains of
    the magnetometer are both zero or both finite and greater than zero. *)
Theorem driver_statics_invariant :
  statics_ok lsm303_init /\
  (forall (l : list api_call) (w : world),
     statics_ok (statics w) -> statics_ok (statics (api_run l w))) /\
  (forall s, statics_ok s -> In (lsm303_ashift s) [0; 4; 6; 8]).
Proof.
  split; [|split].
  - split; [split; [reflexivity | repeat constructor; lia] | ].
    split; left; split; reflexivity.
  - unfold api_run. induction l as [|c l IH]; intros w Hw; [exact Hw | ].
    cbn [fold_left]. apply IH. apply api_step_statics. exact Hw.
  - intros s (_ & [(-> & _) | (Hin & _)] & _); cbn in *; tauto.
Qed.

(** ** readings that are numbers *)

Lemma mf_scaled_not_nan (g : float) (v : Z) :
  is_finite g = true -> is_zero g = false -> is_nan (mf_scaled g v) = false.
Proof.
  intros Hf Hz. unfold mf_scaled.
  apply fmul_not_nan; [|reflexivity|reflexivity].
  apply fdiv_not_nan; [apply float_of_int_not_nan | exact Hf | exact Hz].
Qed.

(** What a successful lsm303_mf_setup leaves in the gains. *)
Lemma mf_setup_gains (i2c : option I2C_HandleTypeDef) (ten : Z)
  (odr : lsm303_mf_do_t) (gn : lsm303_mf_gain_t) (md : lsm303_mf_md_t) (w : world) :
  status (fst (lsm303_mf_setup i2c ten odr gn md w)) = HAL_OK ->
  let s := statics (snd (lsm303_mf_setup i2c ten odr gn md w)) in
  is_finite (lsm303_mlsb_xy s) = true /\ is_zero (lsm303_mlsb_xy s) = false /\
  is_finite (lsm303_mlsb_z s) = true /\ is_zero (lsm303_mlsb_z s) = false.
Proof.
  destruct i2c as [i2c|]; [|discriminate].
  unfold lsm303_mf_setup, null_check, bind, get_statics, set_statics.
  cbv zeta.
  repeat match goal with
  | |- context [transmit ?i ?a ?d ?w0] =>
      let E := fresh "E" in
      let st := fresh "st" in
      let Hst := fresh "Hst" in
      destruct (transmit_spec i a d w0) as (_ & _ & [E | (st & Hst & E)]);
      destruct (transmit i a d w0) as [? ?]; cbn [fst] in E; subst;
      [|intros Hok; elim (Hst Hok)]
  end.
  intros _. destruct gn; repeat split.
Qed.

(** X20. For a gain argument that is one of the seven enumerators of
    [lsm303_mf_gain_t], and the other enum arguments enumerators of their
    types (C also accepts other integers there, and with a gain of 0 the
    switch sets no gain, so the property does not extend to such calls):
    after a successful lsm303_mf_setup, and as long as the gains stay as
    it left them, lsm303_mf_read never writes NaN, whatever the device
    sends. *)
Theorem mf_read_is_a_number (i2c i2c' : option I2C_HandleTypeDef) (ten : Z)
  (odr : lsm303_mf_do_t) (gn : lsm303_mf_gain_t) (md : lsm303_mf_md_t)
  (w w1 : world) (v : float * float * float) :
  status (fst (lsm303_mf_setup i2c ten odr gn md w)) = HAL_OK ->
  same_scale (statics w1) (statics (snd (lsm303_mf_setup i2c ten odr gn md w))) ->
  written (fst (lsm303_mf_read i2c' w1)) = Some v ->
  all3 (fun x => is_nan x = false) v.
Proof.
  intros Hok (_ & _ & Hxy & Hz).
  destruct (mf_setup_gains i2c ten odr gn md w Hok) as (F1 & Z1 & F2 & Z2).
  rewrite <- Hxy in F1, Z1. rewrite <- Hz in F2, Z2.
  destruct i2c' as [i2c'|]; [|discriminate].
  unfold lsm303_mf_read, null_check, bind, get_statics, ret.
  two_reads S1 S2.
  cbn [fst written]. intros E. injection E as <-.
  destruct S1 as (_ & _ & C1 & D1), S2 as (_ & _ & C2 & D2).
  rewrite C2, C1, D2, D1.
  repeat split; apply mf_scaled_not_nan; assumption.
Qed.

End Samples.

Lemma raw_values_in_range_witness :
  all3 (signed_range 12) (-2048, 0, 1024) /\ all3 (signed_range 16) (-300, 25, 32767).
Proof.
  split.
  - refine (proj1 (@raw_values_in_range scripted_HAL (Some tt)
                     (World scripted_HAL (Statics [0; 0; 0; 0; 0; 0] 4 f0 f0 f0)
                        [(HAL_OK, [8]); (HAL_OK, la_registers 4 (-2048) 0 1024)] [])
                     (-2048, 0, 1024)) _ eq_refl).
    cbn. lia.
  - exact (proj2 (@raw_values_in_range scripted_HAL (Some tt)
                    (power_on [(HAL_OK, [1]); (HAL_OK, mf_registers (-300) 25 32767)])
                    (-300, 25, 32767)) eq_refl).
Defined.

Lemma data_not_ready_witness :
  fst (lsm303_la_read (Some tt) (power_on [(HAL_OK, [7])])) = Return HAL_BUSY /\
  fst (lsm303_mf_read (Some tt) (power_on [(HAL_OK, [2])])) = Return HAL_BUSY.
Proof.
  split.
  - refine (proj1 (proj2 (proj1 (@data_not_ready scripted_HAL tt
                                   (power_on [(HAL_OK, [7])]) 7 [])
                            eq_refl _ eq_refl))).
    lia.
  - refine (proj1 (proj2 (proj2 (@data_not_ready scripted_HAL tt
                                   (power_on [(HAL_OK, [2])]) 2 [])
                            eq_refl _ eq_refl))).
    lia.
Defined.

Lemma la_read_within_full_scale_witness :
  all3 (fun x => fle (fabsf x) (la_full_scale LSM303_AFS_2G) = true)
    (map3 (la_scaled (Statics [0; 0; 0; 0; 0; 0] 4 (d2f (dec64 98 5)) f0 f0))
       (-2048, 0, 1024)).
Proof.
  refine (proj1 (@la_read_within_full_scale scripted_HAL (Some tt) (Some tt)
                   LSM303_ADATARATE_100 0 1 LSM303_AFS_2G
                   (power_on [(HAL_OK, []); (HAL_OK, [])])
                   (World scripted_HAL
                      (Statics [0; 0; 0; 0; 0; 0] 4 (d2f (dec64 98 5)) f0 f0)
                      [(HAL_OK, [8]); (HAL_OK, la_registers 4 (-2048) 0 1024)] [])
                   eq_refl _) _ eq_refl).
  repeat split.
Defined.

Lemma reads_before_setup_witness :
  all3 (fun x => is_zero x = true) (map3 (la_scaled lsm303_init) (300, -2, 0)) /\
  all3 (fun x => is_finite x = false) (map3 (mf_scaled f0) (300, -2, 0)).
Proof.
  split.
  - refine (proj1 (@reads_before_setup scripted_HAL (Some tt)
                     (power_on [(HAL_OK, [8]); (HAL_OK, la_registers 0 300 (-2) 0)])
                     _) _ eq_refl).
    repeat split.
  - refine (proj2 (@reads_before_setup scripted_HAL (Some tt)
                     (power_on [(HAL_OK, [1]); (HAL_OK, mf_registers 300 (-2) 0)])
                     _) _ eq_refl).
    repeat split.
Defined.

Lemma mf_read_is_a_number_witness :
  all3 (fun x => is_nan x = false)
    (mf_scaled (f32 1100 0) 0, mf_scaled (f32 1100 0) 0, mf_scaled (f32 980 0) 0).
Proof.
  refine (@mf_read_is_a_number scripted_HAL (Some tt) (Some tt) 0
            LSM303_MDATARATE_220 LSM303_MGAIN_1_3 LSM303_MMODE_CONTINUOUS
            (power_on [(HAL_OK, []); (HAL_OK, []); (HAL_OK, [])])
            (World scripted_HAL
               (Statics [0; 0; 0; 0; 0; 0] 0 f0 (f32 1100 0) (f32 980 0))
               [(HAL_OK, [1]); (HAL_OK, mf_registers 0 0 0)] [])
            _ eq_refl _ eq_refl).
  repeat split.
Defined.

Lemma read_is_scaled_raw_witness :
  written (fst (lsm303_la_read (Some tt)
                  (World scripted_HAL (Statics [0; 0; 0; 0; 0; 0] 4 (d2f (dec64 98 5)) f0 f0)
                     [(HAL_OK, [8]); (HAL_OK, la_registers 4 (-2048) 0 1024)] [])))
  = Some (map3 (la_scaled (Statics [0; 0; 0; 0; 0; 0] 4 (d2f (dec64 98 5)) f0 f0))
            (-2048, 0, 1024)).
Proof.
  refine (proj2 (proj2 (proj1 (@read_is_scaled_raw scripted_HAL (Some tt)
            (World scripted_HAL (Statics [0; 0; 0; 0; 0; 0] 4 (d2f (dec64 98 5)) f0 f0)
               [(HAL_OK, [8]); (HAL_OK, la_registers 4 (-2048) 0 1024)] [])) _))).
  cbn. lia.
Defined.

Lemma driver_statics_invariant_witness :
  statics_ok
    (statics
       (api_run
          [Call_la_read (Some tt);
           Call_la_setup (Some tt) LSM303_ADATARATE_400 0 1 LSM303_AFS_4G;
           Call_mf_setup (Some tt) 0 LSM303_MDATARATE_220 LSM303_MGAIN_1_3
             LSM303_MMODE_CONTINUOUS;
           Call_la_read (Some tt); Call_mf_read (Some tt)]
          (power_on [(HAL_OK, [0]); (HAL_OK, []); (HAL_OK, []); (HAL_OK, []);
                     (HAL_ERROR, []); (HAL_OK, [8]);
                     (HAL_OK, la_registers 4 100 (-100) 1000)]))).
Proof.
  apply (proj1 (proj2 (@driver_statics_invariant scripted_HAL))).
  exact (proj1 (@driver_statics_invariant scripted_HAL)).
Defined.
